(** * isoparser: a shallow embedding of the SUSP / Rock Ridge decoding layer

    The development follows the Python sources
    [isoparser/source.py], [isoparser/record.py], [isoparser/rockridge.py]
    and [isoparser/iso.py].  Python 2 byte strings are lists of characters,
    Python integers are [Z], dictionaries are [gmap]s, objects with mutable
    attributes live in an explicit store, and every method is a computation
    in a state-and-exception monad over that store. *)

From Stdlib Require Import ZArith Lia List Ascii String Bool.
From stdpp Require Import base option list gmap strings.

Import ListNotations.
Local Open Scope Z_scope.

(** ** Python values *)

(** A Python 2 [str] is a sequence of bytes. *)
Definition str := list ascii.

(** Literal byte strings in statements are written [b "text"]. *)
Definition b (s : string) : str := list_ascii_of_string s.

(** [ord] and [chr] on single bytes. *)
Definition ord (c : ascii) : Z := Z.of_N (N_of_ascii c).
Definition chr (z : Z) : ascii := ascii_of_N (Z.to_N z).

(** [len(s)] as a Python integer. *)
Definition len {A} (l : list A) : Z := Z.of_nat (List.length l).

(** The slice [s[i:j]] for non-negative [i] and [j]. *)
Definition slice {A} (i j : Z) (l : list A) : list A :=
  take (Z.to_nat (j - i)) (drop (Z.to_nat i) l).

(** A value that is [None], [False] or an integer: the three states of
    [Source.susp_starting_index] and of [Record._last_cached_child]. *)
Inductive tri := PyNone | PyFalse | PyInt (z : Z).

(** Truth value of such an object in an [if]. *)
Definition truthy (t : tri) : bool :=
  match t with
  | PyInt z => negb (z =? 0)
  | _ => false
  end.

(** The test [t is not False]. *)
Definition is_not_False (t : tri) : bool :=
  match t with
  | PyFalse => false
  | _ => true
  end.

(** ** Exceptions *)

(** The three messages with which [source.py] raises [SourceError]. *)
Inductive source_error :=
| RewindUnderrun      (* "Rewind buffer under-run" *)
| BufferUnderrun      (* "Source buffer under-run" *)
| EndianMismatch.     (* "Both-endian value mismatch" *)

Inductive exn :=
| SourceError (k : source_error)
| SUSPError
| AssertionError
| KeyError
| UnboundLocalError
| AttributeError
| ValueError
| TypeError
| StructError
| IndexError.

(** Outcome of a call: a value, a raised exception, or no outcome at all
    (the loop was still running when the step budget ran out).  [Diverge]
    is not a Python exception and no handler catches it. *)
Inductive Res (A : Type) :=
| Ok (a : A)
| Raise (e : exn)
| Diverge.
Arguments Ok {A} a.
Arguments Raise {A} e.
Arguments Diverge {A}.

(** ** struct formats *)

Inductive endian := LE | BE.

(** The integer format characters of the [struct] module. *)
Inductive code := c_b | c_B | c_h | c_H | c_i | c_I | c_l | c_L | c_q | c_Q.

(** Standard sizes (the formats are always prefixed by '<' or '>'). *)
Definition code_size (c : code) : nat :=
  match c with
  | c_b | c_B => 1
  | c_h | c_H => 2
  | c_i | c_I | c_l | c_L => 4
  | c_q | c_Q => 8
  end%nat.

Definition code_signed (c : code) : bool :=
  match c with
  | c_b | c_h | c_i | c_l | c_q => true
  | _ => false
  end.

(** One item of a format string: an integer code, or ['Ns'] / ['c']. *)
Inductive fitem :=
| FInt (c : code)
| FStr (n : nat).

Definition fitem_size (f : fitem) : nat :=
  match f with
  | FInt c => code_size c
  | FStr n => n
  end.

(** [struct.calcsize] *)
Definition calcsize (fmt : list fitem) : Z :=
  Z.of_nat (foldr (fun f n => (fitem_size f + n)%nat) 0%nat fmt).

(** A directory-form timestamp as built by [datetime.datetime]. *)
Record datetime := {
  dt_year : Z; dt_month : Z; dt_day : Z;
  dt_hour : Z; dt_minute : Z; dt_second : Z;
  dt_tzoffset : Z (* minutes, [ISO_tzinfo.offset] *)
}.

Inductive value :=
| VInt (z : Z)
| VStr (s : str)
| VDate (d : datetime).

(** Unsigned value of a little-endian / big-endian byte sequence. *)
Fixpoint le_uint (bs : str) : Z :=
  match bs with
  | [] => 0
  | c :: r => ord c + 256 * le_uint r
  end.

Definition be_uint (bs : str) : Z :=
  fold_left (fun acc c => acc * 256 + ord c) bs 0.

Definition to_signed (n : nat) (v : Z) : Z :=
  if v <? 2 ^ (8 * Z.of_nat n - 1) then v else v - 2 ^ (8 * Z.of_nat n).

Definition int_of (e : endian) (c : code) (bs : str) : Z :=
  let u := match e with LE => le_uint bs | BE => be_uint bs end in
  if code_signed c then to_signed (code_size c) u else u.

(** [struct.unpack(fmt, raw)]: the fields are laid out one after the other;
    a buffer of the wrong size is a [struct.error]. *)
Fixpoint struct_fields (e : endian) (fmt : list fitem) (raw : str) : list value :=
  match fmt with
  | [] => []
  | f :: fmt' =>
      let field := take (fitem_size f) raw in
      let v := match f with
               | FInt c => VInt (int_of e c field)
               | FStr _ => VStr field
               end in
      v :: struct_fields e fmt' (drop (fitem_size f) raw)
  end.

Definition struct_unpack (e : endian) (fmt : list fitem) (raw : str) : option (list value) :=
  if len raw =? calcsize fmt then Some (struct_fields e fmt raw) else None.

(** ** SUSP and Rock Ridge entries *)

(** A timestamp captured by [TF]: the 17 raw bytes of the long form, or the
    seven integers of the short form kept for later conversion. *)
Inductive tf_stamp :=
| TFLong (raw : str)
| TFLazy (date : list Z).

Inductive SUSP_Entry :=
| SP (len_skp : Z)
| CE (location offset length : Z)
| ST
| ER (ext_id : str) (ext_ver : Z) (ext_des ext_src : str)
| UnknownEntry (signature : str) (version : Z) (raw : str)
| RR (flags : Z)
| PX (attrs : list Z)                 (* mode, nlinks, uid, gid [, ino]; empty when none was set *)
| PN (dev_high dev_low : Z)
| SL (flags : Z) (path : str)
| NM (flags : Z) (name : option str)  (* [None]: the attribute [name] was never assigned *)
| TF (flags : Z) (stamps : list (option tf_stamp)).

Definition is_SP (e : SUSP_Entry) : bool := match e with SP _ => true | _ => false end.
Definition is_ST (e : SUSP_Entry) : bool := match e with ST => true | _ => false end.
Definition is_CE (e : SUSP_Entry) : bool := match e with CE _ _ _ => true | _ => false end.
Definition is_ER (e : SUSP_Entry) : bool := match e with ER _ _ _ _ => true | _ => false end.
Definition is_NM (e : SUSP_Entry) : bool := match e with NM _ _ => true | _ => false end.

(** ** The store: the source, the records and the dictionaries *)

(** A [cStringIO] buffer: its contents and its position. *)
Record StringIO := { sio_data : str; sio_pos : Z }.

Record Source := {
  _buff : option StringIO;
  _len : Z;
  _sectors : gmap Z str;
  cache_content : bool;
  min_fetch : Z;
  susp_starting_index : tri;
  susp_extensions : list SUSP_Entry;
  rockridge : bool;
  _file : str                         (* [FileSource]: the bytes of the image file *)
}.

(** A [Record] object.  References to records are indices into the store. *)
Record RecordObj := {
  _content : option str;
  _child_cache : nat;                 (* reference to the dictionary object *)
  _last_cached_child : tri;
  rec_location : Z;
  rec_length : Z;
  rec_datetime : datetime;
  is_hidden : Z;
  is_directory : Z;
  raw_name : str;
  embedded_susp_entries : list SUSP_Entry;
  _latest_child_start : option Z
}.

Record World := {
  source : Source;
  records : list RecordObj;
  dicts : list (gmap str nat)
}.

(** ** The monad *)

Definition M (A : Type) : Type := World -> Res A * World.

Definition ret {A} (a : A) : M A := fun w => (Ok a, w).
Definition raise {A} (e : exn) : M A := fun w => (Raise e, w).
Definition diverge {A} : M A := fun w => (Diverge, w).

Definition bind {A B} (m : M A) (k : A -> M B) : M B :=
  fun w =>
    match m w with
    | (Ok a, w') => k a w'
    | (Raise e, w') => (Raise e, w')
    | (Diverge, w') => (Diverge, w')
    end.

Notation "x <- m ;; k" := (bind m (fun x => k))
  (at level 100, m at next level, right associativity).
Notation "m ;; k" := (bind m (fun _ => k))
  (at level 100, right associativity).

(** [assert cond] *)
Definition py_assert (cond : bool) : M unit :=
  if cond then ret tt else raise AssertionError.

(** [try: m except SUSPError: h] *)
Definition try_except_SUSPError {A} (m : M A) (h : M A) : M A :=
  fun w =>
    match m w with
    | (Raise SUSPError, w') => h w'
    | r => r
    end.

Definition get_source : M Source := fun w => (Ok (source w), w).

Definition set_source (s : Source) : M unit :=
  fun w => (Ok tt, {| source := s; records := records w; dicts := dicts w |}).

(** ** source.py *)

Definition SECTOR_LENGTH : Z := 2048.

Definition set_buff (s : Source) (bf : option StringIO) (l : Z) : Source :=
  {| _buff := bf; _len := l; _sectors := _sectors s;
     cache_content := cache_content s; min_fetch := min_fetch s;
     susp_starting_index := susp_starting_index s;
     susp_extensions := susp_extensions s; rockridge := rockridge s;
     _file := _file s |}.

(** The [cursor] property: [None] while there is no buffer. *)
Definition cursor_of (s : Source) : option Z :=
  match _buff s with
  | None => None
  | Some bf => Some (sio_pos bf)
  end.

(** Reading [cursor] where an integer is needed fails on [None]. *)
Definition cursor : M Z :=
  s <- get_source ;;
  match cursor_of s with
  | Some c => ret c
  | None => raise TypeError
  end.

(** The [cursor] setter, [self._buff.seek(pos)].  A [cStringIO] seek to a
    negative position stops at 0. *)
Definition set_cursor (pos : Z) : M unit :=
  s <- get_source ;;
  match _buff s with
  | None => raise AttributeError
  | Some bf =>
      set_source (set_buff s (Some {| sio_data := sio_data bf; sio_pos := Z.max 0 pos |}) (_len s))
  end.

(** [Source.__len__] *)
Definition source_len : M Z :=
  c <- cursor ;;
  s <- get_source ;;
  ret (_len s - c).

(** In Python 2 [None] compares smaller than every number: while there is
    no buffer the test [self.cursor < l] holds and the under-run is
    raised. *)
Definition rewind_raw (l : Z) : M unit :=
  s <- get_source ;;
  match cursor_of s with
  | None => raise (SourceError RewindUnderrun)
  | Some c =>
      if c <? l then raise (SourceError RewindUnderrun)
      else set_cursor (c - l)
  end.

(** [self._buff.read(l)]: at most [l] bytes from the position, all the
    remaining bytes when [l] is negative. *)
Definition sio_read (bf : StringIO) (l : Z) : str * StringIO :=
  let rest := drop (Z.to_nat (sio_pos bf)) (sio_data bf) in
  let data := if l <? 0 then rest else take (Z.to_nat l) rest in
  (data, {| sio_data := sio_data bf; sio_pos := sio_pos bf + len data |}).

Definition unpack_raw (l : Z) : M str :=
  s <- get_source ;;
  match _buff s with
  | None => raise AttributeError
  | Some bf =>
      let '(data, bf') := sio_read bf l in
      set_source (set_buff s (Some bf') (_len s)) ;;
      if len data <? l then raise (SourceError BufferUnderrun)
      else ret data
  end.

Definition unpack_all : M str :=
  n <- source_len ;;
  unpack_raw n.

Definition unpack_boundary : M str :=
  c <- cursor ;;
  unpack_raw (SECTOR_LENGTH - c mod SECTOR_LENGTH).

Definition of_struct {A} (o : option A) : M A :=
  match o with
  | Some a => ret a
  | None => raise StructError
  end.

Definition _unpack_both (st : list fitem) : M (list value * list value) :=
  raw <- unpack_raw (calcsize st) ;;
  le <- of_struct (struct_unpack LE st raw) ;;
  be <- of_struct (struct_unpack BE st raw) ;;
  ret (le, be).

(** [unpack_both(st)] for a single format character [st]. *)
Definition unpack_both (st : code) : M Z :=
  both <- _unpack_both [FInt st; FInt st] ;;
  match fst both, snd both with
  | [VInt a; _], [_; VInt bv] =>
      if negb (a =? bv) then raise (SourceError EndianMismatch)
      else ret a
  | _, _ => raise ValueError
  end.

(** [s.rstrip(' ')] *)
Fixpoint lstrip_space (s : str) : str :=
  match s with
  | c :: r => if Ascii.eqb c " "%char then lstrip_space r else s
  | [] => []
  end.

Definition rstrip_space (s : str) : str := rev (lstrip_space (rev s)).

Definition unpack_string (l : Z) : M str :=
  raw <- unpack_raw l ;;
  ret (rstrip_space raw).

(** [unpack(st)] for a format of several items (the result is a tuple);
    every format used in the sources is little-endian. *)
Definition unpack (st : list fitem) : M (list value) :=
  raw <- unpack_raw (calcsize st) ;;
  of_struct (struct_unpack LE st raw).

(** [unpack(st)] for a single format character: [len(st) == 2] once the
    '<' is prepended, and the only element of the tuple is returned. *)
Definition unpack1 (c : code) : M Z :=
  d <- unpack [FInt c] ;;
  match d with
  | [VInt z] => ret z
  | _ => raise ValueError
  end.

Definition rewind (st : list fitem) : M unit := rewind_raw (calcsize st).

(** Validation done by the [datetime.datetime] constructor. *)
Definition is_leap (y : Z) : bool :=
  ((y mod 4 =? 0) && negb (y mod 100 =? 0)) || (y mod 400 =? 0).

Definition days_in_month (y m : Z) : Z :=
  if m =? 2 then (if is_leap y then 29 else 28)
  else if (m =? 4) || (m =? 6) || (m =? 9) || (m =? 11) then 30
  else 31.

Definition valid_datetime (d : datetime) : bool :=
  (1 <=? dt_year d) && (dt_year d <=? 9999) &&
  (1 <=? dt_month d) && (dt_month d <=? 12) &&
  (1 <=? dt_day d) && (dt_day d <=? days_in_month (dt_year d) (dt_month d)) &&
  (0 <=? dt_hour d) && (dt_hour d <=? 23) &&
  (0 <=? dt_minute d) && (dt_minute d <=? 59) &&
  (0 <=? dt_second d) && (dt_second d <=? 59).

Definition _unpack_dir_datetime (t : list Z) : M datetime :=
  match t with
  | [y; mo; d; h; mi; s; tz] =>
      let dt := {| dt_year := y + 1900; dt_month := mo; dt_day := d;
                   dt_hour := h; dt_minute := mi; dt_second := s;
                   dt_tzoffset := tz * 15 |} in
      if valid_datetime dt then ret dt else raise ValueError
  | _ => raise TypeError
  end.

Definition ints_of (vs : list value) : list Z :=
  omap (fun v => match v with VInt z => Some z | _ => None end) vs.

(** The format '<6Bb' of a directory-form timestamp. *)
Definition fmt_6Bb : list fitem :=
  [FInt c_B; FInt c_B; FInt c_B; FInt c_B; FInt c_B; FInt c_B; FInt c_b].

(** The thunk returned by [unpack_lazy_dir_datetime] is represented by the
    tuple it closes over. *)
Definition unpack_lazy_dir_datetime : M (list Z) :=
  d <- unpack fmt_6Bb ;;
  ret (ints_of d).

Definition unpack_dir_datetime : M datetime :=
  date <- unpack_lazy_dir_datetime ;;
  _unpack_dir_datetime date.

Definition unpack_vd_datetime : M str := unpack_raw 17.

(** *** unpack_smart *)

(** The format characters [unpack_smart] is called with: an integer code,
    't' or 'T'. *)
Inductive smart_code := SmInt (c : code) | Sm_t | Sm_T.

Inductive handler := HNone | HDirDatetime | HBoth.

(** One entry of [pack_list]. *)
Definition pack_of (c : smart_code) : list fitem * handler :=
  match c with
  | SmInt c_b => ([FInt c_b], HNone)
  | SmInt c_B => ([FInt c_B], HNone)
  | Sm_t => (fmt_6Bb, HDirDatetime)
  | Sm_T => ([FStr 17], HNone)
  | SmInt c => ([FInt c; FInt c], HBoth)
  end.

Definition is_HBoth (h : handler) : bool :=
  match h with HBoth => true | _ => false end.

(** The loop over [izip(pack_list, value_iter)]; [vals] is what is left of
    [value_iter]. *)
Fixpoint smart_values (plan : list handler) (vals : list (value * value)) : M (list value) :=
  match plan, vals with
  | h :: plan', (v, _) :: vals' =>
      match h with
      | HDirDatetime =>
          d <- _unpack_dir_datetime (ints_of (v :: map fst (take 6 vals'))) ;;
          r <- smart_values plan' (drop 6 vals') ;;
          ret (VDate d :: r)
      | HBoth =>
          match vals' with
          | (_, be_value) :: vals'' =>
              match v, be_value with
              | VInt x, VInt y =>
                  if negb (x =? y) then raise (SourceError EndianMismatch)
                  else r <- smart_values plan' vals'' ;; ret (v :: r)
              | _, _ => raise ValueError
              end
          | [] => ret []
          end
      | HNone =>
          r <- smart_values plan' vals' ;;
          ret (v :: r)
      end
  | _, _ => ret []
  end.

(** [unpack_smart(st)], drained by the caller's tuple assignment.  The parse
    plan is recomputed here; [_pack_cache] only memoises it. *)
Definition unpack_smart (st : list smart_code) : M (list value) :=
  let pack_list := map pack_of st in
  let pack_st := concat (map fst pack_list) in
  let needs_both := existsb (fun p => is_HBoth (snd p)) pack_list in
  raw <- unpack_raw (calcsize pack_st) ;;
  a <- of_struct (struct_unpack LE pack_st raw) ;;
  bvals <- (if needs_both then of_struct (struct_unpack BE pack_st raw) else ret a) ;;
  smart_values (map snd pack_list) (zip a bvals).

(** *** seek *)

(** [FileSource._fetch] *)
Definition _fetch (s : Source) (sector count : Z) : str :=
  take (Z.to_nat (SECTOR_LENGTH * count))
       (drop (Z.to_nat (sector * SECTOR_LENGTH)) (_file s)).

(** [xrange(lo, hi)] *)
Definition xrange (lo hi : Z) : list Z :=
  map (fun i => lo + Z.of_nat i) (seq 0 (Z.to_nat (hi - lo))).

(** Local state of [seek]: what was written to the new buffer, the sector
    cache, and [need_start]. *)
Record seek_state := {
  sk_written : str;
  sk_sectors : gmap Z str;
  sk_need_start : option Z
}.

Definition fetch_needed (s : Source) (do_caching : bool) (need_start need_count : Z)
    (st : seek_state) : seek_state :=
  let data := _fetch s need_start need_count in
  {| sk_written := sk_written st ++ data;
     sk_sectors :=
       if do_caching then
         fold_left
           (fun m sector_idx =>
              <[need_start + sector_idx :=
                  slice (sector_idx * SECTOR_LENGTH) ((sector_idx + 1) * SECTOR_LENGTH) data]> m)
           (xrange 0 need_count) (sk_sectors st)
       else sk_sectors st;
     sk_need_start := sk_need_start st |}.

Fixpoint seek_loop (s : Source) (do_caching : bool) (start_sector n_sectors : Z)
    (todo : list Z) (st : seek_state) : seek_state :=
  match todo with
  | [] => st
  | sector :: todo' =>
      match sk_sectors st !! sector with
      | Some cached =>
          let st1 :=
            match sk_need_start st with
            | Some need_start =>
                let st' := fetch_needed s do_caching need_start (sector - need_start) st in
                {| sk_written := sk_written st'; sk_sectors := sk_sectors st';
                   sk_need_start := None |}
            | None => st
            end in
          if start_sector + n_sectors <=? sector then st1
          else
            seek_loop s do_caching start_sector n_sectors todo'
              {| sk_written := sk_written st1 ++ cached;
                 sk_sectors := sk_sectors st1;
                 sk_need_start := sk_need_start st1 |}
      | None =>
          seek_loop s do_caching start_sector n_sectors todo'
            match sk_need_start st with
            | None =>
                {| sk_written := sk_written st; sk_sectors := sk_sectors st;
                   sk_need_start := Some sector |}
            | Some _ => st
            end
      end
  end.

Definition seek (start_sector length : Z) (is_content : bool) : M unit :=
  s <- get_source ;;
  let do_caching := negb is_content || cache_content s in
  let n_sectors := 1 + (length - 1) / SECTOR_LENGTH in
  let fetch_sectors := if do_caching then Z.max (min_fetch s) n_sectors else n_sectors in
  let st0 := {| sk_written := []; sk_sectors := _sectors s; sk_need_start := None |} in
  let st1 := seek_loop s do_caching start_sector n_sectors
               (xrange start_sector (start_sector + fetch_sectors)) st0 in
  let st2 := match sk_need_start st1 with
             | Some need_start =>
                 fetch_needed s do_caching need_start
                   (start_sector + fetch_sectors - need_start) st1
             | None => st1
             end in
  set_source
    {| _buff := Some {| sio_data := take (Z.to_nat length) (sk_written st2); sio_pos := 0 |};
       _len := length;
       _sectors := sk_sectors st2;
       cache_content := cache_content s; min_fetch := min_fetch s;
       susp_starting_index := susp_starting_index s;
       susp_extensions := susp_extensions s; rockridge := rockridge s;
       _file := _file s |}.

(** [save_cursor] hands out the buffer object itself.  Between a
    [save_cursor] and its [restore_cursor] the only operation that can
    intervene is a [seek], which installs a fresh buffer and leaves the
    saved one untouched; the saved object is therefore its value at the
    time of the call. *)
Definition save_cursor : M (option StringIO * Z) :=
  s <- get_source ;;
  ret (_buff s, _len s).

Definition restore_cursor (cursor_def : option StringIO * Z) : M unit :=
  s <- get_source ;;
  set_source (set_buff s (fst cursor_def) (snd cursor_def)).

(** ** susp.py (absent from the sources) *)

(** Modelled from the spec: [susp_assert] of the missing module susp.py; a
    violated per-entry assertion is a SUSP decode error. *)
Definition susp_assert (cond : bool) : M unit :=
  if cond then ret tt else raise SUSPError.

(** Modelled from the spec: the constructor of [UnknownEntry] in the missing
    module susp.py, which keeps the [length] payload bytes verbatim. *)
Definition UnknownEntry_init (sig_version : str * Z) (length : Z) : M SUSP_Entry :=
  raw <- unpack_raw length ;;
  ret (UnknownEntry (fst sig_version) (snd sig_version) raw).

(** Modelled from the spec: [SP] of the missing module susp.py, the
    start-of-SUSP marker carrying [len_skp] after its two check bytes. *)
Definition SP_init (length : Z) : M SUSP_Entry :=
  susp_assert (length =? 3) ;;
  unpack_raw 2 ;;
  len_skp <- unpack1 c_B ;;
  ret (SP len_skp).

(** Modelled from the spec: [CE] of the missing module susp.py, the
    continuation-area pointer (location sector, offset, length). *)
Definition CE_init (length : Z) : M SUSP_Entry :=
  susp_assert (length =? 24) ;;
  location <- unpack_both c_I ;;
  offset <- unpack_both c_I ;;
  ce_length <- unpack_both c_I ;;
  ret (CE location offset ce_length).

(** Modelled from the spec: [ST] of the missing module susp.py. *)
Definition ST_init (length : Z) : M SUSP_Entry :=
  susp_assert (length =? 0) ;;
  ret ST.

(** Modelled from the spec: [ER] of the missing module susp.py, the
    extension reference (ext_id, ext_ver and the descriptive fields). *)
Definition ER_init (length : Z) : M SUSP_Entry :=
  susp_assert (4 <=? length) ;;
  len_id <- unpack1 c_B ;;
  len_des <- unpack1 c_B ;;
  len_src <- unpack1 c_B ;;
  ext_ver <- unpack1 c_B ;;
  susp_assert (length =? 4 + len_id + len_des + len_src) ;;
  ext_id <- unpack_raw len_id ;;
  ext_des <- unpack_raw len_des ;;
  ext_src <- unpack_raw len_src ;;
  ret (ER ext_id ext_ver ext_des ext_src).

(** ** rockridge.py *)

Definition RRIP_109 : str * Z := (b "RRIP_1991A", 1).
Definition RRIP_112 : str * Z := (b "IEEE_P1282", 1).

Definition EXT_VERSIONS : list (str * Z) := [RRIP_109; RRIP_112].

Definition RR_init (length : Z) : M SUSP_Entry :=
  susp_assert (length =? 1) ;;
  flags <- unpack1 c_B ;;
  ret (RR flags).

Definition PX_init (length : Z) : M SUSP_Entry :=
  if length =? 32 then
    vs <- unpack_smart [SmInt c_I; SmInt c_I; SmInt c_I; SmInt c_I] ;;
    match ints_of vs with
    | [_; _; _; _] as l => ret (PX l)
    | _ => raise ValueError
    end
  else if length =? 40 then
    vs <- unpack_smart [SmInt c_I; SmInt c_I; SmInt c_I; SmInt c_I; SmInt c_I] ;;
    match ints_of vs with
    | [_; _; _; _; _] as l => ret (PX l)
    | _ => raise ValueError
    end
  else ret (PX []).

Definition PN_init (length : Z) : M SUSP_Entry :=
  susp_assert (length =? 16) ;;
  dev_high <- unpack_both c_I ;;
  dev_low <- unpack_both c_I ;;
  ret (PN dev_high dev_low).

Definition SL_CONTINUE : Z := 1.
Definition SL_CURRENT : Z := 2.
Definition SL_PARENT : Z := 4.
Definition SL_ROOT : Z := 8.

(** The loop [while source.cursor < target] of [SL.__init__].  Every turn
    reads at least two bytes, so [fuel] turns are enough when [fuel] is the
    number of bytes up to [target]. *)
Fixpoint SL_loop (fuel : nat) (target flags : Z) (path : str) : M str :=
  c <- cursor ;;
  if c <? target then
    match fuel with
    | O => diverge
    | S fuel' =>
        comp_flags <- unpack1 c_B ;;
        comp_len <- unpack1 c_B ;;
        comp_content <- unpack_raw comp_len ;;
        c1 <- cursor ;;
        susp_assert (c1 <=? target) ;;
        path1 <-
          (if comp_flags =? SL_CURRENT then
             susp_assert (comp_len =? 0) ;; ret (path ++ b ".")
           else if comp_flags =? SL_PARENT then
             susp_assert (comp_len =? 0) ;; ret (path ++ b "..")
           else if comp_flags =? SL_ROOT then
             susp_assert (comp_len =? 0) ;; ret path
           else if (comp_flags =? 0) || (comp_flags =? SL_CONTINUE) then
             susp_assert (0 <? comp_len) ;; ret (path ++ comp_content)
           else
             susp_assert false ;; ret path) ;;
        c2 <- cursor ;;
        let path2 :=
          if comp_flags =? SL_CONTINUE then path1
          else if (comp_flags =? 0) && (c2 =? target) && (Z.land flags SL_CONTINUE =? 0)
               then path1
          else path1 ++ b "/" in
        SL_loop fuel' target flags path2
    end
  else ret path.

Definition SL_init (length : Z) : M SUSP_Entry :=
  susp_assert (2 <=? length) ;;
  c <- cursor ;;
  let target := c + length in
  flags <- unpack1 c_B ;;
  path <- SL_loop (Z.to_nat length) target flags [] ;;
  ret (SL flags path).

Definition NM_CONTINUE : Z := 1.
Definition NM_CURRENT : Z := 2.
Definition NM_PARENT : Z := 4.

Definition NM_init (length : Z) : M SUSP_Entry :=
  susp_assert (1 <=? length) ;;
  flags <- unpack1 c_B ;;
  name_content <- unpack_raw (length - 1) ;;
  if flags =? NM_CURRENT then
    susp_assert (length =? 1) ;; ret (NM flags (Some (b ".")))
  else if flags =? NM_PARENT then
    susp_assert (length =? 1) ;; ret (NM flags (Some (b "..")))
  else if (flags =? 0) || (flags =? NM_CONTINUE) then
    susp_assert (1 <? length) ;; ret (NM flags (Some name_content))
  else ret (NM flags None).

Definition TF_LONG_FORM : Z := 128.

(** The seven selector bits CREATION .. EFFECTIVE, in the order in which
    [TF.__init__] reads the timestamps. *)
Definition TF_selectors : list Z := [1; 2; 4; 8; 16; 32; 64].

Fixpoint TF_stamps (flags : Z) (sel : list Z) : M (list (option tf_stamp)) :=
  match sel with
  | [] => ret []
  | bit :: sel' =>
      st <- (if negb (Z.land flags bit =? 0) then
               if negb (Z.land flags TF_LONG_FORM =? 0)
               then raw <- unpack_vd_datetime ;; ret (Some (TFLong raw))
               else d <- unpack_lazy_dir_datetime ;; ret (Some (TFLazy d))
             else ret None) ;;
      r <- TF_stamps flags sel' ;;
      ret (st :: r)
  end.

Definition TF_init (length : Z) : M SUSP_Entry :=
  susp_assert (1 <=? length) ;;
  flags <- unpack1 c_B ;;
  stamps <- TF_stamps flags TF_selectors ;;
  ret (TF flags stamps).

(** Equality test on byte strings and on (ext_id, ext_ver) pairs. *)
Definition str_eqb (s t : str) : bool := bool_decide (s = t).

Definition idver_eqb (p q : str * Z) : bool :=
  str_eqb (fst p) (fst q) && (snd p =? snd q).

(** Modelled from the spec: [SUSP_Entry.unpack] of the missing module
    susp.py, the registry lookup on (ext_id, ext_ver, signature, version).
    [SP], [CE], [ST] and [ER] belong to the base protocol and match whatever
    the current extension is; the Rock Ridge classes match under the
    extensions listed in their [_implements]; a tuple with no registered
    constructor is a decode failure. *)
Definition SUSP_Entry_unpack (ext_id_ver : option (str * Z)) (sig_version : str * Z)
    (length : Z) : M SUSP_Entry :=
  let sig := fst sig_version in
  let is109 := match ext_id_ver with Some iv => idver_eqb iv RRIP_109 | None => false end in
  let is112 := match ext_id_ver with Some iv => idver_eqb iv RRIP_112 | None => false end in
  if negb (snd sig_version =? 1) then raise SUSPError
  else if str_eqb sig (b "SP") then SP_init length
  else if str_eqb sig (b "CE") then CE_init length
  else if str_eqb sig (b "ST") then ST_init length
  else if str_eqb sig (b "ER") then ER_init length
  else if str_eqb sig (b "RR") && is109 then RR_init length
  else if str_eqb sig (b "PX") && (is109 || is112) then PX_init length
  else if str_eqb sig (b "PN") && (is109 || is112) then PN_init length
  else if str_eqb sig (b "SL") && (is109 || is112) then SL_init length
  else if str_eqb sig (b "NM") && (is109 || is112) then NM_init length
  else if str_eqb sig (b "TF") && (is109 || is112) then TF_init length
  else raise SUSPError.

(** ** source.py, continued: unpack_susp and unpack_record *)

Definition cursor_opt : M (option Z) :=
  s <- get_source ;;
  ret (cursor_of s).

(** An arithmetic use of a value that may be [None]. *)
Definition need_int (o : option Z) : M Z :=
  match o with
  | Some z => ret z
  | None => raise TypeError
  end.

(** [l[i]] on a Python list: a negative index counts from the end of the
    list, and [None] stands for the index error. *)
Definition py_index {A} (l : list A) (i : Z) : option A :=
  if i <? 0 then
    if len l + i <? 0 then None else l !! Z.to_nat (len l + i)
  else l !! Z.to_nat i.

(** The value given to [ext_id_ver] in [unpack_susp]: the identifier and
    version of the extension of index [possible_extension] when there is
    one, [None] otherwise.  The outer [None] stands for the exception
    raised on the way: the index error of the list, or the attribute error
    on a list element without [ext_id]. *)
Definition ext_id_ver_of (s : Source) (possible_extension : Z) : option (option (str * Z)) :=
  if possible_extension <? len (susp_extensions s) then
    match py_index (susp_extensions s) possible_extension with
    | Some (ER ext_id ext_ver _ _) => Some (Some (ext_id, ext_ver))
    | _ => None
    end
  else Some None.

(** The type of a typed-entry decoder such as [SUSP_Entry.unpack]. *)
Definition decoder : Type := option (str * Z) -> str * Z -> Z -> M SUSP_Entry.

(** [unpack_susp] over an arbitrary typed-entry decoder [dec] standing for
    [susp.SUSP_Entry.unpack].  The local [new_susp] is unbound ([None] here)
    until one of the two assignments has run. *)
Definition unpack_susp_with (dec : decoder) (maxlen possible_extension : Z)
    : M (option SUSP_Entry) :=
  if maxlen <? 4 then ret None
  else
    start_cursor <- cursor_opt ;;
    hdr <- unpack [FStr 2; FInt c_B; FInt c_B] ;;
    match hdr with
    | [VStr signature; VInt length; VInt version] =>
        if maxlen <? length then rewind_raw 4 ;; ret None
        else
          s <- get_source ;;
          ext_id_ver <-
            (match ext_id_ver_of s possible_extension with
             | Some scope => ret scope
             | None =>
                 raise (match py_index (susp_extensions s) possible_extension with
                        | None => IndexError
                        | Some _ => AttributeError
                        end)
             end) ;;
          start <- need_int start_cursor ;;
          new_susp <-
            try_except_SUSPError
              (e <- dec ext_id_ver (signature, version) (length - 4) ;; ret (Some e))
              (set_cursor start ;; ret None) ;;
          c <- cursor ;;
          new_susp <-
            (if negb (c =? start + length) then
               set_cursor (start + 4) ;;
               e <- UnknownEntry_init (signature, version) (length - 4) ;;
               ret (Some e)
             else ret new_susp) ;;
          c' <- cursor ;;
          py_assert (c' =? start + length) ;;
          match new_susp with
          | Some e => ret (Some e)
          | None => raise UnboundLocalError
          end
    | _ => raise ValueError
    end.

Definition unpack_susp (maxlen possible_extension : Z) : M (option SUSP_Entry) :=
  unpack_susp_with SUSP_Entry_unpack maxlen possible_extension.

(** ** record.py *)

(** *** Objects in the store *)

(** [{}]: a fresh dictionary object. *)
Definition new_dict : M nat :=
  fun w =>
    (Ok (List.length (dicts w)),
     {| source := source w; records := records w; dicts := dicts w ++ [∅] |}).

Definition get_dict (d : nat) : M (gmap str nat) :=
  fun w =>
    match dicts w !! d with
    | Some m => (Ok m, w)
    | None => (Raise AttributeError, w)
    end.

Definition set_dict (d : nat) (m : gmap str nat) : M unit :=
  fun w =>
    (Ok tt, {| source := source w; records := records w; dicts := <[d := m]> (dicts w) |}).

(** A new object holding the given attributes. *)
Definition new_record (r : RecordObj) : M nat :=
  fun w =>
    (Ok (List.length (records w)),
     {| source := source w; records := records w ++ [r]; dicts := dicts w |}).

Definition get_record (self : nat) : M RecordObj :=
  fun w =>
    match records w !! self with
    | Some r => (Ok r, w)
    | None => (Raise AttributeError, w)
    end.

Definition set_record (self : nat) (r : RecordObj) : M unit :=
  fun w =>
    (Ok tt, {| source := source w; records := <[self := r]> (records w); dicts := dicts w |}).

Definition set_content (r : RecordObj) (c : option str) : RecordObj :=
  {| _content := c; _child_cache := _child_cache r;
     _last_cached_child := _last_cached_child r;
     rec_location := rec_location r; rec_length := rec_length r;
     rec_datetime := rec_datetime r; is_hidden := is_hidden r;
     is_directory := is_directory r; raw_name := raw_name r;
     embedded_susp_entries := embedded_susp_entries r;
     _latest_child_start := _latest_child_start r |}.

Definition set_last_cached_child (r : RecordObj) (t : tri) : RecordObj :=
  {| _content := _content r; _child_cache := _child_cache r;
     _last_cached_child := t;
     rec_location := rec_location r; rec_length := rec_length r;
     rec_datetime := rec_datetime r; is_hidden := is_hidden r;
     is_directory := is_directory r; raw_name := raw_name r;
     embedded_susp_entries := embedded_susp_entries r;
     _latest_child_start := _latest_child_start r |}.

Definition set_latest_child_start (r : RecordObj) (c : option Z) : RecordObj :=
  {| _content := _content r; _child_cache := _child_cache r;
     _last_cached_child := _last_cached_child r;
     rec_location := rec_location r; rec_length := rec_length r;
     rec_datetime := rec_datetime r; is_hidden := is_hidden r;
     is_directory := is_directory r; raw_name := raw_name r;
     embedded_susp_entries := embedded_susp_entries r;
     _latest_child_start := c |}.

(** *** Record.__init__ *)

(** [s.split(';')[0]] *)
Fixpoint before_semicolon (s : str) : str :=
  match s with
  | [] => []
  | c :: r => if Ascii.eqb c ";"%char then [] else c :: before_semicolon r
  end.

(** The loop [while True] of the system-use area: entries are decoded until
    none can be parsed or an [ST] is hit.  Every decoded entry is at least
    four bytes long, so the number of bytes up to [target] bounds the number
    of turns. *)
Fixpoint susp_area_loop (fuel : nat) (target : Z) (susp_entries : list SUSP_Entry)
    : M (list SUSP_Entry) :=
  match fuel with
  | O => diverge
  | S fuel' =>
      c <- cursor ;;
      try_susp <- unpack_susp (target - c) 0 ;;
      match try_susp with
      | None => ret susp_entries
      | Some e =>
          if is_ST e then ret (susp_entries ++ [e])
          else susp_area_loop fuel' target (susp_entries ++ [e])
      end
  end.

(** The bytes skipped in front of the SUSP entries:
    [if susp_starting_index: source.unpack_raw(susp_starting_index)]. *)
Definition susp_skip_prefix (susp_starting_index : tri) : M unit :=
  match susp_starting_index with
  | PyInt n => if negb (n =? 0) then unpack_raw n ;; ret tt else ret tt
  | _ => ret tt
  end.

(** The section "System-use area" of [Record.__init__], which computes
    [embedded_susp_entries]. *)
Definition Record_system_use (target : Z) (susp_starting_index : tri)
    : M (list SUSP_Entry) :=
  probe <-
    (match susp_starting_index with
     | PyNone =>
         c <- cursor ;;
         try_susp <- unpack_susp (target - c) 0 ;;
         match try_susp with
         | Some (SP len_skp) =>
             ret ([SP len_skp],
                  if 7 <? len_skp then PyInt (len_skp - 7) else susp_starting_index)
         | _ => ret ([], susp_starting_index)
         end
     | _ => ret ([], susp_starting_index)
     end) ;;
  let susp_entries := fst probe in
  let susp_starting_index := snd probe in
  if is_not_False susp_starting_index then
    susp_skip_prefix susp_starting_index ;;
    c <- cursor ;;
    susp_area_loop (S (Z.to_nat (target - c))) target susp_entries
  else ret susp_entries.

Definition Record_init (length : Z) (susp_starting_index : tri) : M nat :=
  child_cache <- new_dict ;;
  c <- cursor ;;
  let target := c + length in
  unpack1 c_B ;;
  location <- unpack_both c_I ;;
  rlength <- unpack_both c_I ;;
  dt <- unpack_dir_datetime ;;
  flags <- unpack1 c_B ;;
  unpack1 c_B ;;
  unpack1 c_B ;;
  unpack_both c_h ;;
  name_length <- unpack1 c_B ;;
  raw <- unpack_string name_length ;;
  let raw_name0 := before_semicolon raw in
  let raw_name1 := if str_eqb raw_name0 [zero] then [] else raw_name0 in
  (if name_length mod 2 =? 0 then unpack_raw 1 ;; ret tt else ret tt) ;;
  susp_entries <- Record_system_use target susp_starting_index ;;
  c' <- cursor ;;
  py_assert (c' <=? target) ;;
  unpack_raw (target - c') ;;
  new_record
    {| _content := None; _child_cache := child_cache;
       _last_cached_child := PyNone;
       rec_location := location; rec_length := rlength;
       rec_datetime := dt;
       is_hidden := Z.land flags 1; is_directory := Z.land flags 2;
       raw_name := raw_name1;
       embedded_susp_entries := susp_entries;
       _latest_child_start := None |}.

(** [Source.unpack_record] *)
Definition unpack_record : M (option nat) :=
  start_cursor <- cursor_opt ;;
  length <- unpack1 c_B ;;
  if length =? 0 then
    rewind [FInt c_B] ;; ret None
  else
    s <- get_source ;;
    new_record <- Record_init (length - 1) (susp_starting_index s) ;;
    c <- cursor ;;
    start <- need_int start_cursor ;;
    py_assert (c =? start + length) ;;
    ret (Some new_record).

(** *** The generator susp_entries_unsafe *)

(** The frame of the suspended generator: its three locals, and the entry
    it is suspended on at [yield entry] ([None] before the first [next]). *)
Record susp_gen := {
  g_embedded_iter : option (list SUSP_Entry);
  g_target : option Z;
  g_ce_entry : option SUSP_Entry;
  g_yielded : option SUSP_Entry
}.

Definition susp_entries_unsafe (r : RecordObj) : susp_gen :=
  {| g_embedded_iter := Some (embedded_susp_entries r);
     g_target := None; g_ce_entry := None; g_yielded := None |}.

(** Truth value of [target]: [None] and [0] are false. *)
Definition target_truthy (t : option Z) : bool :=
  match t with
  | Some z => negb (z =? 0)
  | None => false
  end.

(** The statements after [yield entry], run when the generator is resumed. *)
Definition susp_resume (g : susp_gen) : susp_gen :=
  match g_yielded g with
  | None => g
  | Some entry =>
      if is_ST entry then
        {| g_embedded_iter := None; g_target := None;
           g_ce_entry := g_ce_entry g; g_yielded := None |}
      else if is_CE entry then
        {| g_embedded_iter := g_embedded_iter g; g_target := g_target g;
           g_ce_entry := Some entry; g_yielded := None |}
      else
        {| g_embedded_iter := g_embedded_iter g; g_target := g_target g;
           g_ce_entry := g_ce_entry g; g_yielded := None |}
  end.

(** The [while] loop up to the next [yield]; [None] is [StopIteration]. *)
Fixpoint susp_run (fuel : nat) (g : susp_gen) : M (option (SUSP_Entry * susp_gen)) :=
  match fuel with
  | O => diverge
  | S fuel' =>
      match g_embedded_iter g with
      | Some (entry :: rest) =>
          ret (Some (entry, {| g_embedded_iter := Some rest; g_target := g_target g;
                               g_ce_entry := g_ce_entry g; g_yielded := Some entry |}))
      | Some [] =>
          susp_run fuel' {| g_embedded_iter := None; g_target := g_target g;
                            g_ce_entry := g_ce_entry g; g_yielded := None |}
      | None =>
          if target_truthy (g_target g) then
            target <- need_int (g_target g) ;;
            c <- cursor ;;
            entry <- unpack_susp (target - c) 0 ;;
            match entry with
            | None =>
                susp_run fuel' {| g_embedded_iter := None; g_target := None;
                                  g_ce_entry := g_ce_entry g; g_yielded := None |}
            | Some e =>
                ret (Some (e, {| g_embedded_iter := None; g_target := g_target g;
                                 g_ce_entry := g_ce_entry g; g_yielded := Some e |}))
            end
          else
            match g_ce_entry g with
            | Some (CE location offset length) =>
                seek location (offset + length) false ;;
                unpack_raw offset ;;
                c <- cursor ;;
                susp_run fuel' {| g_embedded_iter := None; g_target := Some (c + length);
                                  g_ce_entry := None; g_yielded := None |}
            | Some _ => raise AttributeError
            | None => ret None
            end
      end
  end.

(** One [next()] on the generator.  Between two yields the loop makes at
    most four silent turns (embedded list exhausted, continuation area
    entered, continuation area exhausted). *)
Definition susp_next (g : susp_gen) : M (option (SUSP_Entry * susp_gen)) :=
  susp_run 5 (susp_resume g).

(** [list(self.susp_entries_unsafe)], with a budget on the number of
    entries (a chain of [CE]s may loop). *)
Fixpoint susp_collect (fuel : nat) (g : susp_gen) : M (list SUSP_Entry) :=
  match fuel with
  | O => diverge
  | S fuel' =>
      r <- susp_next g ;;
      match r with
      | None => ret []
      | Some (e, g') =>
          es <- susp_collect fuel' g' ;;
          ret (e :: es)
      end
  end.

Definition susp_entries (fuel : nat) (self : nat) : M (list SUSP_Entry) :=
  r <- get_record self ;;
  susp_collect fuel (susp_entries_unsafe r).

(** *** Record.name *)

(** The [for] loop of the property [name]. *)
Fixpoint name_loop (fuel : nat) (g : susp_gen) (name : str) : M str :=
  match fuel with
  | O => diverge
  | S fuel' =>
      r <- susp_next g ;;
      match r with
      | None => ret name
      | Some (NM flags nm, g') =>
          match nm with
          | None => raise AttributeError
          | Some fragment =>
              let name' := name ++ fragment in
              if Z.land flags NM_CONTINUE =? 0 then ret name'
              else name_loop fuel' g' name'
          end
      | Some (_, g') => name_loop fuel' g' name
      end
  end.

Definition Record_name (fuel : nat) (self : nat) : M str :=
  r <- get_record self ;;
  name <- name_loop fuel (susp_entries_unsafe r) [] ;;
  r' <- get_record self ;;
  ret (match name with [] => raw_name r' | _ => name end).

(** *** The generator _children_unsafe *)

(** The frame of the generator: its arguments, and whether its body has
    started (the seek is done at the first [next]). *)
Record children_gen := {
  cg_skip_current_parent : bool;
  cg_start_offset : Z;
  cg_started : bool
}.

Definition _children_unsafe (skip_current_parent : bool) (start_offset : Z) : children_gen :=
  {| cg_skip_current_parent := skip_current_parent; cg_start_offset := start_offset;
     cg_started := false |}.

Definition cg_running (g : children_gen) : children_gen :=
  {| cg_skip_current_parent := cg_skip_current_parent g;
     cg_start_offset := cg_start_offset g;
     cg_started := true |}.

(** The loop [while len(self._source) > 0] up to the next [yield].  A silent
    turn skips to the next sector boundary and so consumes at least one
    byte. *)
Fixpoint children_run (fuel : nat) (self : nat) (g : children_gen)
    : M (option (nat * children_gen)) :=
  match fuel with
  | O => diverge
  | S fuel' =>
      n <- source_len ;;
      if 0 <? n then
        c <- cursor ;;
        r <- get_record self ;;
        set_record self (set_latest_child_start r (Some c)) ;;
        record <- unpack_record ;;
        match record with
        | None => unpack_boundary ;; children_run fuel' self g
        | Some child => ret (Some (child, cg_running g))
        end
      else ret None
  end.

(** One [next()] on the generator; [None] is [StopIteration], after which
    the callers drop the generator. *)
Definition children_next (self : nat) (g : children_gen)
    : M (option (nat * children_gen)) :=
  (if cg_started g then ret tt
   else
     r <- get_record self ;;
     py_assert (negb (is_directory r =? 0)) ;;
     seek (rec_location r) (rec_length r) false ;;
     set_cursor (cg_start_offset g) ;;
     if cg_skip_current_parent g then
       unpack_record ;; unpack_record ;; ret tt
     else ret tt) ;;
  n <- source_len ;;
  children_run (S (Z.to_nat n)) self g.

(** [list(self.children_unsafe)] *)
Fixpoint children_collect (fuel : nat) (self : nat) (g : children_gen) : M (list nat) :=
  match fuel with
  | O => diverge
  | S fuel' =>
      r <- children_next self g ;;
      match r with
      | None => ret []
      | Some (child, g') =>
          cs <- children_collect fuel' self g' ;;
          ret (child :: cs)
      end
  end.

Definition children (fuel : nat) (self : nat) : M (list nat) :=
  children_collect fuel self (_children_unsafe true 0).

(** *** find_child *)

(** [copy.copy(child)]: a new object with the same attribute values (the
    dictionary [_child_cache] is shared, not copied). *)
Definition copy_copy (child : nat) : M nat :=
  r <- get_record child ;;
  new_record r.

(** [repr(self)], of which only the evaluation of [self.name] matters. *)
Definition Record_repr (fuel : nat) (self : nat) : M unit :=
  Record_name fuel self ;; ret tt.

(** The loop [for child in children] of [find_child].  [child_name] is the
    local variable of that name: [None] while it is unbound.  The result is
    [inl child] when the loop returned, [inr child_name] when it ran to its
    end. *)
Fixpoint find_child_loop (fuel nfuel : nat) (self : nat) (name : str)
    (g : children_gen) (child_name : option str) : M (nat + option str) :=
  match fuel with
  | O => diverge
  | S fuel' =>
      nx <- children_next self g ;;
      match nx with
      | None => ret (inr child_name)
      | Some (child, g') =>
          saved_cursor <- save_cursor ;;
          cname <- Record_name nfuel child ;;
          restore_cursor saved_cursor ;;
          r <- get_record self ;;
          cache <- get_dict (_child_cache r) ;;
          set_dict (_child_cache r) (<[cname := child]> cache) ;;
          c <- cursor_opt ;;
          r1 <- get_record self ;;
          set_record self
            (set_last_cached_child r1
               (match c with Some z => PyInt z | None => PyNone end)) ;;
          if str_eqb cname name then
            ch <- get_record child ;;
            if is_directory ch =? 0 then
              copied <- copy_copy child ;; ret (inl copied)
            else ret (inl child)
          else find_child_loop fuel' nfuel self name g' (Some cname)
      end
  end.

Definition find_child (fuel : nat) (self : nat) (name : str) : M nat :=
  r <- get_record self ;;
  cache <- get_dict (_child_cache r) ;;
  match cache !! name with
  | Some child => ret child
  | None =>
      scanned <-
        (if is_not_False (_last_cached_child r) then
           let children :=
             if truthy (_last_cached_child r)
             then _children_unsafe false
                    (match _last_cached_child r with PyInt z => z | _ => 0 end)
             else _children_unsafe true 0 in
           res <- find_child_loop fuel fuel self name children None ;;
           match res with
           | inl child => ret (inl child)
           | inr child_name =>
               r1 <- get_record self ;;
               set_record self (set_last_cached_child r1 PyFalse) ;;
               ret (inr child_name)
           end
         else ret (inr None)) ;;
      match scanned with
      | inl child => ret child
      | inr None => raise UnboundLocalError
      | inr (Some child_name) =>
          Record_repr fuel self ;;
          raise KeyError
      end
  end.

(** *** current_directory and content *)

Definition current_directory (self : nat) : M (option nat) :=
  r <- get_record self ;;
  py_assert (negb (is_directory r =? 0)) ;;
  seek (rec_location r) (rec_length r) false ;;
  unpack_record.

Definition content (self : nat) : M str :=
  r <- get_record self ;;
  py_assert (is_directory r =? 0) ;;
  match _content r with
  | None =>
      seek (rec_location r) (rec_length r) true ;;
      data <- unpack_all ;;
      r1 <- get_record self ;;
      set_record self (set_content r1 (Some data)) ;;
      ret data
  | Some data => ret data
  end.

(** ** iso.py *)

Definition set_susp_starting_index (s : Source) (t : tri) : Source :=
  {| _buff := _buff s; _len := _len s; _sectors := _sectors s;
     cache_content := cache_content s; min_fetch := min_fetch s;
     susp_starting_index := t;
     susp_extensions := susp_extensions s; rockridge := rockridge s;
     _file := _file s |}.

Definition set_susp_extensions (s : Source) (l : list SUSP_Entry) : Source :=
  {| _buff := _buff s; _len := _len s; _sectors := _sectors s;
     cache_content := cache_content s; min_fetch := min_fetch s;
     susp_starting_index := susp_starting_index s;
     susp_extensions := l; rockridge := rockridge s;
     _file := _file s |}.

Definition set_rockridge (s : Source) (v : bool) : Source :=
  {| _buff := _buff s; _len := _len s; _sectors := _sectors s;
     cache_content := cache_content s; min_fetch := min_fetch s;
     susp_starting_index := susp_starting_index s;
     susp_extensions := susp_extensions s; rockridge := v;
     _file := _file s |}.

(** [(er.ext_id, er.ext_ver) in rockridge.EXT_VERSIONS] *)
Definition in_EXT_VERSIONS (er : SUSP_Entry) : bool :=
  match er with
  | ER ext_id ext_ver _ _ => existsb (idver_eqb (ext_id, ext_ver)) EXT_VERSIONS
  | _ => false
  end.

(** The last part of [ISO.__init__], "Check to see if SUSP is enabled",
    given the root record of the primary volume descriptor. *)
Definition ISO_check_susp (fuel : nat) (root : nat) : M unit :=
  rr <- current_directory root ;;
  match rr with
  | None => raise AttributeError
  | Some root_record =>
      r <- get_record root_record ;;
      match embedded_susp_entries r with
      | SP len_skp :: _ =>
          s <- get_source ;;
          set_source (set_susp_starting_index s (PyInt len_skp)) ;;
          es <- susp_entries fuel root_record ;;
          s1 <- get_source ;;
          set_source (set_susp_extensions s1 (List.filter is_ER es)) ;;
          s2 <- get_source ;;
          if existsb in_EXT_VERSIONS (susp_extensions s2)
          then set_source (set_rockridge s2 true)
          else ret tt
      | _ =>
          s <- get_source ;;
          set_source (set_susp_starting_index s PyFalse)
      end
  end.

(** ** Construction of images for the examples *)

(** [Source.__init__] of a [FileSource] over the image [file]. *)
Definition Source_init (file : str) : Source :=
  {| _buff := None; _len := 0; _sectors := ∅;
     cache_content := false; min_fetch := 16;
     susp_starting_index := PyNone; susp_extensions := []; rockridge := false;
     _file := file |}.

Definition byte (n : Z) : str := [chr n].

Fixpoint le_bytes (n : nat) (v : Z) : str :=
  match n with
  | O => []
  | S n' => chr (v mod 256) :: le_bytes n' (v / 256)
  end.

Definition be_bytes (n : nat) (v : Z) : str := rev (le_bytes n v).

(** A both-endian field holding [v]. *)
Definition both_bytes (n : nat) (v : Z) : str := le_bytes n v ++ be_bytes n v.

(** A SUSP entry: signature, length, version, payload. *)
Definition susp_bytes (sig : string) (version : Z) (payload : str) : str :=
  b sig ++ byte (4 + len payload) ++ byte version ++ payload.

(** 1 January 2000, 00:00:00 UTC in directory form. *)
Definition date_bytes : str := map chr [100; 1; 1; 0; 0; 0; 0].

(** A directory record with the given extent, flags, name and system-use
    area. *)
Definition record_bytes (location length flags : Z) (name system_use : str) : str :=
  let body :=
    byte 0 ++ both_bytes 4 location ++ both_bytes 4 length ++ date_bytes
    ++ byte flags ++ byte 0 ++ byte 0 ++ both_bytes 2 1
    ++ byte (len name) ++ name
    ++ (if len name mod 2 =? 0 then byte 0 else [])
    ++ system_use in
  byte (1 + len body) ++ body.

Definition zeros (n : Z) : str := repeat zero (Z.to_nat n).

(** Pads [data] with zeros up to [n] sectors. *)
Definition sectors (n : Z) (data : str) : str :=
  data ++ zeros (n * SECTOR_LENGTH - len data).

Definition SP_bytes (len_skp : Z) : str :=
  susp_bytes "SP" 1 (byte 190 ++ byte 239 ++ byte len_skp).

Definition CE_bytes (location offset length : Z) : str :=
  susp_bytes "CE" 1 (both_bytes 4 location ++ both_bytes 4 offset ++ both_bytes 4 length).

Definition ST_bytes : str := susp_bytes "ST" 1 [].

Definition ER_bytes (ext_id : str) (ext_ver : Z) : str :=
  susp_bytes "ER" 1 (byte (len ext_id) ++ byte 0 ++ byte 0 ++ byte ext_ver ++ ext_id).

Definition NM_bytes (flags : Z) (name : str) : str :=
  susp_bytes "NM" 1 (byte flags ++ name).

(** A component of an [SL] entry. *)
Definition component_bytes (comp : Z * str) : str :=
  byte (fst comp) ++ byte (len (snd comp)) ++ snd comp.

Definition SL_bytes (flags : Z) (comps : list (Z * str)) : str :=
  susp_bytes "SL" 1 (byte flags ++ concat (map component_bytes comps)).

(** The record object of a directory whose extent is the sector
    [location], as the primary volume descriptor hands out the root. *)
Definition directory_object (location : Z) : RecordObj :=
  {| _content := None; _child_cache := 0; _last_cached_child := PyNone;
     rec_location := location; rec_length := SECTOR_LENGTH;
     rec_datetime := {| dt_year := 2000; dt_month := 1; dt_day := 1;
                        dt_hour := 0; dt_minute := 0; dt_second := 0;
                        dt_tzoffset := 0 |};
     is_hidden := 0; is_directory := 2; raw_name := [];
     embedded_susp_entries := []; _latest_child_start := None |}.

(** An image whose sector 1 holds the directory made of the records
    [recs] and whose sector 2 holds [area]; the store starts with the
    directory's record object (reference 0) and its dictionary. *)
Definition image_world (recs : list str) (area : str) : World :=
  {| source := Source_init (zeros SECTOR_LENGTH
                             ++ sectors 1 (concat recs) ++ sectors 1 area);
     records := [directory_object 1];
     dicts := [∅] |}.

(** The records "." and ".." of the directory in sector 1, the former with
    the system-use area [su]. *)
Definition dot_records (su : str) : list str :=
  [record_bytes 1 SECTOR_LENGTH 2 [zero] su;
   record_bytes 1 SECTOR_LENGTH 2 [chr 1] []].

(** The system-use area of a root "." record announcing Rock Ridge. *)
Definition rockridge_su (len_skp : Z) : str :=
  SP_bytes len_skp ++ ER_bytes (b "RRIP_1991A") 1.

(** ** Definitions used in the statements *)

(** The store [w] with the cursor of the current buffer at [pos]. *)
Definition at_cursor (w : World) (pos : Z) : World :=
  match _buff (source w) with
  | Some bf =>
      {| source := set_buff (source w) (Some {| sio_data := sio_data bf; sio_pos := pos |})
                     (_len (source w));
         records := records w; dicts := dicts w |}
  | None => w
  end.

(** The current buffer of [w] holds [data] and its cursor is [pos]. *)
Definition buffer (w : World) (data : str) (pos : Z) : Prop :=
  _buff (source w) = Some {| sio_data := data; sio_pos := pos |}.

(** A store with no objects whose buffer holds [data] at cursor [pos]. *)
Definition buffer_world (data : str) (pos : Z) : World :=
  {| source := set_buff (Source_init []) (Some {| sio_data := data; sio_pos := pos |})
                 (len data);
     records := []; dicts := [] |}.

(** The same store once Rock Ridge (RRIP_1991A, version 1) has been
    recorded as the first SUSP extension. *)
Definition rr_buffer_world (data : str) (pos : Z) : World :=
  {| source := set_susp_extensions (source (buffer_world data pos))
                 [ER (b "RRIP_1991A") 1 [] []];
     records := []; dicts := [] |}.

(** An [NM] entry whose header declares a length of 3, followed by four
    more bytes. *)
Definition short_NM_buffer : str := b "NM" ++ byte 3 ++ byte 1 ++ b "abcd".

(** An [NM] entry of length 9 with flags CURRENT and a four-byte name, which
    its decoder rejects, followed by three more bytes. *)
Definition bad_NM_buffer : str := b "NM" ++ byte 9 ++ byte 1 ++ byte 2 ++ b "abcd" ++ b "xyz".

(** The byte of [data] at index [i], as '<B' reads it. *)
Definition ord_at (data : str) (i : Z) : Z := int_of LE c_B (slice i (i + 1) data).

(** The header of the SUSP entry that starts at [pos]: signature, length
    and version. *)
Definition susp_header (data : str) (pos : Z) : str * Z * Z :=
  (slice pos (pos + 2) data, ord_at data (pos + 2), ord_at data (pos + 3)).

(** What a component of an [SL] contributes to the path. *)
Definition sl_component (comp : Z * str) : str :=
  if fst comp =? SL_CURRENT then b "."
  else if fst comp =? SL_PARENT then b ".."
  else if fst comp =? SL_ROOT then []
  else snd comp.

(** The path of an [SL] with the given flags and components: after each
    component comes a "/", unless the component's flags are CONTINUE, or
    its flags are 0 and it is the last component of an [SL] whose own
    CONTINUE bit is clear. *)
Fixpoint sl_path (flags : Z) (comps : list (Z * str)) : str :=
  match comps with
  | [] => []
  | comp :: rest =>
      sl_component comp
      ++ (if fst comp =? SL_CONTINUE then []
          else if (fst comp =? 0) && (match rest with [] => true | _ => false end)
                  && (Z.land flags SL_CONTINUE =? 0) then []
          else b "/")
      ++ sl_path flags rest
  end.

(** The separator rule in the words of the specification: no "/" after a
    component that carries CONTINUE, nor after the final component of the
    final [SL]. *)
Fixpoint sl_path_specified (flags : Z) (comps : list (Z * str)) : str :=
  match comps with
  | [] => []
  | comp :: rest =>
      sl_component comp
      ++ (if negb (Z.land (fst comp) SL_CONTINUE =? 0) then []
          else if (match rest with [] => true | _ => false end)
                  && (Z.land flags SL_CONTINUE =? 0) then []
          else b "/")
      ++ sl_path_specified flags rest
  end.

(** A component as the decoder accepts it: CURRENT, PARENT and ROOT carry
    no content; a component with flags 0 or CONTINUE carries between 1 and
    255 bytes. *)
Definition wf_component (comp : Z * str) : bool :=
  if (fst comp =? SL_CURRENT) || (fst comp =? SL_PARENT) || (fst comp =? SL_ROOT)
  then match snd comp with [] => true | _ => false end
  else ((fst comp =? 0) || (fst comp =? SL_CONTINUE))
       && (0 <? len (snd comp)) && (len (snd comp) <=? 255).

(** The components [ROOT], [PARENT], "etc", "hosts". *)
Definition example_components : list (Z * str) :=
  [(SL_ROOT, []); (SL_PARENT, []); (0, b "etc"); (0, b "hosts")].

(** The first [n] entries yielded by the SUSP walk from the frame [g], with
    the frame and the store after the last of them; [None] when the walk
    yields fewer than [n] entries or fails on the way. *)
Fixpoint walk_take (n : nat) (g : susp_gen) (w : World)
    : option (list SUSP_Entry * susp_gen * World) :=
  match n with
  | O => Some ([], g, w)
  | S n' =>
      match susp_next g w with
      | (Ok (Some (e, g1)), w1) =>
          match walk_take n' g1 w1 with
          | Some (es, g2, w2) => Some (e :: es, g2, w2)
          | None => None
          end
      | _ => None
      end
  end.

(** The fragment carried by an [NM] entry that has a name. *)
Definition nm_fragment (e : SUSP_Entry) : option str :=
  match e with
  | NM _ (Some fragment) => Some fragment
  | _ => None
  end.

(** The [NM] fragments of a sequence of entries, concatenated in order. *)
Definition nm_concat (es : list SUSP_Entry) : str := concat (omap nm_fragment es).

(** Every [NM] entry of [es] has a name and its CONTINUE flag set: the name
    loop runs through [es] without stopping. *)
Definition chain_open (es : list SUSP_Entry) : bool :=
  forallb (fun e => match e with
                    | NM flags (Some _) => negb (Z.land flags NM_CONTINUE =? 0)
                    | NM _ None => false
                    | _ => true
                    end) es.














(** The frame of a generator that has returned. *)
Definition stopped : susp_gen :=
  {| g_embedded_iter := None; g_target := None; g_ce_entry := None; g_yielded := None |}.

(** The settings of a source, as opposed to its window, cursor and sector
    cache. *)
Definition settings (s : Source)
    : bool * Z * tri * list SUSP_Entry * bool * str :=
  (cache_content s, min_fetch s, susp_starting_index s, susp_extensions s,
   rockridge s, _file s).

(** [m] leaves the record objects, the dictionaries and the settings of
    the source as they are. *)
Definition frame {A} (m : M A) : Prop :=
  forall w, records (snd (m w)) = records w /\ dicts (snd (m w)) = dicts w
            /\ settings (source (snd (m w))) = settings (source w).

(** [m] leaves the settings of the source as they are. *)
Definition keeps_settings {A} (m : M A) : Prop :=
  forall w, settings (source (snd (m w))) = settings (source w).

(** The store [w] with [susp_starting_index] set to [t]. *)
Definition with_susp_starting_index (w : World) (t : tri) : World :=
  {| source := set_susp_starting_index (source w) t;
     records := records w; dicts := dicts w |}.

(** An image whose directory holds ".", ".." and the file README.TXT;1
    (five bytes of content in sector 3) with the system-use area [su]; the
    root "." record announces Rock Ridge with the given [len_skp], and
    sector 2 holds [area]. *)
Definition file_image (len_skp : Z) (su area : str) : World :=
  {| source := Source_init (zeros SECTOR_LENGTH
                             ++ sectors 1 (concat (dot_records (rockridge_su len_skp)
                                                   ++ [record_bytes 3 5 0 (b "README.TXT;1") su]))
                             ++ sectors 1 area ++ b "hello");
     records := [directory_object 1];
     dicts := [∅] |}.

(** The store once the facade has looked for SUSP in the root and the
    children of the root have been listed (the file record is object 4). *)
Definition scanned (w : World) : World :=
  snd ((ISO_check_susp 10 0%nat ;; children 10 0%nat) w).

(** The record object of reference [i]. *)
Definition record_at (w : World) (i : nat) : RecordObj :=
  default (directory_object 0) (records w !! i).

(** The file record carries two [NM] entries: "longfile" with CONTINUE,
    then "name.txt" with no flags. *)
Definition two_NM_world : World :=
  Eval vm_compute in scanned (file_image 0 (NM_bytes 1 (b "longfile") ++ NM_bytes 0 (b "name.txt")) []).

(** The file record carries a complete [NM] "a" followed by an [NM] whose
    flags byte is 8. *)
Definition late_bad_NM_world : World :=
  Eval vm_compute in scanned (file_image 0 (NM_bytes 0 (b "a") ++ NM_bytes 8 (b "b")) []).

(** The file record embeds a [CE] pointing to sector 2 (offset 0, length
    13) followed by an [ST]; the continuation area holds an [NM]. *)
Definition CE_then_ST_world : World :=
  Eval vm_compute in scanned (file_image 0 (CE_bytes 2 0 13 ++ ST_bytes) (NM_bytes 0 (b "late.txt"))).

(** The frame of the walk over that record once the [ST] has been yielded. *)
Definition after_ST_frame : susp_gen :=
  {| g_embedded_iter := Some []; g_target := None;
     g_ce_entry := Some (CE 2 0 13); g_yielded := Some ST |}.

(** The root's [SP] declares [len_skp = 7]; ".." carries seven bytes of
    padding; the system-use area of the file record starts with an [NM]. *)
Definition skip_seven_world : World :=
  Eval vm_compute in scanned
    (image_world
       [record_bytes 1 SECTOR_LENGTH 2 [zero] (rockridge_su 7);
        record_bytes 1 SECTOR_LENGTH 2 [chr 1] (zeros 7);
        record_bytes 3 5 0 (b "README.TXT;1") (NM_bytes 0 (b "readme"))]
       []).

(** A root whose "." record announces Rock Ridge in the regular way. *)
Definition rockridge_world : World := Eval vm_compute in image_world (dot_records (rockridge_su 0)) [].


(** A directory with no entry besides "." and "..", on an image without
    SUSP, once the facade has made its SUSP check. *)
Definition empty_directory_world : World :=
  Eval vm_compute in snd (ISO_check_susp 10 0%nat (image_world (dot_records []) [])).

(** A Rock Ridge directory holding the one file README.TXT, once the facade
    has made its SUSP check. *)
Definition one_file_world : World :=
  Eval vm_compute in snd (ISO_check_susp 10 0%nat (file_image 0 [] [])).

(** The store after a first, unsuccessful lookup in that directory. *)
Definition one_file_missed_world : World :=
  Eval vm_compute in snd (find_child 10 0%nat (b "NOFILE") one_file_world).

(** The store after a first, successful lookup of README.TXT. *)
Definition one_file_found_world : World :=
  Eval vm_compute in snd (find_child 10 0%nat (b "README.TXT") one_file_world).

(** The dictionary object of reference [d]. *)
Definition dict_at (w : World) (d : nat) : gmap str nat :=
  default ∅ (dicts w !! d).

(** The store after the walk of that record has sought the continuation
    area, and after it has decoded the entry found there. *)
Definition CE_area_world : World :=
  Eval vm_compute in
    snd ((seek 2 (0 + 13) false ;; unpack_raw 0 ;; cursor) CE_then_ST_world).

Definition CE_entry_world : World :=
  Eval vm_compute in snd (unpack_susp 13 0 CE_area_world).

(** The store after the SUSP check of the facade on [rockridge_world]. *)
Definition rockridge_checked_world : World :=
  Eval vm_compute in snd (ISO_check_susp 10 0%nat rockridge_world).






(** ** source.py, continued: FileStream and get_stream *)

(** A [FileStream] object; the file it reads is the image of the source. *)
Record FileStream := {
  fs_offset : Z;
  fs_length : Z;
  cur_offset : Z
}.

Definition FileStream_init (offset length : Z) : FileStream :=
  {| fs_offset := offset; fs_length := length; cur_offset := 0 |}.

(** [file.seek(pos)] followed by [file.read(size)]: at most [size] bytes,
    all the remaining bytes when [size] is negative. *)
Definition file_read_at (file : str) (pos size : Z) : str :=
  let rest := drop (Z.to_nat pos) file in
  if size <? 0 then rest else take (Z.to_nat size) rest.

(** [FileStream.read], whose optional argument is the size; [args] is
    [None] for a call without argument. *)
Definition FileStream_read (file : str) (args : option Z) (st : FileStream)
    : str * FileStream :=
  let size := match args with Some z => z | None => -1 end in
  let size := if (size <? 0) || (fs_length st - cur_offset st <? size)
              then fs_length st - cur_offset st else size in
  let data := file_read_at file (fs_offset st + cur_offset st) size in
  (data,
   match data with
   | [] => st
   | _ => {| fs_offset := fs_offset st; fs_length := fs_length st;
             cur_offset := cur_offset st + len data |}
   end).

(** [FileSource.get_stream] *)
Definition Source_get_stream (sector length : Z) : M FileStream :=
  ret (FileStream_init (sector * SECTOR_LENGTH) length).

(** ** record.py, continued: get_stream, find_susp_entry, parent_directory *)

(** [Record.get_stream] *)
Definition get_stream (self : nat) : M FileStream :=
  r <- get_record self ;;
  py_assert (is_directory r =? 0) ;;
  Source_get_stream (rec_location r) (rec_length r).

(** The loop [for entry in self.susp_entries_unsafe] of [find_susp_entry].
    [entryclass] is represented by its membership test
    [isinstance(entry, entryclass)], [condition] is the optional predicate;
    the assertion on [entryclass] concerns the argument alone. *)
Fixpoint find_susp_loop (fuel : nat) (g : susp_gen) (entryclass : SUSP_Entry -> bool)
    (condition : option (SUSP_Entry -> bool)) : M (option SUSP_Entry) :=
  match fuel with
  | O => diverge
  | S fuel' =>
      r <- susp_next g ;;
      match r with
      | None => ret None
      | Some (entry, g') =>
          if entryclass entry
             && match condition with None => true | Some c => c entry end
          then ret (Some entry)
          else find_susp_loop fuel' g' entryclass condition
      end
  end.

Definition find_susp_entry (fuel : nat) (self : nat) (entryclass : SUSP_Entry -> bool)
    (condition : option (SUSP_Entry -> bool)) : M (option SUSP_Entry) :=
  r <- get_record self ;;
  find_susp_loop fuel (susp_entries_unsafe r) entryclass condition.

Definition parent_directory (self : nat) : M (option nat) :=
  r <- get_record self ;;
  py_assert (negb (is_directory r =? 0)) ;;
  seek (rec_location r) (rec_length r) false ;;
  unpack_record ;;
  unpack_record.

(** ** iso.py, continued: ISO.record *)

(** [s.upper()] on a byte string: the ASCII lower-case letters are mapped
    to upper case (the "C" locale). *)
Definition upper_char (c : ascii) : ascii :=
  if (97 <=? ord c) && (ord c <=? 122) then chr (ord c - 32) else c.

Definition upper (s : str) : str := map upper_char s.

(** [try: m except KeyError: h] *)
Definition try_except_KeyError {A} (m : M A) (h : M A) : M A :=
  fun w =>
    match m w with
    | (Raise KeyError, w') => h w'
    | r => r
    end.

(** The dictionary [ISO.path_cache], from tuples of path components to
    records.  It belongs to the [ISO] object and is updated in place, so a
    method of [ISO] hands it back whatever its outcome. *)
Definition path_cache : Type := gmap (list str) nat.

Section ISO_record.

(** [PathTable.record] of the module path_table.py, which is not part of
    the sources. *)
Variable path_table_record : list str -> M nat.

(** The loop [while path and not record]: [rpath] is [path] in reverse
    order, so that [path.pop()] takes its head.  The result is [record],
    what is left of [path], and [subpath]. *)
Fixpoint ISO_resolve (cache : path_cache) (rpath subpath : list str)
    : M (option nat * list str * list str) :=
  match rpath with
  | [] => ret (None, rpath, subpath)
  | part :: rpath' =>
      match cache !! rev rpath with
      | Some record => ret (Some record, rpath, subpath)
      | None =>
          s <- get_source ;;
          found <-
            (if rockridge s then ret None
             else try_except_KeyError
                    (r <- path_table_record (rev rpath) ;; ret (Some r))
                    (ret None)) ;;
          match found with
          | Some record => ret (Some record, rpath, subpath)
          | None => ISO_resolve cache rpath' (part :: subpath)
          end
      end
  end.

(** The loop [while subpath]. *)
Fixpoint ISO_walk (fuel : nat) (record : nat) (rpath subpath : list str) (cache : path_cache)
    (w : World) : Res nat * path_cache * World :=
  match subpath with
  | [] => (Ok record, cache, w)
  | part :: subpath' =>
      match find_child fuel record part w with
      | (Ok child, w1) =>
          match get_record child w1 with
          | (Ok r, w2) =>
              ISO_walk fuel child (part :: rpath) subpath'
                (if negb (is_directory r =? 0) then <[rev (part :: rpath) := child]> cache
                 else cache) w2
          | (Raise e, w2) => (Raise e, cache, w2)
          | (Diverge, w2) => (Diverge, cache, w2)
          end
      | (Raise e, w1) => (Raise e, cache, w1)
      | (Diverge, w1) => (Diverge, cache, w1)
      end
  end.

(** [ISO.record], called with the components of the path, for an [ISO]
    object whose attributes [root] and [path_cache] are given. *)
Definition ISO_record (fuel : nat) (root : nat) (cache : path_cache) (path : list str)
    (w : World) : Res nat * path_cache * World :=
  let path := if rockridge (source w) then path else map upper path in
  match ISO_resolve cache (rev path) [] w with
  | (Ok (record, rpath, subpath), w1) =>
      ISO_walk fuel (default root record) rpath subpath cache w1
  | (Raise e, w1) => (Raise e, cache, w1)
  | (Diverge, w1) => (Diverge, cache, w1)
  end.

End ISO_record.

(** ** Further definitions used in the statements *)

(** Whether [v] is representable by the format character [c]. *)
Definition fits (c : code) (v : Z) : bool :=
  if code_signed c
  then (- 2 ^ (8 * Z.of_nat (code_size c) - 1) <=? v) && (v <? 2 ^ (8 * Z.of_nat (code_size c) - 1))
  else (0 <=? v) && (v <? 2 ^ (8 * Z.of_nat (code_size c))).

(** The format characters [unpack_smart] reads as both-endian fields. *)
Definition both_code (c : code) : bool :=
  match c with
  | c_b | c_B => false
  | _ => true
  end.

(** A run of both-endian fields holding the given values, and the format
    [unpack_smart] builds for it. *)
Definition both_fields (fs : list (code * Z)) : str :=
  concat (map (fun f => both_bytes (code_size (fst f)) (snd f)) fs).

Definition smart_fmt (fs : list (code * Z)) : list fitem :=
  concat (map (fun f => [FInt (fst f); FInt (fst f)]) fs).

(** Every sector in the cache [m] holds the bytes of that sector of the
    image. *)
Definition coherent (s : Source) (m : gmap Z str) : Prop :=
  forall k v, m !! k = Some v -> 0 <= k /\ v = _fetch s k 1.

(** The invariant of the loop of [seek] in front of sector [cur]. *)
Definition seek_inv (s : Source) (start cur : Z) (st : seek_state) : Prop :=
  coherent s (sk_sectors st) /\
  match sk_need_start st with
  | None => sk_written st = _fetch s start (cur - start)
  | Some ns => start <= ns < cur /\ sk_written st = _fetch s start (ns - start)
  end.

(** What holds when the loop over the sectors up to [hi] is left. *)
Definition seek_post (s : Source) (start n hi : Z) (st : seek_state) : Prop :=
  coherent s (sk_sectors st) /\
  match sk_need_start st with
  | None => exists m, (m = hi - start \/ n <= m) /\ 0 <= m /\ sk_written st = _fetch s start m
  | Some ns => start <= ns < hi /\ sk_written st = _fetch s start (ns - start)
  end.

(** The window installed by [seek]: the [length] bytes of the image that
    start at sector [start_sector] (fewer when the image ends before). *)
Definition image_window (s : Source) (start_sector length : Z) : str :=
  take (Z.to_nat length) (drop (Z.to_nat (start_sector * SECTOR_LENGTH)) (_file s)).

(** A sequence of calls of [read] on one stream: the chunks returned. *)
Fixpoint stream_reads (file : str) (sizes : list (option Z)) (st : FileStream)
    : list str * FileStream :=
  match sizes with
  | [] => ([], st)
  | size :: sizes' =>
      let '(data, st1) := FileStream_read file size st in
      let '(chunks, st2) := stream_reads file sizes' st1 in
      (data :: chunks, st2)
  end.

(** The bytes of the extent a stream was opened on. *)
Definition stream_extent (file : str) (st : FileStream) : str :=
  take (Z.to_nat (fs_length st)) (drop (Z.to_nat (fs_offset st)) file).

(** The store [w] with the record object [self] replaced by [r]. *)
Definition with_record (w : World) (self : nat) (r : RecordObj) : World :=
  {| source := source w; records := <[self := r]> (records w); dicts := dicts w |}.

(** The extension in force is one of the two Rock Ridge versions. *)
Definition rock_ridge_scope (scope : option (str * Z)) : bool :=
  match scope with
  | Some iv => idver_eqb iv RRIP_109 || idver_eqb iv RRIP_112
  | None => false
  end.

(** The name carried by an [NM] with the given flags. *)
Definition NM_name (flags : Z) (name : str) : str :=
  if flags =? NM_CURRENT then b "." else if flags =? NM_PARENT then b ".." else name.

(** The payloads [NM.__init__] decodes to a name: flags 0 or CONTINUE with
    a name of at least one byte, CURRENT or PARENT with no name. *)
Definition NM_wf (flags : Z) (name : str) : bool :=
  if (flags =? NM_CURRENT) || (flags =? NM_PARENT) then match name with [] => true | _ => false end
  else ((flags =? 0) || (flags =? NM_CONTINUE)) && (0 <? len name).

(** The size of a timestamp of a [TF] with the given flags, and the
    timestamps its flags select. *)
Definition TF_size (flags : Z) : Z :=
  if negb (Z.land flags TF_LONG_FORM =? 0) then 17 else 7.

Definition TF_selected (flags : Z) (sel : list Z) : list bool :=
  map (fun bit => negb (Z.land flags bit =? 0)) sel.

Definition TF_count (flags : Z) (sel : list Z) : Z :=
  len (List.filter (fun x : bool => x) (TF_selected flags sel)).

(** The seven numbers held by the seven bytes of a directory-form
    timestamp: six unsigned bytes and a signed one. *)
Definition dir_date_fields (t : str) : list Z :=
  match t with
  | [cy; cmo; cd; ch; cmi; cs; ctz] =>
      [ord cy; ord cmo; ord cd; ord ch; ord cmi; ord cs; to_signed 1 (ord ctz)]
  | _ => []
  end.

(** The timestamp that the bytes [t] stand for in a [TF] with the given
    flags: the bytes themselves in long form, the seven numbers of a
    directory-form timestamp otherwise. *)
Definition TF_stamp_of (flags : Z) (t : str) : tf_stamp :=
  if negb (Z.land flags TF_LONG_FORM =? 0) then TFLong t else TFLazy (dir_date_fields t).

(** The timestamps of a [TF] as they lie in [payload], the bytes after the
    flags byte: for each selector bit in order, nothing when the bit is
    clear, and the next [TF_size flags] bytes when it is set. *)
Fixpoint TF_layout (flags : Z) (sel : list Z) (payload : str) : list (option tf_stamp) :=
  match sel with
  | [] => []
  | bit :: sel' =>
      if negb (Z.land flags bit =? 0) then
        Some (TF_stamp_of flags (take (Z.to_nat (TF_size flags)) payload))
        :: TF_layout flags sel' (drop (Z.to_nat (TF_size flags)) payload)
      else None :: TF_layout flags sel' payload
  end.

(** The timestamp held by the seven bytes of a directory-form date. *)
Definition dir_datetime_of (t : list ascii) : datetime :=
  match t with
  | [cy; cmo; cd; ch; cmi; cs; ctz] =>
      {| dt_year := ord cy + 1900; dt_month := ord cmo; dt_day := ord cd;
         dt_hour := ord ch; dt_minute := ord cmi; dt_second := ord cs;
         dt_tzoffset := to_signed 1 (ord ctz) * 15 |}
  | _ => {| dt_year := 0; dt_month := 0; dt_day := 0; dt_hour := 0; dt_minute := 0;
            dt_second := 0; dt_tzoffset := 0 |}
  end.

(** The test made on each entry by [find_susp_entry]. *)
Definition susp_match (entryclass : SUSP_Entry -> bool)
    (condition : option (SUSP_Entry -> bool)) (entry : SUSP_Entry) : bool :=
  entryclass entry && match condition with None => true | Some c => c entry end.

(** [m], run on [w], comes to an end and does not move the cursor
    backwards. *)
Definition forward_at {A} (m : M A) (w : World) : Prop :=
  fst (m w) <> Diverge /\
  forall c, cursor_of (source w) = Some c ->
            exists c', c <= c' /\ cursor_of (source (snd (m w))) = Some c'.

Definition forward {A} (m : M A) : Prop := forall w, forward_at m w.

(** [m] comes to an end on every store. *)
Definition total {A} (m : M A) : Prop := forall w, fst (m w) <> Diverge.

(** *** Stores for the examples *)

(** The record object of a file of [length] bytes in sector [location]. *)
Definition file_object (location length : Z) : RecordObj :=
  {| _content := None; _child_cache := 0; _last_cached_child := PyNone;
     rec_location := location; rec_length := length;
     rec_datetime := {| dt_year := 2000; dt_month := 1; dt_day := 1;
                        dt_hour := 0; dt_minute := 0; dt_second := 0;
                        dt_tzoffset := 0 |};
     is_hidden := 0; is_directory := 0; raw_name := b "HELLO.TXT";
     embedded_susp_entries := []; _latest_child_start := None |}.

(** An image of eleven bytes with the record object of a file made of its
    first five bytes. *)
Definition small_file_world : World :=
  {| source := Source_init (b "hello world");
     records := [file_object 0 5];
     dicts := [∅] |}.

(** The store after the content of that file has been read. *)
Definition small_file_read_world : World :=
  Eval vm_compute in snd (content 0%nat small_file_world).

(** A buffer holding the directory record of a file, with the cursor after
    the length byte, and the store once the record has been built. *)
Definition record_buffer : str := record_bytes 3 5 0 (b "A.TXT;1") [].

Definition record_world : World := buffer_world record_buffer 1.

Definition record_parsed_world : World :=
  Eval vm_compute in snd (Record_init (len record_buffer - 1) PyFalse record_world).

(** A buffer of one hundred zero bytes with the cursor at 68, as a
    directory of one hundred bytes leaves it after "." and "..". *)
Definition short_directory_world : World :=
  {| source := set_buff (Source_init []) (Some {| sio_data := zeros 100; sio_pos := 68 |}) 100;
     records := [directory_object 1]; dicts := [∅] |}.

(** A path table without entries. *)
Definition empty_path_table (path : list str) : M nat := raise KeyError.

(** A Rock Ridge directory holding the directory SUB, once the facade has
    made its SUSP check, and the outcome of resolving SUB in it. *)
Definition subdir_world : World :=
  Eval vm_compute in
    snd (ISO_check_susp 10 0%nat
           (image_world (dot_records (rockridge_su 0)
                         ++ [record_bytes 1 SECTOR_LENGTH 2 (b "SUB") []]) [])).

Definition subdir_resolved : Res nat * path_cache * World :=
  Eval vm_compute in ISO_record empty_path_table 10 0%nat ∅ [b "SUB"] subdir_world.

(** * Properties *)

(** ** The monad and the buffer *)

Lemma bind_Ok {A B} (m : M A) (k : A -> M B) w a w' :
  m w = (Ok a, w') -> bind m k w = k a w'.
Proof. intros H. unfold bind. now rewrite H. Qed.

Lemma bind_Raise {A B} (m : M A) (k : A -> M B) w e w' :
  m w = (Raise e, w') -> bind m k w = (Raise e, w').
Proof. intros H. unfold bind. now rewrite H. Qed.

Lemma bind_Diverge {A B} (m : M A) (k : A -> M B) w w' :
  m w = (Diverge, w') -> bind m k w = (Diverge, w').
Proof. intros H. unfold bind. now rewrite H. Qed.

Lemma len_nonneg {A} (l : list A) : 0 <= len l.
Proof. unfold len. lia. Qed.

Lemma len_app {A} (l1 l2 : list A) : len (l1 ++ l2) = len l1 + len l2.
Proof. unfold len. rewrite length_app. lia. Qed.

Lemma len_take {A} (n : nat) (l : list A) : len (take n l) = Z.min (Z.of_nat n) (len l).
Proof. unfold len. rewrite length_take. lia. Qed.

Lemma len_drop {A} (n : nat) (l : list A) : len (drop n l) = Z.max 0 (len l - Z.of_nat n).
Proof. unfold len. rewrite length_drop. lia. Qed.

Lemma len_slice {A} (i j : Z) (l : list A) :
  0 <= i -> i <= j -> j <= len l -> len (slice i j l) = j - i.
Proof.
  intros Hi Hij Hj. unfold slice. rewrite len_take, len_drop. lia.
Qed.

Lemma buffer_at_cursor w data pos q :
  buffer w data pos -> buffer (at_cursor w q) data q.
Proof.
  unfold buffer, at_cursor. intros H. rewrite H. reflexivity.
Qed.

Lemma at_cursor_at_cursor w data pos p q :
  buffer w data pos -> at_cursor (at_cursor w p) q = at_cursor w q.
Proof.
  unfold buffer, at_cursor. intros H. rewrite H. reflexivity.
Qed.

Lemma at_cursor_same w data pos : buffer w data pos -> at_cursor w pos = w.
Proof.
  unfold buffer, at_cursor. intros H. rewrite H.
  destruct w as [s rs ds]; destruct s; simpl in *. now rewrite H.
Qed.

Lemma source_at_cursor w q :
  susp_extensions (source (at_cursor w q)) = susp_extensions (source w).
Proof. unfold at_cursor. now destruct (_buff (source w)). Qed.

Lemma cursor_spec w data pos : buffer w data pos -> cursor w = (Ok pos, w).
Proof.
  unfold buffer. intros H. unfold cursor, bind, get_source, cursor_of. now rewrite H.
Qed.

Lemma cursor_opt_spec w data pos : buffer w data pos -> cursor_opt w = (Ok (Some pos), w).
Proof.
  unfold buffer. intros H. unfold cursor_opt, bind, get_source, cursor_of, ret. now rewrite H.
Qed.

Lemma set_cursor_spec w data pos q :
  buffer w data pos -> 0 <= q -> set_cursor q w = (Ok tt, at_cursor w q).
Proof.
  unfold buffer. intros H Hq.
  unfold set_cursor, bind, get_source, set_source, at_cursor. rewrite H. simpl.
  now rewrite Z.max_r by lia.
Qed.

(** With a buffer in place [rewind_raw] tests its cursor. *)
Lemma rewind_raw_buffer w data pos l :
  buffer w data pos ->
  rewind_raw l w
  = (if pos <? l then raise (SourceError RewindUnderrun) else set_cursor (pos - l)) w.
Proof.
  unfold buffer. intros H. unfold rewind_raw, bind, get_source, cursor_of. now rewrite H.
Qed.

(** Reading [l] bytes that the buffer holds. *)
Lemma unpack_raw_ok w data pos l :
  buffer w data pos -> 0 <= pos -> 0 <= l -> pos + l <= len data ->
  unpack_raw l w = (Ok (slice pos (pos + l) data), at_cursor w (pos + l)).
Proof.
  unfold buffer. intros H Hp Hl Hlen.
  unfold unpack_raw, bind, get_source, set_source, sio_read, at_cursor, ret. rewrite H. simpl.
  destruct (l <? 0) eqn:E; [lia|].
  assert (Hd : len (take (Z.to_nat l) (drop (Z.to_nat pos) data)) = l).
  { rewrite len_take, len_drop. lia. }
  rewrite Hd. destruct (l <? l) eqn:E2; [lia|].
  unfold slice. replace (pos + l - pos) with l by lia. reflexivity.
Qed.

(** Reading past the end of the buffer: the bytes that were left are
    consumed and the under-run is raised. *)
Lemma unpack_raw_underrun w data pos l :
  buffer w data pos -> 0 <= pos -> 0 < l -> len data < pos + l ->
  unpack_raw l w = (Raise (SourceError BufferUnderrun), at_cursor w (Z.max pos (len data))).
Proof.
  unfold buffer. intros H Hp Hl Hlen.
  unfold unpack_raw, bind, get_source, set_source, sio_read, at_cursor, ret, raise.
  rewrite H. simpl.
  pose proof (len_nonneg data) as Hn.
  destruct (l <? 0) eqn:E; [lia|].
  assert (Hd : len (take (Z.to_nat l) (drop (Z.to_nat pos) data)) = Z.max 0 (len data - pos)).
  { rewrite len_take, len_drop. lia. }
  rewrite Hd. destruct (Z.max 0 (len data - pos) <? l) eqn:E2; [|lia].
  replace (pos + Z.max 0 (len data - pos)) with (Z.max pos (len data)) by lia.
  reflexivity.
Qed.

Lemma struct_unpack_pair e st raw :
  len raw = 2 * Z.of_nat (code_size st) ->
  struct_unpack e [FInt st; FInt st] raw =
    Some [VInt (int_of e st (take (code_size st) raw));
          VInt (int_of e st (take (code_size st) (drop (code_size st) raw)))].
Proof.
  intros H. unfold struct_unpack, calcsize. simpl.
  replace (len raw =? Z.of_nat (code_size st + (code_size st + 0))) with true
    by (symmetry; apply Z.eqb_eq; lia).
  reflexivity.
Qed.

Lemma slice_take_prefix {A} (l : list A) pos n m :
  0 <= pos -> 0 <= n -> n <= m ->
  take (Z.to_nat n) (slice pos (pos + m) l) = slice pos (pos + n) l.
Proof.
  intros. unfold slice. rewrite take_take. f_equal. lia.
Qed.

Lemma slice_take_drop {A} (l : list A) pos n m :
  0 <= pos -> 0 <= n -> 0 <= m ->
  take (Z.to_nat m) (drop (Z.to_nat n) (slice pos (pos + (n + m)) l))
  = slice (pos + n) (pos + n + m) l.
Proof.
  intros. unfold slice. rewrite skipn_firstn_comm, take_take, drop_drop.
  f_equal; [lia|]. f_equal. lia.
Qed.

(** C4. [unpack_both('X')] reads the field twice (2 * size bytes), takes the
    first copy as little-endian and the second as big-endian, returns the
    common value when the two readings agree, and raises the both-endian
    mismatch [SourceError] whenever they differ, whatever the little-endian
    half is.  (When fewer than 2 * size bytes are left, the read itself
    raises the buffer under-run.) *)
Theorem unpack_both_spec (st : code) (w : World) (data : str) (pos : Z) :
  buffer w data pos -> 0 <= pos ->
  let n := Z.of_nat (code_size st) in
  let le := int_of LE st (slice pos (pos + n) data) in
  let be := int_of BE st (slice (pos + n) (pos + n + n) data) in
  (len data < pos + 2 * n ->
     unpack_both st w
     = (Raise (SourceError BufferUnderrun), at_cursor w (Z.max pos (len data)))) /\
  (pos + 2 * n <= len data -> le = be ->
     unpack_both st w = (Ok le, at_cursor w (pos + 2 * n))) /\
  (pos + 2 * n <= len data -> le <> be ->
     unpack_both st w = (Raise (SourceError EndianMismatch), at_cursor w (pos + 2 * n))).
Proof.
  intros Hb Hp n le be.
  assert (Hn : 0 < n) by (unfold n; destruct st; simpl; lia).
  assert (Hc : calcsize [FInt st; FInt st] = 2 * n).
  { unfold calcsize, n. simpl. lia. }
  split; [|split].
  - intros Hlen. unfold unpack_both, _unpack_both.
    erewrite bind_Raise; [reflexivity|].
    erewrite bind_Raise; [reflexivity|].
    rewrite Hc. apply (unpack_raw_underrun _ _ _ _ Hb); lia.
  - intros Hlen Heq. unfold unpack_both, _unpack_both.
    assert (Hraw := unpack_raw_ok _ _ _ (2 * n) Hb Hp ltac:(lia) Hlen).
    assert (Hl : len (slice pos (pos + 2 * n) data) = 2 * Z.of_nat (code_size st)).
    { rewrite len_slice; unfold n in *; lia. }
    erewrite bind_Ok.
    2:{ erewrite bind_Ok; [|rewrite Hc; exact Hraw].
        rewrite !struct_unpack_pair by exact Hl. reflexivity. }
    cbn [fst snd].
    replace 2%Z with 2%Z by reflexivity.
    assert (E1 : take (code_size st) (slice pos (pos + 2 * n) data) = slice pos (pos + n) data).
    { rewrite <- (Nat2Z.id (code_size st)). apply slice_take_prefix; unfold n in *; lia. }
    assert (E2 : take (code_size st) (drop (code_size st) (slice pos (pos + 2 * n) data))
                 = slice (pos + n) (pos + n + n) data).
    { rewrite <- (Nat2Z.id (code_size st)). replace (2 * n) with (n + n) by lia.
      apply slice_take_drop; unfold n in *; lia. }
    rewrite E1, E2. fold le be. rewrite Heq, Z.eqb_refl. reflexivity.
  - intros Hlen Hne. unfold unpack_both, _unpack_both.
    assert (Hraw := unpack_raw_ok _ _ _ (2 * n) Hb Hp ltac:(lia) Hlen).
    assert (Hl : len (slice pos (pos + 2 * n) data) = 2 * Z.of_nat (code_size st)).
    { rewrite len_slice; unfold n in *; lia. }
    erewrite bind_Ok.
    2:{ erewrite bind_Ok; [|rewrite Hc; exact Hraw].
        rewrite !struct_unpack_pair by exact Hl. reflexivity. }
    cbn [fst snd].
    assert (E1 : take (code_size st) (slice pos (pos + 2 * n) data) = slice pos (pos + n) data).
    { rewrite <- (Nat2Z.id (code_size st)). apply slice_take_prefix; unfold n in *; lia. }
    assert (E2 : take (code_size st) (drop (code_size st) (slice pos (pos + 2 * n) data))
                 = slice (pos + n) (pos + n + n) data).
    { rewrite <- (Nat2Z.id (code_size st)). replace (2 * n) with (n + n) by lia.
      apply slice_take_drop; unfold n in *; lia. }
    rewrite E1, E2. fold le be.
    destruct (Z.eqb_spec le be); [contradiction|]. reflexivity.
Qed.

Lemma unpack_both_spec_witness :
  unpack_both c_I (buffer_world (both_bytes 4 300) 0)
  = (Ok 300, at_cursor (buffer_world (both_bytes 4 300) 0) 8).
Proof.
  apply (unpack_both_spec c_I (buffer_world (both_bytes 4 300) 0) (both_bytes 4 300) 0);
    [reflexivity | lia | vm_compute; congruence | reflexivity].
Defined.

(** ** unpack_susp *)

Lemma slice_of_slice {A} (l : list A) pos k n m :
  0 <= pos -> 0 <= n -> 0 <= m -> n + m <= k ->
  take (Z.to_nat m) (drop (Z.to_nat n) (slice pos (pos + k) l))
  = slice (pos + n) (pos + n + m) l.
Proof.
  intros. unfold slice. rewrite skipn_firstn_comm, take_take, drop_drop.
  f_equal; [lia|]. f_equal. lia.
Qed.

Lemma ext_id_ver_of_at_cursor w q pe :
  ext_id_ver_of (source (at_cursor w q)) pe = ext_id_ver_of (source w) pe.
Proof. unfold ext_id_ver_of. now rewrite source_at_cursor. Qed.

(** Reading the four header bytes of a SUSP entry. *)
Lemma unpack_header w data pos :
  buffer w data pos -> 0 <= pos -> pos + 4 <= len data ->
  unpack [FStr 2; FInt c_B; FInt c_B] w
  = (Ok [VStr (fst (fst (susp_header data pos)));
         VInt (snd (fst (susp_header data pos)));
         VInt (snd (susp_header data pos))],
     at_cursor w (pos + 4)).
Proof.
  intros Hb Hp Hlen. unfold unpack.
  erewrite bind_Ok; [|apply (unpack_raw_ok _ _ _ 4 Hb); lia].
  unfold struct_unpack.
  replace (len (slice pos (pos + 4) data) =? calcsize [FStr 2; FInt c_B; FInt c_B]) with true
    by (symmetry; apply Z.eqb_eq; rewrite len_slice by lia; unfold calcsize; simpl; lia).
  unfold of_struct, ret, susp_header, ord_at. cbn [struct_fields fitem_size code_size fst snd].
  rewrite drop_drop.
  pose proof (slice_take_prefix data pos 2 4 Hp ltac:(lia) ltac:(lia)) as E1.
  pose proof (slice_of_slice data pos 4 2 1 Hp ltac:(lia) ltac:(lia) ltac:(lia)) as E2.
  pose proof (slice_of_slice data pos 4 3 1 Hp ltac:(lia) ltac:(lia) ltac:(lia)) as E3.
  change (Z.to_nat 2) with 2%nat in *. change (Z.to_nat 1) with 1%nat in *.
  change (Z.to_nat 3) with 3%nat in *. change (2 + 1)%nat with 3%nat.
  rewrite E1, E2, E3.
  replace (pos + 2 + 1) with (pos + 3) by lia.
  replace (pos + 3 + 1) with (pos + 4) by lia.
  reflexivity.
Qed.

Lemma try_except_Ok {A} (m h : M A) w a w' :
  m w = (Ok a, w') -> try_except_SUSPError m h w = (Ok a, w').
Proof. intros H. unfold try_except_SUSPError. now rewrite H. Qed.

Lemma try_except_caught {A} (m h : M A) w w' :
  m w = (Raise SUSPError, w') -> try_except_SUSPError m h w = h w'.
Proof. intros H. unfold try_except_SUSPError. now rewrite H. Qed.

Lemma UnknownEntry_init_never_SUSPError sv l w :
  fst (UnknownEntry_init sv l w) <> Raise SUSPError.
Proof.
  unfold UnknownEntry_init, unpack_raw, bind, get_source, set_source, raise, ret.
  destruct (_buff (source w)); simpl; [|congruence].
  destruct (_ <? l); simpl; congruence.
Qed.

Lemma unpack_never_SUSPError fmt w : fst (unpack fmt w) <> Raise SUSPError.
Proof.
  unfold unpack, unpack_raw, bind, get_source, set_source, raise, ret, of_struct.
  destruct (_buff (source w)); simpl; [|congruence].
  destruct (_ <? calcsize fmt); simpl; [congruence|].
  destruct (struct_unpack _ _ _); simpl; congruence.
Qed.

Lemma set_cursor_never_SUSPError q w : fst (set_cursor q w) <> Raise SUSPError.
Proof.
  unfold set_cursor, bind, get_source, set_source, raise.
  destruct (_buff (source w)); simpl; congruence.
Qed.

Lemma cursor_never_SUSPError w : fst (cursor w) <> Raise SUSPError.
Proof.
  unfold cursor, bind, get_source, raise, ret.
  destruct (cursor_of (source w)); simpl; congruence.
Qed.

Lemma rewind_raw_never_SUSPError l w : fst (rewind_raw l w) <> Raise SUSPError.
Proof.
  unfold rewind_raw, bind, get_source.
  destruct (cursor_of (source w)) as [c|]; [|unfold raise; simpl; congruence].
  destruct (c <? l); [unfold raise; simpl; congruence|].
  apply set_cursor_never_SUSPError.
Qed.

(** No [SUSPError] leaves [unpack_susp], whatever the typed decoder does. *)
Lemma unpack_susp_never_SUSPError dec maxlen pe w :
  fst (unpack_susp_with dec maxlen pe w) <> Raise SUSPError.
Proof.
  unfold unpack_susp_with.
  destruct (maxlen <? 4); [unfold ret; simpl; congruence|].
  unfold bind at 1. unfold cursor_opt at 1. unfold bind at 1, get_source at 1, ret at 1.
  unfold bind at 1.
  pose proof (unpack_never_SUSPError [FStr 2; FInt c_B; FInt c_B] w) as Hu.
  destruct (unpack _ w) as [[hdr| |] w1]; simpl in Hu |- *; try congruence.
  destruct hdr as [|[ | sg | ] [|[ln | | ] [|[ver | | ] [|]]]]; try (unfold raise; simpl; congruence).
  destruct (maxlen <? ln).
  { unfold bind. pose proof (rewind_raw_never_SUSPError 4 w1) as Hr.
    destruct (rewind_raw 4 w1) as [[ | | ] w2]; unfold ret; simpl in *; congruence. }
  unfold bind at 1, get_source at 1.
  unfold bind at 1.
  destruct (ext_id_ver_of (source w1) pe) as [scope|];
    [|destruct (py_index _ pe); unfold raise; simpl; congruence].
  unfold ret at 1. unfold bind at 1.
  destruct (cursor_of (source w)) as [start|]; [|unfold need_int, raise; simpl; congruence].
  unfold need_int, ret at 1.
  unfold bind at 1.
  assert (Htail : forall (ns : option SUSP_Entry) w3,
    fst ((c <- cursor ;;
          new_susp <-
            (if negb (c =? start + ln) then
               set_cursor (start + 4) ;;
               e <- UnknownEntry_init (sg, ver) (ln - 4) ;;
               ret (Some e)
             else ret ns) ;;
          c' <- cursor ;;
          py_assert (c' =? start + ln) ;;
          match new_susp with
          | Some e => ret (Some e)
          | None => raise UnboundLocalError
          end) w3) <> Raise SUSPError).
  { intros ns w3. unfold bind at 1.
    pose proof (cursor_never_SUSPError w3) as Hc.
    destruct (cursor w3) as [[c| |] w4]; simpl in Hc |- *; try congruence.
    unfold bind at 1.
    assert (Hmid : forall w5,
      fst ((if negb (c =? start + ln) then
               set_cursor (start + 4) ;;
               e <- UnknownEntry_init (sg, ver) (ln - 4) ;;
               ret (Some e)
             else ret ns) w5) <> Raise SUSPError).
    { intros w5. destruct (negb _); [|unfold ret; simpl; congruence].
      unfold bind at 1. pose proof (set_cursor_never_SUSPError (start + 4) w5) as Hs.
      destruct (set_cursor _ w5) as [[ | | ] w6]; simpl in Hs |- *; try congruence.
      unfold bind at 1. pose proof (UnknownEntry_init_never_SUSPError (sg, ver) (ln - 4) w6) as Hk.
      destruct (UnknownEntry_init _ _ w6) as [[ | | ] w7]; simpl in Hk |- *; try congruence. }
    specialize (Hmid w4).
    match type of Hmid with
    | fst ?t <> _ => destruct t as [[n2| |] w8]
    end; simpl in Hmid |- *; try congruence.
    unfold bind at 1. pose proof (cursor_never_SUSPError w8) as Hc8.
    destruct (cursor w8) as [[c8| |] w9]; simpl in Hc8 |- *; try congruence.
    unfold bind, py_assert. destruct (c8 =? start + ln); unfold ret, raise; simpl.
    - destruct n2; simpl; congruence.
    - congruence. }
  unfold try_except_SUSPError.
  destruct (bind (dec scope (sg, ver) (ln - 4)) _ w1) as [[ns|e|] w3] eqn:Ed.
  - apply Htail.
  - destruct e; try (simpl; congruence).
    unfold bind at 1. pose proof (set_cursor_never_SUSPError start w3) as Hs.
    destruct (set_cursor start w3) as [[ | | ] w4]; simpl in Hs |- *; try congruence.
    unfold ret at 1. apply Htail.
  - simpl. congruence.
Qed.

(** X25.  [unpack_susp(maxlen)] over any typed decoder: with
    [maxlen < 4] it returns none and leaves the store as it is; with a
    declared length above [maxlen] it rewinds the four header bytes (the
    store is as before the call) and returns none; when the declared length
    is at least 4 and the whole entry lies in the window, and the typed
    decoder raises the SUSP decode error, or returns with the cursor
    anywhere but at the end of the entry, having left the window in place,
    the result is an [UnknownEntry] holding the payload bytes, with the
    cursor the declared length past the start of the entry; and no
    [SUSPError] ever reaches the caller. *)
Theorem unpack_susp_spec (dec : decoder) (maxlen possible_extension : Z)
    (w : World) (data : str) (pos : Z) :
  buffer w data pos -> 0 <= pos ->
  let signature := fst (fst (susp_header data pos)) in
  let length := snd (fst (susp_header data pos)) in
  let version := snd (susp_header data pos) in
  (maxlen < 4 -> unpack_susp_with dec maxlen possible_extension w = (Ok None, w)) /\
  (4 <= maxlen -> pos + 4 <= len data -> maxlen < length ->
     unpack_susp_with dec maxlen possible_extension w = (Ok None, w)) /\
  (forall scope r w2 c2,
     4 <= length -> length <= maxlen -> pos + length <= len data ->
     ext_id_ver_of (source w) possible_extension = Some scope ->
     dec scope (signature, version) (length - 4) (at_cursor w (pos + 4)) = (r, w2) ->
     buffer w2 data c2 ->
     r = Raise SUSPError \/ (exists e, r = Ok e) /\ c2 <> pos + length ->
     unpack_susp_with dec maxlen possible_extension w
     = (Ok (Some (UnknownEntry signature version (slice (pos + 4) (pos + length) data))),
        at_cursor w2 (pos + length))) /\
  fst (unpack_susp_with dec maxlen possible_extension w) <> Raise SUSPError.
Proof.
  intros Hb Hp signature length version.
  split; [|split; [|split]].
  - intros Hm. unfold unpack_susp_with.
    destruct (maxlen <? 4) eqn:E; [reflexivity|lia].
  - intros Hm Hlen Hl. unfold unpack_susp_with.
    destruct (maxlen <? 4) eqn:E; [lia|]. cbv beta iota.
    erewrite bind_Ok; [|apply (cursor_opt_spec _ _ _ Hb)].
    erewrite bind_Ok; [|apply (unpack_header _ _ _ Hb Hp Hlen)].
    cbv beta iota. fold signature length version.
    destruct (maxlen <? length) eqn:E2; [|lia]. cbv beta iota.
    pose proof (buffer_at_cursor _ _ _ (pos + 4) Hb) as Hb4.
    erewrite bind_Ok.
    2:{ rewrite (rewind_raw_buffer _ _ _ 4 Hb4).
        destruct (pos + 4 <? 4) eqn:E3; [lia|].
        apply (set_cursor_spec _ _ _ _ Hb4). lia. }
    rewrite (at_cursor_at_cursor _ _ _ _ _ Hb).
    replace (pos + 4 - 4) with pos by lia.
    rewrite (at_cursor_same _ _ _ Hb). reflexivity.
  - intros scope r w2 c2 Hl4 Hlm Hlen Hscope Hdec Hb2 Hr.
    pose proof (len_nonneg data) as Hn.
    unfold unpack_susp_with.
    destruct (maxlen <? 4) eqn:E; [lia|]. cbv beta iota.
    erewrite bind_Ok; [|apply (cursor_opt_spec _ _ _ Hb)].
    erewrite bind_Ok; [|apply (unpack_header _ _ _ Hb Hp); lia].
    cbv beta iota. fold signature length version.
    destruct (maxlen <? length) eqn:E2; [lia|]. cbv beta iota.
    unfold bind at 1, get_source at 1.
    rewrite ext_id_ver_of_at_cursor, Hscope.
    unfold bind at 1, ret at 1. unfold bind at 1, need_int, ret at 1.
    assert (Htail : forall (ns : option SUSP_Entry) w3 c3,
      buffer w3 data c3 -> c3 <> pos + length ->
      (c <- cursor ;;
       new_susp <-
         (if negb (c =? pos + length) then
            set_cursor (pos + 4) ;;
            e <- UnknownEntry_init (signature, version) (length - 4) ;;
            ret (Some e)
          else ret ns) ;;
       c' <- cursor ;;
       py_assert (c' =? pos + length) ;;
       match new_susp with
       | Some e => ret (Some e)
       | None => raise UnboundLocalError
       end) w3
      = (Ok (Some (UnknownEntry signature version (slice (pos + 4) (pos + length) data))),
         at_cursor w3 (pos + length))).
    { intros ns w3 c3 Hb3 Hc3.
      erewrite bind_Ok; [|apply (cursor_spec _ _ _ Hb3)].
      destruct (Z.eqb_spec c3 (pos + length)) as [|_]; [contradiction|]. cbn [negb]. cbv beta iota.
      pose proof (buffer_at_cursor _ _ _ (pos + 4) Hb3) as Hb4.
      pose proof (buffer_at_cursor _ _ _ (pos + length) Hb3) as Hbl.
      erewrite bind_Ok.
      2:{ erewrite bind_Ok; [|apply (set_cursor_spec _ _ _ _ Hb3); lia].
          unfold UnknownEntry_init.
          erewrite bind_Ok.
          2:{ erewrite bind_Ok; [|apply (unpack_raw_ok _ _ _ (length - 4) Hb4); lia].
              reflexivity. }
          reflexivity. }
      rewrite (at_cursor_at_cursor _ _ _ _ _ Hb3).
      replace (pos + 4 + (length - 4)) with (pos + length) by lia.
      erewrite bind_Ok; [|apply (cursor_spec _ _ _ Hbl)].
      rewrite Z.eqb_refl. reflexivity. }
    destruct Hr as [-> | [[e ->] Hc2]].
    + erewrite bind_Ok.
      2:{ erewrite try_except_caught; [|erewrite bind_Raise; [reflexivity|exact Hdec]].
          erewrite bind_Ok; [|apply (set_cursor_spec _ _ _ _ Hb2); lia].
          reflexivity. }
      rewrite (Htail None _ pos (buffer_at_cursor _ _ _ pos Hb2)) by lia.
      now rewrite (at_cursor_at_cursor _ _ _ _ _ Hb2).
    + erewrite bind_Ok.
      2:{ erewrite try_except_Ok; [reflexivity|].
          erewrite bind_Ok; [|exact Hdec]. reflexivity. }
      now rewrite (Htail (Some e) _ c2 Hb2 Hc2).
  - apply unpack_susp_never_SUSPError.
Qed.

Lemma unpack_susp_spec_witness :
  unpack_susp_with SUSP_Entry_unpack 12 0 (rr_buffer_world bad_NM_buffer 0)
  = (Ok (Some (UnknownEntry (b "NM") 1 (byte 2 ++ b "abcd"))),
     at_cursor (rr_buffer_world bad_NM_buffer 0) 9).
Proof.
  apply (proj1 (proj2 (proj2
           (unpack_susp_spec SUSP_Entry_unpack 12 0 (rr_buffer_world bad_NM_buffer 0)
              bad_NM_buffer 0 eq_refl ltac:(lia))))
           (Some RRIP_109) (Raise SUSPError)
           (at_cursor (rr_buffer_world bad_NM_buffer 0) 9) 9);
    try (vm_compute; congruence); try reflexivity.
  left. reflexivity.
Defined.

(** C3 (code defect).  The fallback of [unpack_susp] misses the entries
    whose declared length is below 4.  The typed decode of the [NM] entry
    of declared length 3 raises the SUSP decode error; the fallback then
    reads the payload with a negative length, that is up to the end of the
    window, and [unpack_susp(8)] ends in the failure of its own closing
    assertion on the cursor instead of returning an [UnknownEntry].  On an
    entry of declared length 0 the cursor is already where the header says
    after the decode error: the fallback is skipped and the call ends on
    the local [new_susp], which was never bound.  Listing the directory of
    an image whose file record carries the entry of length 3 in its
    system-use area fails in the same way. *)
Lemma unpack_susp_short_length_fails :
  fst (SUSP_Entry_unpack (Some RRIP_109) (b "NM", 1) (3 - 4)
         (at_cursor (rr_buffer_world short_NM_buffer 0) 4)) = Raise SUSPError /\
  unpack_susp 8 0 (rr_buffer_world short_NM_buffer 0)
  = (Raise AssertionError, at_cursor (rr_buffer_world short_NM_buffer 0) 8) /\
  fst (unpack_susp 4 0 (rr_buffer_world (b "NM" ++ byte 0 ++ byte 1) 0))
  = Raise UnboundLocalError /\
  fst ((ISO_check_susp 10 0%nat ;; children 10 0%nat) (file_image 0 short_NM_buffer []))
  = Raise AssertionError.
Proof. repeat split; vm_compute; reflexivity. Qed.

(** ** SL: the path of a symbolic link *)

Lemma ord_chr z : 0 <= z < 256 -> ord (chr z) = z.
Proof.
  intros H. unfold ord, chr. rewrite N_ascii_embedding; [lia|].
  change 256%N with (Z.to_N 256). lia.
Qed.

(** Reading the bytes [x] found at the cursor. *)
Lemma unpack_raw_prefix w data pos x r :
  buffer w data pos -> 0 <= pos <= len data -> drop (Z.to_nat pos) data = x ++ r ->
  unpack_raw (len x) w = (Ok x, at_cursor w (pos + len x))
  /\ drop (Z.to_nat (pos + len x)) data = r /\ pos + len x <= len data.
Proof.
  intros Hb [Hp Hp'] Hd.
  assert (Hlen : pos + len x <= len data).
  { assert (H : len (drop (Z.to_nat pos) data) = len x + len r) by (rewrite Hd; apply len_app).
    rewrite len_drop in H. pose proof (len_nonneg x). pose proof (len_nonneg r).
    lia. }
  split; [|split; [|exact Hlen]].
  - rewrite (unpack_raw_ok _ _ _ _ Hb Hp (len_nonneg x) Hlen). f_equal. f_equal.
    unfold slice. rewrite Hd. replace (pos + len x - pos) with (len x) by lia.
    unfold len. rewrite Nat2Z.id. apply take_app_length.
  - replace (Z.to_nat (pos + len x)) with (Z.to_nat pos + length x)%nat by (unfold len; lia).
    rewrite <- drop_drop, Hd. apply drop_app_length.
Qed.

(** Reading the byte [c] found at the cursor with '<B'. *)
Lemma unpack1_B_prefix w data pos c r :
  buffer w data pos -> 0 <= pos <= len data -> drop (Z.to_nat pos) data = c :: r ->
  unpack1 c_B w = (Ok (ord c), at_cursor w (pos + 1))
  /\ drop (Z.to_nat (pos + 1)) data = r /\ pos + 1 <= len data.
Proof.
  intros Hb Hp Hd.
  destruct (unpack_raw_prefix w data pos [c] r Hb Hp Hd) as [H1 H2].
  split; [|exact H2].
  unfold unpack1, unpack.
  erewrite bind_Ok.
  2:{ erewrite bind_Ok; [|exact H1]. reflexivity. }
  cbn. unfold int_of, ret. cbn. f_equal. f_equal. lia.
Qed.

Lemma component_bytes_len comp : len (component_bytes comp) = 2 + len (snd comp).
Proof. unfold component_bytes, byte. rewrite !len_app. unfold len. simpl. lia. Qed.

Lemma SL_loop_spec flags comps : forall fuel w data pos r path,
  buffer w data pos -> 0 <= pos <= len data ->
  drop (Z.to_nat pos) data = concat (map component_bytes comps) ++ r ->
  forallb wf_component comps = true ->
  (List.length comps <= fuel)%nat ->
  SL_loop fuel (pos + len (concat (map component_bytes comps))) flags path w
  = (Ok (path ++ sl_path flags comps),
     at_cursor w (pos + len (concat (map component_bytes comps)))).
Proof.
  induction comps as [|[cf content] rest IH]; intros fuel w data pos r path Hb Hp Hd Hwf Hfuel.
  - cbn [map concat sl_path]. change (len (@nil ascii)) with 0.
    replace (pos + 0) with pos by lia. rewrite app_nil_r.
    rewrite (at_cursor_same _ _ _ Hb).
    destruct fuel; cbn [SL_loop];
      (erewrite bind_Ok; [|apply (cursor_spec _ _ _ Hb)]);
      rewrite Z.ltb_irrefl; reflexivity.
  - destruct fuel as [|fuel]; [simpl in Hfuel; lia|].
    cbn [forallb] in Hwf. apply andb_prop in Hwf as [Hwf1 Hwf].
    cbn [map concat] in *. rewrite len_app, component_bytes_len. cbn [snd].
    set (restb := concat (map component_bytes rest)) in *.
    pose proof (len_nonneg content) as Hlc. pose proof (len_nonneg restb) as Hlr.
    set (target := pos + (2 + len content + len restb)).
    assert (Hcf : 0 <= cf < 256 /\ len content <= 255).
    { unfold wf_component in Hwf1. cbn [fst snd] in Hwf1.
      unfold SL_CURRENT, SL_PARENT, SL_ROOT, SL_CONTINUE in Hwf1.
      destruct (cf =? 2) eqn:E2; [destruct content; [unfold len; simpl; lia|discriminate]|].
      destruct (cf =? 4) eqn:E4; [destruct content; [unfold len; simpl; lia|discriminate]|].
      destruct (cf =? 8) eqn:E8; [destruct content; [unfold len; simpl; lia|discriminate]|].
      cbn [orb] in Hwf1. lia. }
    destruct Hcf as [Hcf Hlc255].
    unfold component_bytes, byte in Hd. cbn [fst snd] in Hd.
    rewrite <- !app_assoc in Hd. cbn [app] in Hd.
    cbn [SL_loop].
    erewrite bind_Ok; [|apply (cursor_spec _ _ _ Hb)].
    destruct (pos <? target) eqn:Elt; [|unfold target in Elt; lia]. cbv beta iota.
    destruct (unpack1_B_prefix _ _ _ _ _ Hb Hp Hd) as (U1 & Hd1 & Hp1).
    erewrite bind_Ok; [|exact U1]. rewrite ord_chr by exact Hcf.
    pose proof (buffer_at_cursor _ _ _ (pos + 1) Hb) as Hb1.
    destruct (unpack1_B_prefix _ _ _ _ _ Hb1 ltac:(lia) Hd1) as (U2 & Hd2 & Hp2).
    erewrite bind_Ok; [|exact U2]. rewrite ord_chr by lia.
    rewrite (at_cursor_at_cursor _ _ _ _ _ Hb).
    pose proof (buffer_at_cursor _ _ _ (pos + 1 + 1) Hb) as Hb2.
    destruct (unpack_raw_prefix _ _ _ _ _ Hb2 ltac:(lia) Hd2) as (U3 & Hd3 & Hp3).
    erewrite bind_Ok; [|exact U3].
    rewrite (at_cursor_at_cursor _ _ _ _ _ Hb).
    set (c1 := pos + 1 + 1 + len content) in *.
    pose proof (buffer_at_cursor _ _ _ c1 Hb) as Hb3.
    erewrite bind_Ok; [|apply (cursor_spec _ _ _ Hb3)].
    assert (Hrest : len restb = 0 <-> rest = []).
    { split; [|intros ->; reflexivity].
      destruct rest as [|c0 rest0]; [reflexivity|].
      unfold restb. cbn [map concat]. rewrite len_app, component_bytes_len.
      pose proof (len_nonneg (snd c0)). pose proof (len_nonneg (concat (map component_bytes rest0))).
      lia. }
    assert (Hsep : (c1 =? target) = match rest with [] => true | _ => false end).
    { destruct rest as [|c0 rest0].
      - apply Z.eqb_eq. unfold c1, target. change (len restb) with 0. lia.
      - apply Z.eqb_neq. intros Heq. assert (len restb = 0) by (unfold c1, target in Heq; lia).
        apply Hrest in H. discriminate. }
    assert (Hle : (c1 <=? target) = true) by (apply Z.leb_le; unfold c1, target; lia).
    assert (Hnext : forall path2,
      SL_loop fuel target flags path2 (at_cursor w c1)
      = (Ok (path2 ++ sl_path flags rest), at_cursor w target)).
    { intros path2.
      replace target with (c1 + len restb) by (unfold c1, target; lia).
      rewrite <- (at_cursor_at_cursor w data pos c1 (c1 + len restb) Hb).
      apply (IH fuel (at_cursor w c1) data c1 r path2 Hb3); auto.
      - unfold c1 in *. lia.
      - simpl in Hfuel. lia. }
    unfold wf_component in Hwf1. cbn [fst snd] in Hwf1.
    cbn [sl_path sl_component fst snd].
    erewrite bind_Ok; [|unfold susp_assert; rewrite Hle; reflexivity].
    destruct (cf =? SL_CURRENT) eqn:E2.
    { cbn [orb] in Hwf1. destruct content; [|discriminate].
      apply Z.eqb_eq in E2. subst cf. cbv beta iota.
      erewrite bind_Ok; [|reflexivity].
      erewrite bind_Ok; [|apply (cursor_spec _ _ _ Hb3)].
      change (SL_CURRENT =? SL_CONTINUE) with false. change (SL_CURRENT =? 0) with false.
      cbn [andb]. cbv beta iota. rewrite Hnext.
      rewrite <- !app_assoc. reflexivity. }
    destruct (cf =? SL_PARENT) eqn:E4.
    { cbn [orb] in Hwf1. destruct content; [|discriminate].
      apply Z.eqb_eq in E4. subst cf. cbv beta iota.
      erewrite bind_Ok; [|reflexivity].
      erewrite bind_Ok; [|apply (cursor_spec _ _ _ Hb3)].
      change (SL_PARENT =? SL_CONTINUE) with false. change (SL_PARENT =? 0) with false.
      cbn [andb]. cbv beta iota. rewrite Hnext.
      rewrite <- !app_assoc. reflexivity. }
    destruct (cf =? SL_ROOT) eqn:E8.
    { cbn [orb] in Hwf1. destruct content; [|discriminate].
      apply Z.eqb_eq in E8. subst cf. cbv beta iota.
      erewrite bind_Ok; [|reflexivity].
      erewrite bind_Ok; [|apply (cursor_spec _ _ _ Hb3)].
      change (SL_ROOT =? SL_CONTINUE) with false. change (SL_ROOT =? 0) with false.
      cbn [andb]. cbv beta iota. rewrite Hnext.
      rewrite <- !app_assoc. reflexivity. }
    cbn [orb] in Hwf1.
    apply andb_prop in Hwf1 as [Hwf1 _]. apply andb_prop in Hwf1 as [Hflag Hpos].
    rewrite Hflag. cbv beta iota.
    erewrite bind_Ok.
    2:{ unfold susp_assert. rewrite Hpos. reflexivity. }
    erewrite bind_Ok; [|apply (cursor_spec _ _ _ Hb3)].
    rewrite Hnext, Hsep.
    unfold sl_component. cbn [fst snd]. rewrite E2, E4, E8.
    destruct (cf =? SL_CONTINUE); [rewrite <- !app_assoc; reflexivity|].
    destruct ((cf =? 0) && _ && _); rewrite <- !app_assoc; reflexivity.
Qed.

Lemma components_len_lower comps :
  2 * len comps <= len (concat (map component_bytes comps)).
Proof.
  induction comps as [|c rest IH]; [unfold len; simpl; lia|].
  cbn [map concat]. rewrite len_app, component_bytes_len.
  pose proof (len_nonneg (snd c)). unfold len in *. simpl length. lia.
Qed.

(** C6 (amended).  For an [SL] entry made of the well-formed components
    [comps], the decoded path appends "." for CURRENT, ".." for PARENT,
    nothing for ROOT and the payload bytes for flags 0 or CONTINUE, and it
    appends "/" after each component unless the component's flags are
    CONTINUE, or the component has flags 0 and is the last one of an [SL]
    whose own CONTINUE bit is clear (the cursor reached the target); this
    is [sl_path].  The decoder stops at the end of the entry. *)
Theorem SL_init_path (flags : Z) (comps : list (Z * str)) (w : World)
    (data : str) (pos : Z) (r : str) :
  buffer w data pos -> 0 <= pos <= len data -> 0 <= flags < 256 ->
  0 < len comps -> forallb wf_component comps = true ->
  drop (Z.to_nat pos) data = (byte flags ++ concat (map component_bytes comps)) ++ r ->
  SL_init (len (byte flags ++ concat (map component_bytes comps))) w
  = (Ok (SL flags (sl_path flags comps)),
     at_cursor w (pos + len (byte flags ++ concat (map component_bytes comps)))).
Proof.
  intros Hb Hp Hf Hne Hwf Hd.
  pose proof (components_len_lower comps) as Hlow.
  set (restb := concat (map component_bytes comps)) in *.
  assert (Hl : len (byte flags ++ restb) = 1 + len restb).
  { rewrite len_app. reflexivity. }
  rewrite Hl. unfold SL_init.
  erewrite bind_Ok.
  2:{ unfold susp_assert. destruct (2 <=? 1 + len restb) eqn:E; [reflexivity|lia]. }
  erewrite bind_Ok; [|apply (cursor_spec _ _ _ Hb)].
  unfold byte in Hd. rewrite <- app_assoc in Hd. cbn [app] in Hd.
  destruct (unpack1_B_prefix _ _ _ _ _ Hb Hp Hd) as (U1 & Hd1 & Hp1).
  erewrite bind_Ok; [|exact U1]. rewrite ord_chr by exact Hf.
  pose proof (buffer_at_cursor _ _ _ (pos + 1) Hb) as Hb1.
  replace (pos + (1 + len restb)) with (pos + 1 + len restb) by lia.
  erewrite bind_Ok.
  2:{ apply (SL_loop_spec flags comps _ _ data (pos + 1) r [] Hb1); auto.
      - lia.
      - unfold len in *. lia. }
  rewrite (at_cursor_at_cursor _ _ _ _ _ Hb). reflexivity.
Qed.

(** The [SL] with components [ROOT], [PARENT], "etc", "hosts" has the path
    "/../etc/hosts". *)
Lemma SL_init_path_witness :
  SL_init 17 (buffer_world (byte 0 ++ concat (map component_bytes example_components)) 0)
  = (Ok (SL 0 (b "/../etc/hosts")),
     at_cursor (buffer_world (byte 0 ++ concat (map component_bytes example_components)) 0) 17).
Proof.
  apply (SL_init_path 0 example_components
           (buffer_world (byte 0 ++ concat (map component_bytes example_components)) 0)
           (byte 0 ++ concat (map component_bytes example_components)) 0 []);
    try reflexivity; vm_compute; intuition congruence.
Defined.

(** C6, as stated, fails on a final component that is not a plain name: the
    [SL] whose only component is PARENT decodes to "../", where the rule of
    the claim (no separator after the final component of the final [SL])
    gives "..". *)
Lemma SL_final_parent_counterexample :
  SL_init 3 (buffer_world (byte 0 ++ component_bytes (SL_PARENT, [])) 0)
  = (Ok (SL 0 (b "../")),
     at_cursor (buffer_world (byte 0 ++ component_bytes (SL_PARENT, [])) 0) 3)
  /\ sl_path_specified 0 [(SL_PARENT, [])] = b ".."
  /\ b "../" <> b "..".
Proof. repeat split; try reflexivity. discriminate. Qed.

(** The same entry read through [unpack_susp] under Rock Ridge. *)
Example SL_example_unpack_susp :
  fst (unpack_susp 21 0 (rr_buffer_world (SL_bytes 0 example_components) 0))
  = Ok (Some (SL 0 (b "/../etc/hosts"))).
Proof. reflexivity. Qed.

(** ** Computations that only move the window and the cursor *)

Lemma frame_ret {A} (a : A) : frame (ret a).
Proof. intros w. repeat split. Qed.

Lemma frame_raise {A} e : frame (@raise A e).
Proof. intros w. repeat split. Qed.

Lemma frame_diverge {A} : frame (@diverge A).
Proof. intros w. repeat split. Qed.

Lemma frame_get_source : frame get_source.
Proof. intros w. repeat split. Qed.

Lemma frame_bind {A B} (m : M A) (k : A -> M B) :
  frame m -> (forall a, frame (k a)) -> frame (bind m k).
Proof.
  intros Hm Hk w. unfold bind. specialize (Hm w).
  destruct (m w) as [[a|e|] w1]; simpl in *; [|exact Hm..].
  destruct (Hk a w1) as (H1 & H2 & H3). destruct Hm as (H4 & H5 & H6).
  repeat split; congruence.
Qed.

Lemma frame_try {A} (m h : M A) : frame m -> frame h -> frame (try_except_SUSPError m h).
Proof.
  intros Hm Hh w. unfold try_except_SUSPError. specialize (Hm w).
  destruct (m w) as [[a|e|] w1]; simpl in *; try exact Hm.
  destruct e; simpl; try exact Hm.
  destruct (Hh w1) as (H1 & H2 & H3). destruct Hm as (H4 & H5 & H6).
  repeat split; congruence.
Qed.

Create HintDb frame.

Ltac frame_step :=
  first
    [ solve [auto with frame]
    | apply frame_ret | apply frame_raise | apply frame_diverge
    | apply frame_get_source
    | apply frame_try
    | apply frame_bind; [|intros]
    | match goal with
      | |- frame (if ?c then _ else _) => destruct c
      | |- frame (match ?x with _ => _ end) => destruct x
      | |- frame (let (_, _) := ?x in _) => destruct x
      end ].

Ltac frame_tac := repeat frame_step.

Lemma frame_cursor : frame cursor.
Proof. unfold cursor. frame_tac. Qed.
#[local] Hint Resolve frame_cursor : frame.

Lemma frame_cursor_opt : frame cursor_opt.
Proof. unfold cursor_opt. frame_tac. Qed.
#[local] Hint Resolve frame_cursor_opt : frame.

Lemma frame_need_int o : frame (need_int o).
Proof. unfold need_int. frame_tac. Qed.
#[local] Hint Resolve frame_need_int : frame.

Lemma frame_set_cursor q : frame (set_cursor q).
Proof.
  intros w. unfold set_cursor, bind, get_source, set_source, raise.
  destruct (_buff (source w)); repeat split.
Qed.
#[local] Hint Resolve frame_set_cursor : frame.

Lemma frame_rewind_raw l : frame (rewind_raw l).
Proof. unfold rewind_raw. frame_tac. Qed.
#[local] Hint Resolve frame_rewind_raw : frame.

Lemma frame_unpack_raw l : frame (unpack_raw l).
Proof.
  intros w. unfold unpack_raw, bind, get_source, set_source, raise, ret.
  destruct (_buff (source w)); [|repeat split]. simpl.
  destruct (_ <? l); repeat split.
Qed.
#[local] Hint Resolve frame_unpack_raw : frame.

Lemma frame_of_struct {A} (o : option A) : frame (of_struct o).
Proof. unfold of_struct. frame_tac. Qed.
#[local] Hint Resolve frame_of_struct : frame.

Lemma frame_unpack st : frame (unpack st).
Proof. unfold unpack. frame_tac. Qed.
#[local] Hint Resolve frame_unpack : frame.

Lemma frame_unpack1 c : frame (unpack1 c).
Proof. unfold unpack1. frame_tac. Qed.
#[local] Hint Resolve frame_unpack1 : frame.

Lemma frame_unpack_both c : frame (unpack_both c).
Proof. unfold unpack_both, _unpack_both. frame_tac. Qed.
#[local] Hint Resolve frame_unpack_both : frame.

Lemma frame_susp_assert c : frame (susp_assert c).
Proof. unfold susp_assert. frame_tac. Qed.
#[local] Hint Resolve frame_susp_assert : frame.

Lemma frame_py_assert c : frame (py_assert c).
Proof. unfold py_assert. frame_tac. Qed.
#[local] Hint Resolve frame_py_assert : frame.

Lemma frame__unpack_dir_datetime t : frame (_unpack_dir_datetime t).
Proof. unfold _unpack_dir_datetime. frame_tac. Qed.
#[local] Hint Resolve frame__unpack_dir_datetime : frame.

Lemma frame_unpack_lazy_dir_datetime : frame unpack_lazy_dir_datetime.
Proof. unfold unpack_lazy_dir_datetime. frame_tac. Qed.
#[local] Hint Resolve frame_unpack_lazy_dir_datetime : frame.

Lemma frame_smart_values plan : forall vals, frame (smart_values plan vals).
Proof.
  induction plan as [|h plan IH]; intros vals; [destruct vals; apply frame_ret|].
  destruct vals as [|[v v'] vals]; [apply frame_ret|].
  cbn [smart_values]. destruct h; frame_tac.
Qed.
#[local] Hint Resolve frame_smart_values : frame.

Lemma frame_unpack_smart st : frame (unpack_smart st).
Proof. unfold unpack_smart. frame_tac. Qed.
#[local] Hint Resolve frame_unpack_smart : frame.

Lemma frame_SL_loop fuel : forall target flags path, frame (SL_loop fuel target flags path).
Proof.
  induction fuel as [|fuel IH]; intros target flags path; cbn [SL_loop]; frame_tac.
Qed.
#[local] Hint Resolve frame_SL_loop : frame.

Lemma frame_TF_stamps flags sel : frame (TF_stamps flags sel).
Proof.
  induction sel as [|bit sel IH]; cbn [TF_stamps]; unfold unpack_vd_datetime; frame_tac.
Qed.
#[local] Hint Resolve frame_TF_stamps : frame.

Lemma frame_UnknownEntry_init sv l : frame (UnknownEntry_init sv l).
Proof. unfold UnknownEntry_init. frame_tac. Qed.
#[local] Hint Resolve frame_UnknownEntry_init : frame.

Lemma frame_SUSP_Entry_unpack ext sv l : frame (SUSP_Entry_unpack ext sv l).
Proof.
  unfold SUSP_Entry_unpack, SP_init, CE_init, ST_init, ER_init, RR_init, PX_init,
    PN_init, SL_init, NM_init, TF_init.
  frame_tac.
Qed.

Lemma frame_unpack_susp_with dec maxlen pe :
  (forall ext sv l, frame (dec ext sv l)) -> frame (unpack_susp_with dec maxlen pe).
Proof. intros Hdec. unfold unpack_susp_with. frame_tac. Qed.

Lemma frame_unpack_susp maxlen pe : frame (unpack_susp maxlen pe).
Proof. apply frame_unpack_susp_with, frame_SUSP_Entry_unpack. Qed.
#[local] Hint Resolve frame_unpack_susp : frame.

Lemma frame_seek sector l c : frame (seek sector l c).
Proof. intros w. unfold seek, bind, get_source, set_source. repeat split. Qed.
#[local] Hint Resolve frame_seek : frame.

Lemma frame_susp_run fuel : forall g, frame (susp_run fuel g).
Proof.
  induction fuel as [|fuel IH]; intros g; cbn [susp_run]; frame_tac.
Qed.

Lemma frame_susp_next g : frame (susp_next g).
Proof. apply frame_susp_run. Qed.

(** ** The SUSP walk and Record.name *)


Lemma walk_take_frame n : forall g w es g' w',
  walk_take n g w = Some (es, g', w') ->
  records w' = records w /\ dicts w' = dicts w.
Proof.
  induction n as [|n IH]; intros g w es g' w' H; cbn [walk_take] in H.
  - inversion H; subst. split; reflexivity.
  - pose proof (frame_susp_next g w) as Hf.
    destruct (susp_next g w) as [[[[e g1]|]|e|] w1]; try discriminate.
    destruct (walk_take n g1 w1) as [[[es1 g2] w2]|] eqn:E; [|discriminate].
    inversion H; subst. destruct (IH _ _ _ _ _ E) as [H1 H2]. simpl in Hf.
    destruct Hf as (H3 & H4 & _). split; congruence.
Qed.

Lemma nm_concat_cons_other e es : nm_fragment e = None -> nm_concat (e :: es) = nm_concat es.
Proof. intros H. unfold nm_concat. simpl. now rewrite H. Qed.

Lemma nm_concat_cons_NM f x es : nm_concat (NM f (Some x) :: es) = x ++ nm_concat es.
Proof. reflexivity. Qed.

Lemma nm_concat_app es1 es2 : nm_concat (es1 ++ es2) = nm_concat es1 ++ nm_concat es2.
Proof.
  induction es1 as [|e es1 IH]; [reflexivity|].
  cbn [app]. destruct (nm_fragment e) as [x|] eqn:E.
  - destruct e; try discriminate. destruct name; [|discriminate]. inversion E; subst.
    rewrite !nm_concat_cons_NM, IH. now rewrite app_assoc.
  - now rewrite !nm_concat_cons_other.
Qed.

(** The name loop runs through a prefix of the walk whose [NM] entries all
    continue. *)
Lemma name_loop_open n : forall g w es g1 w1 fuel acc,
  walk_take n g w = Some (es, g1, w1) -> chain_open es = true ->
  name_loop (n + fuel) g acc w = name_loop fuel g1 (acc ++ nm_concat es) w1.
Proof.
  induction n as [|n IH]; intros g w es g1 w1 fuel acc H Hopen; cbn [walk_take] in H.
  - inversion H; subst. unfold nm_concat. cbn. now rewrite app_nil_r.
  - destruct (susp_next g w) as [[[[e g2]|]|e|] w2] eqn:En; try discriminate.
    destruct (walk_take n g2 w2) as [[[es1 g3] w3]|] eqn:E; [|discriminate].
    inversion H; subst. cbn [chain_open forallb] in Hopen.
    apply andb_prop in Hopen as [He Hopen].
    cbn [Nat.add name_loop]. erewrite bind_Ok; [|exact En].
    destruct e; try (rewrite nm_concat_cons_other by reflexivity; now apply IH).
    destruct name as [x|]; [|discriminate].
    destruct (Z.land flags NM_CONTINUE =? 0); [discriminate|].
    rewrite nm_concat_cons_NM, app_assoc. now apply IH.
Qed.

Lemma get_record_spec self r w : records w !! self = Some r -> get_record self w = (Ok r, w).
Proof. intros H. unfold get_record. now rewrite H. Qed.

Lemma name_loop_frame fuel : forall g acc, frame (name_loop fuel g acc).
Proof.
  induction fuel as [|fuel IH]; intros g acc; cbn [name_loop]; [apply frame_diverge|].
  apply frame_bind; [apply frame_susp_next|]. intros [[e g']|]; [|apply frame_ret].
  destruct e; try apply IH. destruct name; [|apply frame_raise].
  destruct (_ =? 0); [apply frame_ret|apply IH].
Qed.

(** ** NM entries without a name *)

(** Reading one byte with '<B'. *)
Lemma unpack1_B_at w data pos :
  buffer w data pos -> 0 <= pos -> pos + 1 <= len data ->
  unpack1 c_B w = (Ok (ord_at data pos), at_cursor w (pos + 1)).
Proof.
  intros Hb Hp Hlen. unfold unpack1, unpack.
  erewrite bind_Ok.
  2:{ erewrite bind_Ok; [|apply (unpack_raw_ok _ _ _ 1 Hb); lia].
      unfold struct_unpack.
      replace (len (slice pos (pos + 1) data) =? calcsize [FInt c_B]) with true
        by (symmetry; apply Z.eqb_eq; rewrite len_slice by lia; unfold calcsize; simpl; lia).
      reflexivity. }
  cbn [struct_fields fitem_size code_size].
  unfold ord_at. replace (take 1 (slice pos (pos + 1) data)) with (slice pos (pos + 1) data).
  - reflexivity.
  - unfold slice. rewrite take_take. f_equal. lia.
Qed.

(** A typed decode that stops exactly at the end of the entry is returned
    as it is. *)
Lemma unpack_susp_clean (dec : decoder) (maxlen possible_extension : Z)
    (w : World) (data : str) (pos : Z) scope e w2 :
  buffer w data pos -> 0 <= pos ->
  let signature := fst (fst (susp_header data pos)) in
  let length := snd (fst (susp_header data pos)) in
  let version := snd (susp_header data pos) in
  4 <= maxlen -> length <= maxlen -> pos + 4 <= len data ->
  ext_id_ver_of (source w) possible_extension = Some scope ->
  dec scope (signature, version) (length - 4) (at_cursor w (pos + 4)) = (Ok e, w2) ->
  buffer w2 data (pos + length) ->
  unpack_susp_with dec maxlen possible_extension w = (Ok (Some e), w2).
Proof.
  intros Hb Hp signature length version Hm Hlm Hlen Hscope Hdec Hb2.
  unfold unpack_susp_with.
  destruct (maxlen <? 4) eqn:E; [lia|]. cbv beta iota.
  erewrite bind_Ok; [|apply (cursor_opt_spec _ _ _ Hb)].
  erewrite bind_Ok; [|apply (unpack_header _ _ _ Hb Hp); lia].
  cbv beta iota. fold signature length version.
  destruct (maxlen <? length) eqn:E2; [lia|]. cbv beta iota.
  unfold bind at 1, get_source at 1.
  rewrite ext_id_ver_of_at_cursor, Hscope.
  unfold bind at 1, ret at 1. unfold bind at 1, need_int, ret at 1.
  erewrite bind_Ok.
  2:{ erewrite try_except_Ok; [reflexivity|].
      erewrite bind_Ok; [|exact Hdec]. reflexivity. }
  erewrite bind_Ok; [|apply (cursor_spec _ _ _ Hb2)].
  rewrite Z.eqb_refl. cbn [negb]. cbv beta iota.
  erewrite bind_Ok; [|reflexivity].
  erewrite bind_Ok; [|apply (cursor_spec _ _ _ Hb2)].
  rewrite Z.eqb_refl. reflexivity.
Qed.

Lemma NM_init_no_name (length : Z) (w : World) (data : str) (pos : Z) :
  buffer w data pos -> 0 <= pos -> 1 <= length -> pos + length <= len data ->
  ord_at data pos <> 0 -> ord_at data pos <> NM_CONTINUE ->
  ord_at data pos <> NM_CURRENT -> ord_at data pos <> NM_PARENT ->
  NM_init length w = (Ok (NM (ord_at data pos) None), at_cursor w (pos + length)).
Proof.
  intros Hb Hp Hl Hlen H0 H1 H2 H4. unfold NM_init.
  erewrite bind_Ok.
  2:{ unfold susp_assert. destruct (1 <=? length) eqn:E; [reflexivity|lia]. }
  erewrite bind_Ok; [|apply (unpack1_B_at _ _ _ Hb); lia].
  pose proof (buffer_at_cursor _ _ _ (pos + 1) Hb) as Hb1.
  erewrite bind_Ok; [|apply (unpack_raw_ok _ _ _ (length - 1) Hb1); lia].
  rewrite (at_cursor_at_cursor _ _ _ _ _ Hb).
  replace (pos + 1 + (length - 1)) with (pos + length) by lia.
  destruct (Z.eqb_spec (ord_at data pos) NM_CURRENT); [contradiction|].
  destruct (Z.eqb_spec (ord_at data pos) NM_PARENT); [contradiction|].
  destruct (Z.eqb_spec (ord_at data pos) 0); [contradiction|].
  destruct (Z.eqb_spec (ord_at data pos) NM_CONTINUE); [contradiction|].
  reflexivity.
Qed.

(** C10 (amended).  An [NM] entry whose flags byte is none of 0, CONTINUE,
    CURRENT, PARENT is decoded without a SUSP decode error, consuming
    exactly its declared length, and comes out of [unpack_susp] as an [NM]
    entry without the attribute [name] (not as an [UnknownEntry]); reading
    [record.name] raises the attribute error as soon as the name loop
    reaches such an entry, that is when every [NM] entry yielded before it
    has a name and its CONTINUE flag set. *)
Theorem NM_without_name (maxlen : Z) (w : World) (data : str) (pos : Z) :
  buffer w data pos -> 0 <= pos ->
  let length := snd (fst (susp_header data pos)) in
  let flags := ord_at data (pos + 4) in
  fst (fst (susp_header data pos)) = b "NM" -> snd (susp_header data pos) = 1 ->
  ext_id_ver_of (source w) 0 = Some (Some RRIP_109) ->
  5 <= length -> length <= maxlen -> pos + length <= len data ->
  flags <> 0 -> flags <> NM_CONTINUE -> flags <> NM_CURRENT -> flags <> NM_PARENT ->
  NM_init (length - 4) (at_cursor w (pos + 4))
  = (Ok (NM flags None), at_cursor w (pos + length))
  /\ unpack_susp maxlen 0 w = (Ok (Some (NM flags None)), at_cursor w (pos + length))
  /\ (forall self r w0 fuel n es g1 w1 g2 w2,
        records w0 !! self = Some r ->
        walk_take n (susp_entries_unsafe r) w0 = Some (es, g1, w1) ->
        chain_open es = true ->
        susp_next g1 w1 = (Ok (Some (NM flags None, g2)), w2) ->
        (n < fuel)%nat ->
        Record_name fuel self w0 = (Raise AttributeError, w2)).
Proof.
  intros Hb Hp length flags Hsig Hver Hscope Hl5 Hlm Hlen H0 H1 H2 H4.
  pose proof (buffer_at_cursor _ _ _ (pos + 4) Hb) as Hb4.
  assert (Hnm : NM_init (length - 4) (at_cursor w (pos + 4))
                = (Ok (NM flags None), at_cursor w (pos + length))).
  { rewrite (NM_init_no_name (length - 4) _ data (pos + 4) Hb4) by (auto; lia).
    rewrite (at_cursor_at_cursor _ _ _ _ _ Hb). fold flags.
    replace (pos + 4 + (length - 4)) with (pos + length) by lia. reflexivity. }
  split; [exact Hnm|]. split.
  - unfold unpack_susp.
    apply (unpack_susp_clean SUSP_Entry_unpack maxlen 0 w data pos (Some RRIP_109)); auto;
      try lia.
    + rewrite Hsig, Hver. exact Hnm.
    + apply (buffer_at_cursor _ _ _ _ Hb).
  - intros self r w0 fuel n es g1 w1 g2 w2 Hr Hw Ho Hn Hfuel.
    unfold Record_name.
    erewrite bind_Ok; [|apply (get_record_spec _ _ _ Hr)].
    erewrite bind_Raise; [reflexivity|].
    replace fuel with (n + S (fuel - S n))%nat by lia.
    rewrite (name_loop_open _ _ _ _ _ _ _ _ Hw Ho). cbn [name_loop].
    erewrite bind_Ok; [|exact Hn]. reflexivity.
Qed.

(** ** Computations that leave the settings of the source alone *)

Lemma keeps_frame {A} (m : M A) : frame m -> keeps_settings m.
Proof. intros H w. apply H. Qed.

Lemma keeps_ret {A} (a : A) : keeps_settings (ret a).
Proof. intros w. reflexivity. Qed.

Lemma keeps_bind {A B} (m : M A) (k : A -> M B) :
  keeps_settings m -> (forall a, keeps_settings (k a)) -> keeps_settings (bind m k).
Proof.
  intros Hm Hk w. unfold bind. specialize (Hm w).
  destruct (m w) as [[a|e|] w1]; simpl in *; [|exact Hm..].
  rewrite (Hk a w1). exact Hm.
Qed.

Lemma keeps_new_dict : keeps_settings new_dict.
Proof. intros w. reflexivity. Qed.

Lemma keeps_new_record r : keeps_settings (new_record r).
Proof. intros w. reflexivity. Qed.

Lemma keeps_get_record self : keeps_settings (get_record self).
Proof. intros w. unfold get_record. now destruct (records w !! self). Qed.

Lemma keeps_set_record self r : keeps_settings (set_record self r).
Proof. intros w. reflexivity. Qed.

Lemma keeps_susp_area_loop fuel : forall target acc, keeps_settings (susp_area_loop fuel target acc).
Proof.
  induction fuel as [|fuel IH]; intros target acc; cbn [susp_area_loop]; [intros w; reflexivity|].
  apply keeps_bind; [apply keeps_frame, frame_cursor|]. intros c.
  apply keeps_bind; [apply keeps_frame, frame_unpack_susp|]. intros [e|]; [|apply keeps_ret].
  destruct (is_ST e); [apply keeps_ret|apply IH].
Qed.

Lemma frame_susp_skip_prefix t : frame (susp_skip_prefix t).
Proof. unfold susp_skip_prefix. frame_tac. Qed.

Lemma keeps_Record_system_use target t : keeps_settings (Record_system_use target t).
Proof.
  unfold Record_system_use. apply keeps_bind.
  - apply keeps_frame. frame_tac.
  - intros probe. destruct (is_not_False (snd probe)); [|apply keeps_ret].
    apply keeps_bind; [apply keeps_frame, frame_susp_skip_prefix|]. intros _.
    apply keeps_bind; [apply keeps_frame, frame_cursor|]. intros c.
    apply keeps_susp_area_loop.
Qed.

Lemma frame_unpack_string l : frame (unpack_string l).
Proof. unfold unpack_string. frame_tac. Qed.

Lemma frame_unpack_dir_datetime : frame unpack_dir_datetime.
Proof. unfold unpack_dir_datetime. frame_tac. Qed.

Lemma keeps_Record_init length t : keeps_settings (Record_init length t).
Proof.
  unfold Record_init.
  apply keeps_bind; [apply keeps_new_dict|]. intros d.
  repeat (apply keeps_bind;
          [first [ apply keeps_Record_system_use
                 | apply keeps_frame;
                   first [apply frame_unpack_string | apply frame_unpack_dir_datetime | frame_tac] ]
          | intros ]).
  apply keeps_new_record.
Qed.

Lemma keeps_unpack_record : keeps_settings unpack_record.
Proof.
  unfold unpack_record.
  apply keeps_bind; [apply keeps_frame, frame_cursor_opt|]. intros sc.
  apply keeps_bind; [apply keeps_frame, frame_unpack1|]. intros l.
  destruct (l =? 0).
  - apply keeps_frame. unfold rewind. frame_tac.
  - apply keeps_bind; [apply keeps_frame, frame_get_source|]. intros s.
    apply keeps_bind; [apply keeps_Record_init|]. intros r.
    apply keeps_frame. frame_tac.
Qed.


Lemma frame_susp_collect fuel : forall g, frame (susp_collect fuel g).
Proof.
  induction fuel as [|fuel IH]; intros g; cbn [susp_collect]; [apply frame_diverge|].
  apply frame_bind; [apply frame_susp_next|]. intros [[e g']|]; [|apply frame_ret].
  apply frame_bind; [apply IH|]. intros es. apply frame_ret.
Qed.

Lemma keeps_susp_entries fuel self : keeps_settings (susp_entries fuel self).
Proof.
  unfold susp_entries. apply keeps_bind; [apply keeps_get_record|]. intros r.
  apply keeps_frame, frame_susp_collect.
Qed.

Lemma settings_rockridge s1 s2 : settings s1 = settings s2 -> rockridge s1 = rockridge s2.
Proof. unfold settings. intros H. now inversion H. Qed.

Lemma settings_susp_starting_index s1 s2 :
  settings s1 = settings s2 -> susp_starting_index s1 = susp_starting_index s2.
Proof. unfold settings. intros H. now inversion H. Qed.

(** ** ISO.__init__: SUSP and Rock Ridge detection *)



(** What [ISO_check_susp] does once the root "." record has been read. *)
Lemma ISO_check_susp_inv fuel root w w' :
  ISO_check_susp fuel root w = (Ok tt, w') ->
  exists root_record r w1,
    current_directory root w = (Ok (Some root_record), w1) /\
    records w1 !! root_record = Some r /\
    ((exists len_skp rest es w2,
        embedded_susp_entries r = SP len_skp :: rest /\
        susp_entries fuel root_record (with_susp_starting_index w1 (PyInt len_skp))
        = (Ok es, w2) /\
        susp_starting_index (source w') = PyInt len_skp /\
        rockridge (source w')
        = (existsb in_EXT_VERSIONS (List.filter is_ER es) || rockridge (source w1)))
     \/ ((forall len_skp rest, embedded_susp_entries r <> SP len_skp :: rest) /\
         susp_starting_index (source w') = PyFalse /\
         rockridge (source w') = rockridge (source w1))).
Proof.
  intros H. unfold ISO_check_susp in H. unfold bind at 1 in H.
  destruct (current_directory root w) as [[[rr|]|e|] w1] eqn:Ecd; try discriminate.
  unfold bind at 1 in H. unfold get_record at 1 in H.
  destruct (records w1 !! rr) as [r|] eqn:Er; [|discriminate].
  exists rr, r, w1. split; [reflexivity|]. split; [exact Er|].
  destruct (embedded_susp_entries r) as [|e0 rest] eqn:Eemb.
  { right. unfold bind, get_source, set_source in H. inversion H; subst. cbn.
    repeat split. intros ? ?; discriminate. }
  destruct e0;
    try (right; unfold bind, get_source, set_source in H; inversion H; subst; cbn;
         repeat split; intros ? ?; discriminate).
  left. unfold bind at 1, get_source at 1 in H. unfold bind at 1, set_source at 1 in H.
  fold (with_susp_starting_index w1 (PyInt len_skp)) in H.
  unfold bind at 1 in H.
  pose proof (keeps_susp_entries fuel rr (with_susp_starting_index w1 (PyInt len_skp))) as Hk.
  destruct (susp_entries fuel rr (with_susp_starting_index w1 (PyInt len_skp)))
    as [[es|e|] w2] eqn:Ese; try discriminate.
  exists len_skp, rest, es, w2. split; [first [exact Eemb|reflexivity]|]. split; [exact Ese|].
  simpl in Hk.
  pose proof (settings_rockridge _ _ Hk) as Hrr.
  pose proof (settings_susp_starting_index _ _ Hk) as Hssi.
  cbn in Hrr, Hssi.
  unfold bind, get_source, set_source in H. cbn in H.
  destruct (existsb in_EXT_VERSIONS (List.filter is_ER es)) eqn:Eex;
    inversion H; subst; cbn; split; auto.
Qed.


(** ** The skip prefix of the system-use area *)

(** C2 (amended).  With [susp_starting_index = 7], which is what the SUSP
    check of [ISO.__init__] stores when the root's [SP] declares
    [len_skp = 7] (last part), the system-use parsing of a record consumes
    exactly seven prefix bytes before it decodes SUSP entries, and raises
    the buffer under-run when fewer are left; only the record that carries
    the [SP] itself, parsed while the index is still unknown, goes on right
    after the [SP] without skipping anything (third part). *)
Theorem skip_prefix_seven (target : Z) (w : World) (data : str) (pos : Z) :
  buffer w data pos -> 0 <= pos ->
  (pos + 7 <= len data ->
     susp_skip_prefix (PyInt 7) w = (Ok tt, at_cursor w (pos + 7)) /\
     Record_system_use target (PyInt 7) w
     = susp_area_loop (S (Z.to_nat (target - (pos + 7)))) target [] (at_cursor w (pos + 7))) /\
  (len data < pos + 7 ->
     Record_system_use target (PyInt 7) w
     = (Raise (SourceError BufferUnderrun), at_cursor w (Z.max pos (len data)))) /\
  (forall w1 c1,
     unpack_susp (target - pos) 0 w = (Ok (Some (SP 7)), w1) -> buffer w1 data c1 ->
     Record_system_use target PyNone w
     = susp_area_loop (S (Z.to_nat (target - c1))) target [SP 7] w1) /\
  (forall fuel root w0 w' root_record r w1 rest,
     ISO_check_susp fuel root w0 = (Ok tt, w') ->
     current_directory root w0 = (Ok (Some root_record), w1) ->
     records w1 !! root_record = Some r ->
     embedded_susp_entries r = SP 7 :: rest ->
     susp_starting_index (source w') = PyInt 7).
Proof.
  intros Hb Hp. split; [|split; [|split]].
  - intros Hlen.
    assert (Hskip : susp_skip_prefix (PyInt 7) w = (Ok tt, at_cursor w (pos + 7))).
    { unfold susp_skip_prefix. cbn [Z.eqb negb].
      erewrite bind_Ok; [|apply (unpack_raw_ok _ _ _ 7 Hb); lia]. reflexivity. }
    split; [exact Hskip|].
    unfold Record_system_use.
    erewrite bind_Ok; [|reflexivity]. cbn [fst snd is_not_False].
    erewrite bind_Ok; [|exact Hskip].
    erewrite bind_Ok; [|apply (cursor_spec _ _ _ (buffer_at_cursor _ _ _ (pos + 7) Hb))].
    reflexivity.
  - intros Hlen. unfold Record_system_use.
    erewrite bind_Ok; [|reflexivity]. cbn [fst snd is_not_False].
    erewrite bind_Raise; [reflexivity|].
    unfold susp_skip_prefix. cbn [Z.eqb negb].
    erewrite bind_Raise; [reflexivity|].
    apply (unpack_raw_underrun _ _ _ 7 Hb); lia.
  - intros w1 c1 Hsp Hb1. unfold Record_system_use.
    erewrite bind_Ok.
    2:{ erewrite bind_Ok; [|apply (cursor_spec _ _ _ Hb)].
        erewrite bind_Ok; [|exact Hsp]. reflexivity. }
    cbn [fst snd Z.ltb Z.compare Pos.compare Pos.compare_cont is_not_False].
    erewrite bind_Ok; [|reflexivity].
    erewrite bind_Ok; [|apply (cursor_spec _ _ _ Hb1)].
    reflexivity.
  - intros fuel root w0 w' rr r w1 rest H Hcd Hr Hemb.
    destruct (ISO_check_susp_inv _ _ _ _ H) as (rr' & r' & w1' & Hcd' & Hr' & Hcase).
    rewrite Hcd in Hcd'. inversion Hcd'; subst rr' w1'.
    rewrite Hr in Hr'. inversion Hr'; subst r'.
    destruct Hcase as [(ls & rest' & es & w2 & Hemb' & _ & Hssi & _)|(Hno & _)].
    + rewrite Hemb in Hemb'. inversion Hemb'; subst. exact Hssi.
    + now apply Hno in Hemb.
Qed.

(** ** The SUSP walk after an ST *)

Lemma cursor_pure w c w' : cursor w = (Ok c, w') -> w' = w.
Proof.
  unfold cursor, bind, get_source, ret, raise.
  destruct (cursor_of (source w)); intros H; inversion H; reflexivity.
Qed.

(** C1 (amended).  When the SUSP walk is resumed after it has yielded an
    [ST], what was left of the embedded list and of the current
    continuation area is dropped.  If no [CE] is pending the walk is over,
    and stays so.  If a [CE] is pending the walk goes on in its
    continuation area: the next entry yielded is the first entry of that
    area, and the walk is over when the area holds none. *)
Theorem susp_walk_after_ST (g : susp_gen) (w : World) :
  g_yielded g = Some ST ->
  (g_ce_entry g = None ->
     susp_next g w = (Ok None, w) /\ susp_resume g = stopped /\
     forall w0, susp_next stopped w0 = (Ok None, w0)) /\
  (forall location offset length w1 c,
     g_ce_entry g = Some (CE location offset length) ->
     (seek location (offset + length) false ;; unpack_raw offset ;; cursor) w = (Ok c, w1) ->
     (forall e w2,
        c + length <> 0 ->
        unpack_susp length 0 w1 = (Ok (Some e), w2) ->
        susp_next g w
        = (Ok (Some (e, {| g_embedded_iter := None; g_target := Some (c + length);
                           g_ce_entry := None; g_yielded := Some e |})), w2)) /\
     (forall w2,
        c + length <> 0 ->
        unpack_susp length 0 w1 = (Ok None, w2) ->
        susp_next g w = (Ok None, w2)) /\
     (c + length = 0 -> susp_next g w = (Ok None, w1))).
Proof.
  intros Hy. split.
  - intros Hce. unfold susp_next, susp_resume. rewrite Hy, Hce. cbn [is_ST].
    repeat split.
  - intros location offset length w1 c Hce Hseek.
    assert (Hstart : forall k,
      susp_run (S k) (susp_resume g) w
      = susp_run k {| g_embedded_iter := None; g_target := Some (c + length);
                      g_ce_entry := None; g_yielded := None |} w1).
    { intros k. unfold susp_resume. rewrite Hy, Hce. cbn [is_ST].
      cbn [susp_run g_embedded_iter g_target g_ce_entry target_truthy].
      unfold bind at 1 in Hseek.
      destruct (seek location (offset + length) false w) as [[[]|?|] ws] eqn:Es;
        try discriminate.
      unfold bind at 1 in Hseek.
      destruct (unpack_raw offset ws) as [[raw|?|] wr] eqn:Er; try discriminate.
      pose proof (cursor_pure _ _ _ Hseek) as ->.
      erewrite bind_Ok; [|exact Es].
      erewrite bind_Ok; [|exact Er].
      erewrite bind_Ok; [|exact Hseek]. reflexivity. }
    assert (Hcur : cursor w1 = (Ok c, w1)).
    { unfold bind at 1 in Hseek.
      destruct (seek location (offset + length) false w) as [[[]|?|] ws]; try discriminate.
      unfold bind at 1 in Hseek.
      destruct (unpack_raw offset ws) as [[raw|?|] wr]; try discriminate.
      now pose proof (cursor_pure _ _ _ Hseek) as ->. }
    unfold susp_next. rewrite Hstart.
    cbn [susp_run g_embedded_iter g_target g_ce_entry].
    unfold target_truthy.
    split; [|split].
    + intros e w2 Hnz Hun.
      destruct (Z.eqb_spec (c + length) 0) as [|_]; [contradiction|].
      cbn [negb need_int]. erewrite bind_Ok; [|reflexivity].
      erewrite bind_Ok; [|exact Hcur].
      replace (c + length - c) with length by lia.
      erewrite bind_Ok; [|exact Hun]. reflexivity.
    + intros w2 Hnz Hun.
      destruct (Z.eqb_spec (c + length) 0) as [|_]; [contradiction|].
      cbn [negb need_int]. erewrite bind_Ok; [|reflexivity].
      erewrite bind_Ok; [|exact Hcur].
      replace (c + length - c) with length by lia.
      erewrite bind_Ok; [|exact Hun]. reflexivity.
    + intros Hz. rewrite Hz. reflexivity.
Qed.

(** ** Examples, witnesses and counterexamples on images *)

(** An [NM] entry with flags 8 comes out of [unpack_susp] without a name. *)
Lemma NM_without_name_witness :
  unpack_susp 6 0 (rr_buffer_world (NM_bytes 8 (b "b")) 0)
  = (Ok (Some (NM 8 None)), at_cursor (rr_buffer_world (NM_bytes 8 (b "b")) 0) 6).
Proof.
  apply (proj1 (proj2 (NM_without_name 6 (rr_buffer_world (NM_bytes 8 (b "b")) 0)
                         (NM_bytes 8 (b "b")) 0 eq_refl ltac:(lia) eq_refl eq_refl eq_refl
                         ltac:(vm_compute; congruence) ltac:(vm_compute; congruence)
                         ltac:(vm_compute; congruence) ltac:(vm_compute; congruence)
                         ltac:(vm_compute; congruence) ltac:(vm_compute; congruence)
                         ltac:(vm_compute; congruence)))).
Defined.

(** C10, as stated, fails on a record that carries such an entry behind a
    complete name: the record holds [NM] "a" with CONTINUE clear and then an
    [NM] with flags 8 and no name, and [record.name] returns "a". *)
Lemma late_bad_NM_counterexample :
  embedded_susp_entries (record_at late_bad_NM_world 4) = [NM 0 (Some (b "a")); NM 8 None]
  /\ Record_name 3 4 late_bad_NM_world = (Ok (b "a"), late_bad_NM_world).
Proof. split; reflexivity. Qed.

(** After the [ST] of the record that embeds [CE; ST], the walk goes to
    sector 2 and yields the [NM] found there. *)
Lemma susp_walk_after_ST_witness :
  susp_next after_ST_frame CE_then_ST_world
  = (Ok (Some (NM 0 (Some (b "late.txt")),
               {| g_embedded_iter := None; g_target := Some (0 + 13);
                  g_ce_entry := None; g_yielded := Some (NM 0 (Some (b "late.txt"))) |})),
     CE_entry_world).
Proof.
  apply (proj1 (proj2 (susp_walk_after_ST after_ST_frame CE_then_ST_world eq_refl)
                  2 0 13 CE_area_world 0 eq_refl ltac:(vm_compute; reflexivity))
           (NM 0 (Some (b "late.txt"))) CE_entry_world);
    [lia | vm_compute; reflexivity].
Defined.

(** C1, as stated, fails on that record: its embedded entries are a [CE]
    and an [ST], and the walk yields the [NM] of the pending continuation
    area after the [ST]; [record.name] is taken from it. *)
Lemma CE_then_ST_counterexample :
  embedded_susp_entries (record_at CE_then_ST_world 4) = [CE 2 0 13; ST]
  /\ fst (susp_entries 10 4 CE_then_ST_world)
     = Ok [CE 2 0 13; ST; NM 0 (Some (b "late.txt"))]
  /\ fst (Record_name 10 4 CE_then_ST_world) = Ok (b "late.txt").
Proof. repeat split; vm_compute; reflexivity. Qed.

(** With [susp_starting_index = 7] the cursor moves seven bytes forward
    before any SUSP entry is decoded. *)
Lemma skip_prefix_seven_witness :
  susp_skip_prefix (PyInt 7) (buffer_world (NM_bytes 0 (b "readme")) 0)
  = (Ok tt, at_cursor (buffer_world (NM_bytes 0 (b "readme")) 0) 7).
Proof.
  apply (proj1 (skip_prefix_seven 0 (buffer_world (NM_bytes 0 (b "readme")) 0)
                  (NM_bytes 0 (b "readme")) 0 eq_refl ltac:(lia))).
  vm_compute. congruence.
Defined.

(** C2, as stated, fails: the root's [SP] declares [len_skp = 7], the
    facade stores 7, and the record of README.TXT, whose system-use area
    starts with an [NM] entry, is parsed seven bytes further on and ends up
    with no SUSP entry at all, although with no prefix skipped the same
    bytes decode to the [NM] entry. *)
Lemma skip_seven_counterexample :
  susp_starting_index (source skip_seven_world) = PyInt 7
  /\ raw_name (record_at skip_seven_world 4) = b "README.TXT"
  /\ embedded_susp_entries (record_at skip_seven_world 4) = []
  /\ fst (Record_system_use 11 (PyInt 0) (rr_buffer_world (NM_bytes 0 (b "readme")) 0))
     = Ok [NM 0 (Some (b "readme"))]
  /\ fst (Record_system_use 11 (PyInt 7) (rr_buffer_world (NM_bytes 0 (b "readme")) 0))
     = Ok [].
Proof. repeat split; vm_compute; reflexivity. Qed.


Example rockridge_detected :
  rockridge (source rockridge_checked_world) = true.
Proof. vm_compute. reflexivity. Qed.



(** ** find_child *)

(** A name found in the child cache is answered with the cached object
    itself, whatever kind of record it is, and nothing changes. *)
Lemma find_child_cache_hit fuel self name w r cache child :
  records w !! self = Some r ->
  dicts w !! _child_cache r = Some cache ->
  cache !! name = Some child ->
  find_child fuel self name w = (Ok child, w).
Proof.
  intros Hr Hd Hc. unfold find_child.
  erewrite bind_Ok; [|apply (get_record_spec _ _ _ Hr)].
  erewrite bind_Ok; [|unfold get_dict; rewrite Hd; reflexivity].
  rewrite Hc. reflexivity.
Qed.

(** Once a scan has exhausted the directory, a miss ends in
    [UnboundLocalError]. *)
Lemma find_child_exhausted_unbound fuel self name w r cache :
  records w !! self = Some r ->
  dicts w !! _child_cache r = Some cache ->
  cache !! name = None ->
  _last_cached_child r = PyFalse ->
  find_child fuel self name w = (Raise UnboundLocalError, w).
Proof.
  intros Hr Hd Hc Hl. unfold find_child.
  erewrite bind_Ok; [|apply (get_record_spec _ _ _ Hr)].
  erewrite bind_Ok; [|unfold get_dict; rewrite Hd; reflexivity].
  rewrite Hc, Hl. reflexivity.
Qed.

(** C8 (code defect).  A miss of [find_child] raises [KeyError] only when
    the call itself has scanned at least one child: the message of the
    [KeyError] is built from the local [child_name], which is unbound when
    the directory has no child to scan or when an earlier scan has already
    exhausted it, and the call then ends in [UnboundLocalError]. *)
Theorem find_child_miss_unbound :
  fst (find_child 10 0 (b "NOFILE") empty_directory_world) = Raise UnboundLocalError
  /\ find_child 10 0 (b "NOFILE") one_file_world = (Raise KeyError, one_file_missed_world)
  /\ _last_cached_child (record_at one_file_missed_world 0) = PyFalse
  /\ fst (find_child 10 0 (b "NOFILE") one_file_missed_world) = Raise UnboundLocalError.
Proof. repeat split; vm_compute; reflexivity. Qed.

(** C9 (code defect).  The first lookup of the file README.TXT scans the
    directory, caches the record (object 4) and returns a copy (object 5);
    the second lookup of the same name hits the cache and returns the
    cached object 4 itself.  Reading [content] through the copy leaves the
    cached record without content; reading it through the result of the
    second lookup stores the file bytes in the cached record. *)
Theorem find_child_cache_hit_returns_cached :
  find_child 10 0 (b "README.TXT") one_file_world = (Ok 5%nat, one_file_found_world)
  /\ dict_at one_file_found_world (_child_cache (record_at one_file_found_world 0))
       !! b "README.TXT" = Some 4%nat
  /\ is_directory (record_at one_file_found_world 4) = 0
  /\ _content (record_at one_file_found_world 4) = None
  /\ _content (record_at (snd (content 5 one_file_found_world)) 4) = None
  /\ find_child 10 0 (b "README.TXT") one_file_found_world = (Ok 4%nat, one_file_found_world)
  /\ fst (content 4 one_file_found_world) = Ok (b "hello")
  /\ _content (record_at (snd (content 4 one_file_found_world)) 4) = Some (b "hello").
Proof. repeat split; vm_compute; reflexivity. Qed.

(** ** The example images are read without error *)

(** The stores used above come from runs that succeed: the SUSP check of
    the facade returns, and the listing of the root yields the one file
    record (object 4). *)
Example example_scans_succeed :
  fst ((ISO_check_susp 10 0%nat ;; children 10 0%nat)
         (file_image 0 (NM_bytes 1 (b "longfile") ++ NM_bytes 0 (b "name.txt")) []))
  = Ok [4%nat]
  /\ fst ((ISO_check_susp 10 0%nat ;; children 10 0%nat)
            (file_image 0 (NM_bytes 0 (b "a") ++ NM_bytes 8 (b "b")) []))
     = Ok [4%nat]
  /\ fst ((ISO_check_susp 10 0%nat ;; children 10 0%nat)
            (file_image 0 (CE_bytes 2 0 13 ++ ST_bytes) (NM_bytes 0 (b "late.txt"))))
     = Ok [4%nat]
  /\ fst ((ISO_check_susp 10 0%nat ;; children 10 0%nat)
            (image_world
               [record_bytes 1 SECTOR_LENGTH 2 [zero] (rockridge_su 7);
                record_bytes 1 SECTOR_LENGTH 2 [chr 1] (zeros 7);
                record_bytes 3 5 0 (b "README.TXT;1") (NM_bytes 0 (b "readme"))]
               []))
     = Ok [4%nat]
  /\ fst (ISO_check_susp 10 0%nat (image_world (dot_records []) [])) = Ok tt
  /\ fst (ISO_check_susp 10 0%nat (file_image 0 [] [])) = Ok tt.
Proof. repeat split; vm_compute; reflexivity. Qed.

(** * Further properties *)

(** ** Inversion of successful runs *)

Lemma bind_inv {A B} (m : M A) (k : A -> M B) w v w' :
  bind m k w = (Ok v, w') -> exists a w1, m w = (Ok a, w1) /\ k a w1 = (Ok v, w').
Proof.
  unfold bind. destruct (m w) as [[a|e|] w1]; try discriminate. eauto.
Qed.

Lemma cursor_inv w c w' : cursor w = (Ok c, w') -> w' = w /\ cursor_of (source w) = Some c.
Proof.
  unfold cursor, bind, get_source. destruct (cursor_of (source w)); intros H; inversion H; auto.
Qed.

Lemma cursor_opt_inv w c w' : cursor_opt w = (Ok c, w') -> w' = w /\ cursor_of (source w) = c.
Proof. unfold cursor_opt, bind, get_source, ret. intros H; inversion H; auto. Qed.

Lemma need_int_inv o w z w' : need_int o w = (Ok z, w') -> o = Some z /\ w' = w.
Proof. destruct o; intros H; inversion H; auto. Qed.

Lemma cursor_of_buffer w c :
  cursor_of (source w) = Some c -> exists data, buffer w data c.
Proof.
  unfold cursor_of, buffer. destruct (_buff (source w)) as [[d p]|]; intros H; inversion H.
  now exists d.
Qed.

Lemma buffer_cursor_of w data pos : buffer w data pos -> cursor_of (source w) = Some pos.
Proof. unfold buffer, cursor_of. now intros ->. Qed.

(** A successful read of [l >= 0] bytes moves the cursor by exactly [l]. *)
Lemma unpack_raw_cursor l w d w' c :
  0 <= l -> cursor_of (source w) = Some c -> unpack_raw l w = (Ok d, w') ->
  cursor_of (source w') = Some (c + l) /\ len d = l.
Proof.
  intros Hl Hc H. apply cursor_of_buffer in Hc as [data Hb].
  unfold unpack_raw, bind, get_source, set_source in H. rewrite Hb in H.
  unfold sio_read in H. cbn [sio_pos sio_data] in H.
  assert (E : (l <? 0) = false) by (apply Z.ltb_ge; lia). rewrite E in H. cbv beta iota zeta in H.
  match type of H with
  | context [len ?t <? l] =>
      destruct (len t <? l) eqn:L; [discriminate|]; apply Z.ltb_ge in L;
      assert (Hlen : len t = l) by (rewrite len_take in *; lia)
  end.
  inversion H; subst. split; [|exact Hlen].
  unfold cursor_of. cbn [source _buff set_buff sio_pos]. f_equal. lia.
Qed.

Lemma get_record_inv self w r w' :
  get_record self w = (Ok r, w') -> w' = w /\ records w !! self = Some r.
Proof.
  unfold get_record. destruct (records w !! self); intros H; inversion H; subst; auto.
Qed.

Lemma py_assert_inv c w u w' : py_assert c w = (Ok u, w') -> c = true /\ w' = w.
Proof. unfold py_assert. destruct c; intros H; inversion H; auto. Qed.

Lemma frame_inv {A} (m : M A) w r w' :
  frame m -> m w = (r, w') ->
  records w' = records w /\ dicts w' = dicts w /\ settings (source w') = settings (source w).
Proof. intros F H. specialize (F w). now rewrite H in F. Qed.

Lemma frame_susp_area_loop fuel : forall target acc, frame (susp_area_loop fuel target acc).
Proof.
  induction fuel as [|fuel IH]; intros target acc; simpl; [apply frame_diverge|].
  frame_tac; try apply IH.
Qed.

Lemma frame_Record_system_use target t : frame (Record_system_use target t).
Proof.
  unfold Record_system_use.
  apply frame_bind.
  - destruct t; frame_tac.
  - intros probe. destruct (is_not_False (snd probe)); [|apply frame_ret].
    apply frame_bind; [apply frame_susp_skip_prefix|intros].
    apply frame_bind; [apply frame_cursor|intros]. apply frame_susp_area_loop.
Qed.

Lemma frame_source_len : frame source_len.
Proof. unfold source_len. frame_tac. Qed.

Lemma frame_unpack_all : frame unpack_all.
Proof. unfold unpack_all. apply frame_bind; [apply frame_source_len|intros; apply frame_unpack_raw]. Qed.

Lemma frame_records {A} (m : M A) w r w' : frame m -> m w = (r, w') -> records w' = records w.
Proof. intros F H. destruct (F w) as (Hr & _). now rewrite H in Hr. Qed.

Lemma frame_Record_name fuel self : frame (Record_name fuel self).
Proof.
  unfold Record_name. intros w. unfold bind, get_record.
  destruct (records w !! self) as [r|] eqn:Hr; [|repeat split].
  pose proof (name_loop_frame fuel (susp_entries_unsafe r) [] w) as Hf.
  destruct (name_loop fuel (susp_entries_unsafe r) [] w) as [[v|x|] w1]; try exact Hf.
  simpl in Hf. destruct Hf as (H1 & H2 & H3).
  destruct (records w1 !! self); simpl; auto.
Qed.

(** ** Both-endian fields *)

Lemma len_le_bytes n : forall v, len (le_bytes n v) = Z.of_nat n.
Proof. unfold len. induction n; intros v; simpl; [reflexivity|]. f_equal. f_equal. 
  specialize (IHn (v / 256)). lia. Qed.

Lemma le_uint_le_bytes n : forall v, le_uint (le_bytes n v) = v mod 256 ^ Z.of_nat n.
Proof.
  induction n; intros v.
  - simpl. now rewrite Z.mod_1_r.
  - cbn [le_bytes le_uint]. rewrite IHn, ord_chr by (apply Z.mod_pos_bound; lia).
    rewrite Nat2Z.inj_succ, Z.pow_succ_r by lia.
    rewrite Z.rem_mul_r by lia. reflexivity.
Qed.

Lemma be_uint_snoc l c : be_uint (l ++ [c]) = be_uint l * 256 + ord c.
Proof. unfold be_uint. now rewrite fold_left_app. Qed.

Lemma be_uint_rev l : be_uint (rev l) = le_uint l.
Proof.
  induction l as [|c r IH]; [reflexivity|].
  simpl rev. rewrite be_uint_snoc, IH. simpl. lia.
Qed.

Ltac eval_pows :=
  repeat match goal with
         | |- context [Z.pow ?a ?e] =>
             let x := eval vm_compute in (Z.pow a e) in change (Z.pow a e) with x
         | H : context [Z.pow ?a ?e] |- _ =>
             let x := eval vm_compute in (Z.pow a e) in change (Z.pow a e) with x in H
         end.

Lemma int_of_le_bytes c v : fits c v = true -> int_of LE c (le_bytes (code_size c) v) = v.
Proof.
  unfold fits, int_of. rewrite le_uint_le_bytes.
  destruct c; simpl code_signed; simpl code_size; cbv iota; unfold to_signed; intros H;
    apply andb_true_iff in H as [H1 H2]; apply Z.leb_le in H1; apply Z.ltb_lt in H2;
    simpl Z.of_nat in *; simpl Z.mul in *; simpl Z.sub in *; eval_pows;
    try (apply Z.mod_small; lia);
    match goal with |- context [Z.ltb ?a ?m] => destruct (Z.ltb_spec a m) end;
    Z.div_mod_to_equations; lia.
Qed.

Lemma int_of_be_bytes c v : fits c v = true -> int_of BE c (be_bytes (code_size c) v) = v.
Proof.
  intros H. apply int_of_le_bytes in H. unfold int_of in *. unfold be_bytes.
  now rewrite be_uint_rev.
Qed.

Lemma calcsize_pair st : calcsize [FInt st; FInt st] = 2 * Z.of_nat (code_size st).
Proof. unfold calcsize. simpl. lia. Qed.

(** [unpack_both] on a field whose two halves are given. *)
Lemma unpack_both_halves st w data pos x y r :
  buffer w data pos -> 0 <= pos <= len data ->
  len x = Z.of_nat (code_size st) -> len y = Z.of_nat (code_size st) ->
  drop (Z.to_nat pos) data = (x ++ y) ++ r ->
  unpack_both st w
  = (if int_of LE st x =? int_of BE st y then Ok (int_of LE st x)
     else Raise (SourceError EndianMismatch),
     at_cursor w (pos + 2 * Z.of_nat (code_size st))).
Proof.
  intros Hb Hp Hx Hy Hd.
  destruct (unpack_raw_prefix _ _ _ _ _ Hb Hp Hd) as (Hr & _ & _).
  assert (Hl : len (x ++ y) = 2 * Z.of_nat (code_size st)) by (rewrite len_app; lia).
  rewrite Hl in Hr.
  unfold unpack_both, _unpack_both.
  rewrite calcsize_pair.
  erewrite bind_Ok; [|erewrite bind_Ok; [|exact Hr]; rewrite !struct_unpack_pair by exact Hl;
                      reflexivity].
  cbv beta iota. simpl fst. simpl snd. cbv beta iota.
  assert (Tx : take (code_size st) (x ++ y) = x).
  { rewrite take_app_length'; [reflexivity|]. unfold len in Hx. lia. }
  assert (Ty : take (code_size st) (drop (code_size st) (x ++ y)) = y).
  { rewrite drop_app_length' by (unfold len in Hx; lia).
    apply take_ge. unfold len in Hy. lia. }
  rewrite Tx, Ty. simpl.
  destruct (int_of LE st x =? int_of BE st y); reflexivity.
Qed.

Lemma unpack_both_both_bytes (st : code) (v : Z) (w : World) (data : str) (pos : Z) (r : str) :
  buffer w data pos -> 0 <= pos <= len data -> fits st v = true ->
  drop (Z.to_nat pos) data = both_bytes (code_size st) v ++ r ->
  unpack_both st w = (Ok v, at_cursor w (pos + 2 * Z.of_nat (code_size st))).
Proof.
  intros Hb Hp Hf Hd. unfold both_bytes in Hd.
  rewrite (unpack_both_halves st w data pos (le_bytes (code_size st) v)
             (be_bytes (code_size st) v) r Hb Hp) ; try exact Hd.
  - rewrite int_of_le_bytes, int_of_be_bytes by exact Hf. now rewrite Z.eqb_refl.
  - apply len_le_bytes.
  - unfold be_bytes, len. rewrite length_rev. apply len_le_bytes.
Qed.

(** X1.  A both-endian field stores a value in little-endian and then in
    big-endian order.  [unpack_both] returns the value when the two halves
    hold the same one, and raises SourceError("Both-endian value mismatch")
    when they hold different ones; either way the whole field is consumed. *)
Theorem unpack_both_round_trip (st : code) (v v' : Z) (w : World) (data : str) (pos : Z)
    (r : str) :
  buffer w data pos -> 0 <= pos <= len data -> fits st v = true -> fits st v' = true ->
  drop (Z.to_nat pos) data = (le_bytes (code_size st) v ++ be_bytes (code_size st) v') ++ r ->
  unpack_both st w
  = (if v =? v' then Ok v else Raise (SourceError EndianMismatch),
     at_cursor w (pos + 2 * Z.of_nat (code_size st))).
Proof.
  intros Hb Hp Hf Hf' Hd.
  rewrite (unpack_both_halves st w data pos (le_bytes (code_size st) v)
             (be_bytes (code_size st) v') r Hb Hp) ; try exact Hd.
  - now rewrite int_of_le_bytes, int_of_be_bytes by assumption.
  - apply len_le_bytes.
  - unfold be_bytes, len. rewrite length_rev. apply len_le_bytes.
Qed.

Lemma unpack_both_round_trip_witness :
  unpack_both c_h (buffer_world (byte 7 ++ both_bytes 2 (-2) ++ byte 9) 1)
  = (if -2 =? -2 then Ok (-2) else Raise (SourceError EndianMismatch),
     at_cursor (buffer_world (byte 7 ++ both_bytes 2 (-2) ++ byte 9) 1)
               (1 + 2 * Z.of_nat (code_size c_h))).
Proof.
  apply (unpack_both_round_trip c_h (-2) (-2) _ (byte 7 ++ both_bytes 2 (-2) ++ byte 9) 1 (byte 9)).
  - reflexivity.
  - vm_compute. split; discriminate.
  - reflexivity.
  - reflexivity.
  - reflexivity.
Defined.

(** ** The cursor: rewind_raw, unpack_boundary, unpack_string *)

Lemma rewind_raw_at (l : Z) (w : World) (data : str) (pos : Z) :
  buffer w data pos -> 0 <= pos ->
  (pos < l -> rewind_raw l w = (Raise (SourceError RewindUnderrun), w)) /\
  (l <= pos -> rewind_raw l w = (Ok tt, at_cursor w (pos - l))).
Proof.
  intros Hb Hp. rewrite (rewind_raw_buffer _ _ _ l Hb).
  split; intros H.
  - apply Z.ltb_lt in H. now rewrite H.
  - assert (E : (pos <? l) = false) by (apply Z.ltb_ge; lia). rewrite E.
    apply (set_cursor_spec _ _ _ _ Hb). lia.
Qed.

(** X2.  [rewind_raw(l)] moves the cursor back by [l] bytes, raises
    SourceError("Rewind buffer under-run") and changes nothing when fewer
    than [l] bytes have been read, and undoes a successful
    [unpack_raw(l)]. *)
Theorem rewind_raw_spec (l : Z) (w : World) (data : str) (pos : Z) :
  buffer w data pos -> 0 <= pos ->
  (pos < l -> rewind_raw l w = (Raise (SourceError RewindUnderrun), w)) /\
  (l <= pos -> rewind_raw l w = (Ok tt, at_cursor w (pos - l))) /\
  (0 <= l -> pos + l <= len data -> (unpack_raw l ;; rewind_raw l) w = (Ok tt, w)).
Proof.
  intros Hb Hp. destruct (rewind_raw_at l w data pos Hb Hp) as [H1 H2].
  split; [exact H1|]. split; [exact H2|]. intros Hl Hd.
  rewrite (bind_Ok _ _ _ _ _ (unpack_raw_ok _ _ _ _ Hb Hp Hl Hd)).
  pose proof (buffer_at_cursor _ _ _ (pos + l) Hb) as Hb'.
  destruct (rewind_raw_at l _ _ _ Hb' ltac:(lia)) as [_ H].
  rewrite H by lia. rewrite (at_cursor_at_cursor _ _ _ _ _ Hb).
  replace (pos + l - l) with pos by lia. now rewrite (at_cursor_same _ _ _ Hb).
Qed.

Lemma rewind_raw_spec_witness :
  (3 < 2 -> rewind_raw 2 (buffer_world (b "abcdef") 3)
            = (Raise (SourceError RewindUnderrun), buffer_world (b "abcdef") 3)) /\
  (2 <= 3 -> rewind_raw 2 (buffer_world (b "abcdef") 3)
             = (Ok tt, at_cursor (buffer_world (b "abcdef") 3) (3 - 2))) /\
  (0 <= 2 -> 3 + 2 <= len (b "abcdef") ->
   (unpack_raw 2 ;; rewind_raw 2) (buffer_world (b "abcdef") 3)
   = (Ok tt, buffer_world (b "abcdef") 3)).
Proof.
  apply (rewind_raw_spec 2 (buffer_world (b "abcdef") 3) (b "abcdef") 3); [reflexivity|lia].
Defined.

Lemma unpack_boundary_at (w : World) (data : str) (pos : Z) :
  buffer w data pos -> 0 <= pos ->
  let next := (pos / SECTOR_LENGTH + 1) * SECTOR_LENGTH in
  pos < next <= pos + SECTOR_LENGTH /\
  (next <= len data ->
     unpack_boundary w = (Ok (slice pos next data), at_cursor w next)) /\
  (len data < next ->
     unpack_boundary w
     = (Raise (SourceError BufferUnderrun), at_cursor w (Z.max pos (len data)))).
Proof.
  intros Hb Hp next. unfold unpack_boundary.
  rewrite (bind_Ok _ _ _ _ _ (cursor_spec _ _ _ Hb)).
  assert (E : SECTOR_LENGTH - pos mod SECTOR_LENGTH = next - pos).
  { subst next. unfold SECTOR_LENGTH. Z.div_mod_to_equations. lia. }
  assert (R : pos < next <= pos + SECTOR_LENGTH).
  { subst next. unfold SECTOR_LENGTH in *. Z.div_mod_to_equations. lia. }
  rewrite E. split; [exact R|]. split; intros H.
  - rewrite (unpack_raw_ok _ _ _ _ Hb Hp) by lia.
    now replace (pos + (next - pos)) with next by lia.
  - apply (unpack_raw_underrun _ _ _ _ Hb Hp); lia.
Qed.

(** X3.  [unpack_boundary] reads up to the next multiple of the sector
    length strictly after the cursor (a whole sector when the cursor is on
    a boundary), and fails with SourceError("Source buffer under-run") when
    the window ends before it. *)
Theorem unpack_boundary_spec (w : World) (data : str) (pos : Z) :
  buffer w data pos -> 0 <= pos ->
  let next := (pos / SECTOR_LENGTH + 1) * SECTOR_LENGTH in
  pos < next <= pos + SECTOR_LENGTH /\
  (next <= len data ->
     unpack_boundary w = (Ok (slice pos next data), at_cursor w next)) /\
  (len data < next ->
     unpack_boundary w
     = (Raise (SourceError BufferUnderrun), at_cursor w (Z.max pos (len data)))).
Proof. apply unpack_boundary_at. Qed.

Lemma unpack_boundary_spec_witness :
  unpack_boundary (buffer_world (zeros 2048) 2048)
  = (Raise (SourceError BufferUnderrun), at_cursor (buffer_world (zeros 2048) 2048) 2048).
Proof.
  destruct (unpack_boundary_spec (buffer_world (zeros 2048) 2048) (zeros 2048) 2048)
    as (_ & _ & H); [reflexivity|lia|].
  apply H. vm_compute. reflexivity.
Defined.

Lemma lstrip_space_spec s :
  exists k, s = repeat " "%char k ++ lstrip_space s /\ head (lstrip_space s) <> Some " "%char.
Proof.
  induction s as [|c r (k & E & H)].
  - exists 0%nat. split; [reflexivity|discriminate].
  - simpl. destruct (Ascii.eqb_spec c " "%char) as [->|Hc].
    + exists (S k). split; [simpl; congruence|exact H].
    + exists 0%nat. split; [reflexivity|]. simpl. congruence.
Qed.

Lemma last_rev {A} (l : list A) : last (rev l) = head l.
Proof. destruct l as [|a l]; [reflexivity|]. simpl. apply last_snoc. Qed.

Lemma rev_repeat {A} (a : A) k : rev (repeat a k) = repeat a k.
Proof.
  induction k; [reflexivity|]. simpl. rewrite IHk.
  change [a] with (repeat a 1). rewrite <- repeat_app.
  now replace (k + 1)%nat with (S k) by lia.
Qed.

Lemma rstrip_space_spec s :
  exists k, s = rstrip_space s ++ repeat " "%char k /\ last (rstrip_space s) <> Some " "%char.
Proof.
  unfold rstrip_space. destruct (lstrip_space_spec (rev s)) as (k & E & H).
  exists k. split.
  - rewrite <- (rev_involutive s) at 1. rewrite E at 1.
    now rewrite rev_app_distr, rev_repeat.
  - now rewrite last_rev.
Qed.

(** X4.  [unpack_string(l)] reads [l] bytes and removes the trailing
    spaces, all of them and nothing else. *)
Theorem unpack_string_spec (l : Z) (w : World) (data : str) (pos : Z) :
  buffer w data pos -> 0 <= pos -> 0 <= l -> pos + l <= len data ->
  exists s k,
    unpack_string l w = (Ok s, at_cursor w (pos + l)) /\
    slice pos (pos + l) data = s ++ repeat " "%char k /\
    last s <> Some " "%char.
Proof.
  intros Hb Hp Hl Hd. unfold unpack_string.
  rewrite (bind_Ok _ _ _ _ _ (unpack_raw_ok _ _ _ _ Hb Hp Hl Hd)).
  destruct (rstrip_space_spec (slice pos (pos + l) data)) as (k & E & H).
  exists (rstrip_space (slice pos (pos + l) data)), k. split; [reflexivity|]. split; assumption.
Qed.

Lemma unpack_string_spec_witness :
  exists s k,
    unpack_string 5 (buffer_world (b "xAB   y") 1)
    = (Ok s, at_cursor (buffer_world (b "xAB   y") 1) (1 + 5)) /\
    slice 1 (1 + 5) (b "xAB   y") = s ++ repeat " "%char k /\
    last s <> Some " "%char.
Proof.
  apply (unpack_string_spec 5 (buffer_world (b "xAB   y") 1) (b "xAB   y") 1);
    [reflexivity|lia|lia|vm_compute; discriminate].
Defined.

Lemma before_semicolon_spec s :
  ~ In ";"%char (before_semicolon s) /\
  exists r, s = before_semicolon s ++ r /\ (r = [] \/ head r = Some ";"%char).
Proof.
  induction s as [|c r (Hn & t & E & Ht)].
  - split; [intros []|]. exists []. split; [reflexivity|now left].
  - simpl. destruct (Ascii.eqb_spec c ";"%char) as [->|Hc].
    + split; [intros []|]. exists (";"%char :: r). split; [reflexivity|now right].
    + split.
      * intros [H|H]; [congruence|contradiction].
      * exists t. split; [simpl; congruence|exact Ht].
Qed.
(** ** seek and the sector cache *)

Lemma fetch_app s a n m :
  0 <= a -> 0 <= n -> 0 <= m -> _fetch s a n ++ _fetch s (a + n) m = _fetch s a (n + m).
Proof.
  intros Ha Hn Hm. unfold _fetch, SECTOR_LENGTH.
  replace (Z.to_nat ((a + n) * 2048)) with (Z.to_nat (a * 2048) + Z.to_nat (2048 * n))%nat by lia.
  rewrite <- drop_drop, take_take_drop. f_equal. lia.
Qed.

Lemma fetch_slice s ns cnt i :
  0 <= ns -> 0 <= i < cnt ->
  slice (i * SECTOR_LENGTH) ((i + 1) * SECTOR_LENGTH) (_fetch s ns cnt) = _fetch s (ns + i) 1.
Proof.
  intros Hns Hi. unfold slice, _fetch, SECTOR_LENGTH.
  rewrite skipn_firstn_comm, take_take, drop_drop. f_equal; [|f_equal]; lia.
Qed.

Lemma xrange_nil lo hi : hi <= lo -> xrange lo hi = [].
Proof. intros H. unfold xrange. now replace (Z.to_nat (hi - lo)) with 0%nat by lia. Qed.

Lemma xrange_cons lo hi : lo < hi -> xrange lo hi = lo :: xrange (lo + 1) hi.
Proof.
  intros H. unfold xrange.
  replace (Z.to_nat (hi - lo)) with (S (Z.to_nat (hi - (lo + 1)))) by lia.
  simpl. f_equal; [lia|]. rewrite <- seq_shift, map_map. apply map_ext. intros; lia.
Qed.

Lemma In_xrange i lo hi : In i (xrange lo hi) -> lo <= i < hi.
Proof.
  unfold xrange. rewrite in_map_iff. intros (k & <- & Hk). apply in_seq in Hk. lia.
Qed.

Lemma fold_insert_coherent s ns cnt : 0 <= ns -> forall l m,
  (forall i, In i l -> 0 <= i < cnt) -> coherent s m ->
  coherent s (fold_left
                (fun m sector_idx =>
                   <[ns + sector_idx :=
                       slice (sector_idx * SECTOR_LENGTH) ((sector_idx + 1) * SECTOR_LENGTH)
                             (_fetch s ns cnt)]> m) l m).
Proof.
  intros Hns. induction l as [|i l IH]; intros m Hl Hm; [exact Hm|].
  simpl. apply IH; [intros; apply Hl; now right|].
  intros k v Hk. apply lookup_insert_Some in Hk as [[<- <-]|[_ Hk]]; [|now apply Hm].
  specialize (Hl i (or_introl eq_refl)). split; [lia|]. now apply fetch_slice.
Qed.

Lemma fetch_needed_coherent s dc ns cnt st :
  0 <= ns -> coherent s (sk_sectors st) -> coherent s (sk_sectors (fetch_needed s dc ns cnt st)).
Proof.
  intros Hns Hc. unfold fetch_needed. simpl. destruct dc; [|exact Hc].
  apply fold_insert_coherent; [exact Hns| |exact Hc].
  intros i Hi. apply In_xrange in Hi. lia.
Qed.

Lemma seek_loop_inv s dc start n : forall k cur st,
  0 <= start <= cur -> seek_inv s start cur st ->
  seek_post s start n (cur + Z.of_nat k)
    (seek_loop s dc start n (xrange cur (cur + Z.of_nat k)) st).
Proof.
  induction k as [|k IH]; intros cur st Hc [Hcoh Hinv].
  - rewrite xrange_nil by lia. simpl. split; [exact Hcoh|].
    destruct (sk_need_start st) as [ns|].
    + destruct Hinv. split; [lia|assumption].
    + exists (cur - start). split; [left; lia|]. split; [lia|assumption].
  - rewrite xrange_cons by lia.
    replace (cur + Z.of_nat (S k)) with (cur + 1 + Z.of_nat k) by lia.
    cbn [seek_loop]. destruct (sk_sectors st !! cur) as [cached|] eqn:Ecur.
    + set (st1 := match sk_need_start st with
                  | Some need_start => _ | None => st end).
      assert (H1 : coherent s (sk_sectors st1) /\ sk_need_start st1 = None
                   /\ sk_written st1 = _fetch s start (cur - start)).
      { subst st1. destruct (sk_need_start st) as [ns|] eqn:Ens.
        - destruct Hinv as [Hns Hw]. cbn [sk_sectors sk_need_start sk_written].
          split; [apply fetch_needed_coherent; [lia|exact Hcoh]|]. split; [reflexivity|].
          unfold fetch_needed. cbn [sk_written]. rewrite Hw.
          replace ns with (start + (ns - start)) at 2 by lia.
          rewrite fetch_app by lia. f_equal. lia.
        - split; [exact Hcoh|]. split; [exact Ens|exact Hinv]. }
      clearbody st1. destruct H1 as (Hc1 & Hn1 & Hw1).
      destruct (start + n <=? cur) eqn:Ebrk.
      * apply Z.leb_le in Ebrk. split; [exact Hc1|]. rewrite Hn1.
        exists (cur - start). split; [right; lia|]. split; [lia|exact Hw1].
      * apply IH; [lia|]. split; [exact Hc1|]. cbn [sk_need_start sk_written]. rewrite Hn1, Hw1.
        destruct (Hcoh _ _ Ecur) as [_ ->].
        replace cur with (start + (cur - start)) at 2 by lia.
        rewrite fetch_app by lia. f_equal. lia.
    + apply IH; [lia|]. destruct (sk_need_start st) as [ns|] eqn:Ens.
      * split; [exact Hcoh|]. rewrite Ens. destruct Hinv. split; [lia|assumption].
      * split; [exact Hcoh|]. cbn [sk_need_start sk_written]. split; [lia|exact Hinv].
Qed.

Lemma take_fetch s start m length :
  0 <= length -> length <= SECTOR_LENGTH * m ->
  take (Z.to_nat length) (_fetch s start m)
  = take (Z.to_nat length) (drop (Z.to_nat (start * SECTOR_LENGTH)) (_file s)).
Proof.
  intros Hl Hm. unfold _fetch. rewrite take_take. f_equal. lia.
Qed.

Lemma seek_window (start_sector length : Z) (is_content : bool) (w : World) :
  0 <= start_sector -> 0 <= length -> coherent (source w) (_sectors (source w)) ->
  exists w',
    seek start_sector length is_content w = (Ok tt, w') /\
    buffer w' (image_window (source w) start_sector length) 0 /\
    _len (source w') = length /\
    coherent (source w') (_sectors (source w')) /\
    records w' = records w /\ dicts w' = dicts w /\
    settings (source w') = settings (source w).
Proof.
  intros Hs Hl Hcoh. unfold seek, bind, get_source, set_source. cbv beta iota.
  set (s := source w).
  set (dc := negb is_content || cache_content s).
  set (n := 1 + (length - 1) / SECTOR_LENGTH).
  set (fs := if dc then Z.max (min_fetch s) n else n).
  assert (Hn : 0 <= n /\ length <= SECTOR_LENGTH * n /\ n <= fs).
  { subst n fs. unfold SECTOR_LENGTH. destruct dc; Z.div_mod_to_equations; lia. }
  destruct Hn as (Hn0 & Hn1 & Hn2).
  set (st0 := {| sk_written := []; sk_sectors := _sectors s; sk_need_start := None |}).
  pose proof (seek_loop_inv s dc start_sector n (Z.to_nat fs) start_sector st0 ltac:(lia)) as HI.
  replace (start_sector + Z.of_nat (Z.to_nat fs)) with (start_sector + fs) in HI by lia.
  specialize (HI ltac:(split; [exact Hcoh|]; simpl; unfold _fetch;
                       now rewrite Z.sub_diag, Z.mul_0_r)).
  set (st1 := seek_loop s dc start_sector n (xrange start_sector (start_sector + fs)) st0) in *.
  clearbody st1. destruct HI as [Hc1 HI].
  set (st2 := match sk_need_start st1 with Some need_start => _ | None => st1 end).
  assert (H2 : coherent s (sk_sectors st2) /\
               exists m, n <= m /\ sk_written st2 = _fetch s start_sector m).
  { subst st2. destruct (sk_need_start st1) as [ns|].
    - destruct HI as [Hns Hw]. split; [apply fetch_needed_coherent; [lia|exact Hc1]|].
      exists fs. split; [lia|]. unfold fetch_needed. cbn [sk_written]. rewrite Hw.
      replace ns with (start_sector + (ns - start_sector)) at 2 by lia.
      rewrite fetch_app by lia. f_equal. lia.
    - destruct HI as (m & Hm & Hm0 & Hw). split; [exact Hc1|]. exists m.
      split; [lia|exact Hw]. }
  clearbody st2. destruct H2 as (Hc2 & m & Hm & Hw2).
  eexists. split; [reflexivity|]. unfold buffer. cbn [source _buff _len _sectors records dicts].
  split; [|split; [reflexivity|split; [exact Hc2|split; [reflexivity|split; reflexivity]]]].
  rewrite Hw2, take_fetch by (unfold SECTOR_LENGTH in *; lia). reflexivity.
Qed.

Lemma coherent_empty s : coherent s ∅.
Proof. intros k v H. rewrite lookup_empty in H. discriminate. Qed.

(** X5.  Provided the sectors in the cache hold what the image holds,
    [seek(start_sector, length)] installs as window the [length] bytes of
    the image that start at that sector, with the cursor at 0 and
    [len(source)] equal to [length], whatever part of them comes from the
    cache; the sectors it adds to the cache hold what the image holds, and
    records, dictionaries and settings are left alone. *)
Theorem seek_spec (start_sector length : Z) (is_content : bool) (w : World) :
  0 <= start_sector -> 0 <= length -> coherent (source w) (_sectors (source w)) ->
  exists w',
    seek start_sector length is_content w = (Ok tt, w') /\
    buffer w' (image_window (source w) start_sector length) 0 /\
    _len (source w') = length /\
    coherent (source w') (_sectors (source w')) /\
    records w' = records w /\ dicts w' = dicts w /\
    settings (source w') = settings (source w).
Proof. apply seek_window. Qed.

Lemma seek_spec_witness :
  exists w',
    seek 0 5 false small_file_world = (Ok tt, w') /\
    buffer w' (image_window (source small_file_world) 0 5) 0 /\
    _len (source w') = 5 /\
    coherent (source w') (_sectors (source w')) /\
    records w' = records small_file_world /\ dicts w' = dicts small_file_world /\
    settings (source w') = settings (source small_file_world).
Proof.
  apply (seek_spec 0 5 false small_file_world); [lia|lia|apply coherent_empty].
Defined.

Lemma xrange_In i lo hi : lo <= i < hi -> In i (xrange lo hi).
Proof.
  intros H. unfold xrange. apply in_map_iff. exists (Z.to_nat (i - lo)).
  split; [lia|]. apply in_seq. lia.
Qed.

Lemma fold_insert_cached (f : Z -> str) ns : forall (l : list Z) (m : gmap Z str) k,
  is_Some (m !! k) \/ (exists i, In i l /\ k = ns + i) ->
  is_Some (fold_left (fun m sector_idx => <[ns + sector_idx := f sector_idx]> m) l m !! k).
Proof.
  induction l as [|i l IH]; intros m k H.
  - destruct H as [H|(i & [] & _)]. exact H.
  - simpl. apply IH. destruct H as [H|(j & [<-|Hj] & ->)].
    + left. apply lookup_insert_is_Some. destruct (decide (ns + i = k)); auto.
    + left. apply lookup_insert_is_Some. now left.
    + right. eauto.
Qed.

Lemma fetch_needed_cached s ns cnt st k :
  is_Some (sk_sectors st !! k) \/ ns <= k < ns + cnt ->
  is_Some (sk_sectors (fetch_needed s true ns cnt st) !! k).
Proof.
  intros H. unfold fetch_needed. cbn [sk_sectors].
  apply (fold_insert_cached
           (fun sector_idx => slice (sector_idx * SECTOR_LENGTH) ((sector_idx + 1) * SECTOR_LENGTH)
                                    (_fetch s ns cnt))).
  destruct H as [H|H]; [now left|right].
  exists (k - ns). split; [apply xrange_In; lia|lia].
Qed.

Lemma seek_loop_cached s start n : forall j cur st,
  start <= cur -> start + n <= cur + Z.of_nat j ->
  (forall k, start <= k < match sk_need_start st with None => cur | Some ns => ns end ->
             is_Some (sk_sectors st !! k)) ->
  match sk_need_start st with None => True | Some ns => ns < cur end ->
  let st' := seek_loop s true start n (xrange cur (cur + Z.of_nat j)) st in
  forall k, start <= k < start + n ->
            match sk_need_start st' with None => True | Some ns => k < ns end ->
            is_Some (sk_sectors st' !! k).
Proof.
  induction j as [|j IH]; intros cur st Hc Hhi Hinv Hns.
  - rewrite xrange_nil by lia. simpl. intros k Hk Hb. apply Hinv.
    destruct (sk_need_start st); lia.
  - rewrite xrange_cons by lia.
    replace (cur + Z.of_nat (S j)) with (cur + 1 + Z.of_nat j) in * by lia.
    cbn [seek_loop]. destruct (sk_sectors st !! cur) as [cached|] eqn:Ecur.
    + match goal with
      | |- context [if _ then ?x else _] => set (st1 := x)
      end.
      assert (H1 : sk_need_start st1 = None /\
                   forall k, start <= k < cur + 1 -> is_Some (sk_sectors st1 !! k)).
      { subst st1. destruct (sk_need_start st) as [ns|] eqn:Ens.
        - cbn [sk_sectors sk_need_start]. split; [reflexivity|]. intros k Hk.
          apply fetch_needed_cached.
          destruct (Z.lt_ge_cases k ns); [left; apply Hinv; lia|].
          destruct (Z.eq_dec k cur) as [E|]; [left; subst k; eexists; exact Ecur|right; lia].
        - split; [exact Ens|]. intros k Hk.
          destruct (Z.eq_dec k cur) as [E|]; [subst k; eexists; exact Ecur|apply Hinv; lia]. }
      clearbody st1. destruct H1 as [Hn1 Hc1].
      destruct (start + n <=? cur) eqn:Ebrk.
      * apply Z.leb_le in Ebrk. simpl. intros k Hk _. apply Hc1. lia.
      * apply IH; [lia|lia| |]; cbn [sk_need_start sk_sectors]; rewrite Hn1; [exact Hc1|exact I].
    + apply IH; [lia|lia| |].
      * destruct (sk_need_start st) as [ns|] eqn:Ens.
        -- rewrite Ens. exact Hinv.
        -- cbn [sk_need_start sk_sectors]. exact Hinv.
      * destruct (sk_need_start st) as [ns|] eqn:Ens.
        -- rewrite Ens. lia.
        -- cbn [sk_need_start]. lia.
Qed.

(** X6.  After a seek that caches (any seek that is not for content, and
    every seek when [cache_content] is set), each sector of the extent is
    in the sector cache. *)
Theorem seek_caches_extent (start_sector length : Z) (is_content : bool) (w : World) (k : Z) :
  0 <= start_sector -> negb is_content || cache_content (source w) = true ->
  start_sector <= k < start_sector + (1 + (length - 1) / SECTOR_LENGTH) ->
  is_Some (_sectors (source (snd (seek start_sector length is_content w))) !! k).
Proof.
  intros Hs Hdc Hk. unfold seek, bind, get_source, set_source. cbv beta iota. rewrite Hdc.
  cbn [snd source _sectors].
  set (s := source w).
  set (n := 1 + (length - 1) / SECTOR_LENGTH) in *.
  set (fs := Z.max (min_fetch s) n).
  set (st0 := {| sk_written := []; sk_sectors := _sectors s; sk_need_start := None |}).
  pose proof (seek_loop_cached s start_sector n (Z.to_nat fs) start_sector st0
                ltac:(lia) ltac:(lia)) as HI.
  replace (start_sector + Z.of_nat (Z.to_nat fs)) with (start_sector + fs) in HI by lia.
  specialize (HI ltac:(simpl; intros; lia) I). cbv zeta in HI. specialize (HI k Hk).
  set (st1 := seek_loop s true start_sector n (xrange start_sector (start_sector + fs)) st0) in *.
  clearbody st1. destruct (sk_need_start st1) as [ns|] eqn:Ens.
  - apply fetch_needed_cached. destruct (Z.lt_ge_cases k ns); [left; apply HI; lia|right; lia].
  - apply HI. exact I.
Qed.

Lemma seek_caches_extent_witness :
  is_Some (_sectors (source (snd (seek 0 5 false small_file_world))) !! 0).
Proof.
  apply (seek_caches_extent 0 5 false small_file_world 0); [lia|reflexivity|].
  vm_compute. split; [discriminate|reflexivity].
Defined.

Lemma seek_loop_no_caching s start n : forall todo st,
  sk_sectors (seek_loop s false start n todo st) = sk_sectors st.
Proof.
  induction todo as [|sector todo IH]; intros st; [reflexivity|].
  cbn [seek_loop]. destruct (sk_sectors st !! sector).
  - destruct (sk_need_start st); destruct (start + n <=? sector); rewrite ?IH; reflexivity.
  - rewrite IH. destruct (sk_need_start st); reflexivity.
Qed.

(** X7.  A seek for content leaves the sector cache as it is unless
    [cache_content] is set. *)
Theorem seek_content_keeps_cache (start_sector length : Z) (w : World) :
  0 <= start_sector -> cache_content (source w) = false ->
  _sectors (source (snd (seek start_sector length true w))) = _sectors (source w).
Proof.
  intros Hs Hc. unfold seek, bind, get_source, set_source. cbv beta iota. rewrite Hc.
  cbn [negb orb snd source _sectors].
  match goal with
  | |- sk_sectors (match sk_need_start ?st1 with _ => _ end) = _ =>
      destruct (sk_need_start st1); cbn [fetch_needed sk_sectors];
      apply seek_loop_no_caching
  end.
Qed.

Lemma seek_content_keeps_cache_witness :
  _sectors (source (snd (seek 3 5 true one_file_world))) = _sectors (source one_file_world).
Proof.
  apply (seek_content_keeps_cache 3 5 one_file_world); [lia|reflexivity].
Defined.

(** ** FileStream *)

Lemma FileStream_read_extent file args st :
  0 <= fs_offset st -> 0 <= fs_length st ->
  0 <= cur_offset st <= len (stream_extent file st) ->
  let size := match args with Some z => z | None => -1 end in
  let k := if (size <? 0) || (fs_length st - cur_offset st <? size)
           then fs_length st - cur_offset st else size in
  let data := take (Z.to_nat k) (drop (Z.to_nat (cur_offset st)) (stream_extent file st)) in
  FileStream_read file args st
  = (data, {| fs_offset := fs_offset st; fs_length := fs_length st;
              cur_offset := cur_offset st + len data |}).
Proof.
  intros Ho Hl0 Hc size k data.
  assert (Hlen : cur_offset st <= fs_length st).
  { unfold stream_extent in Hc. rewrite len_take in Hc. lia. }
  assert (Hk : 0 <= k <= fs_length st - cur_offset st).
  { subst k. destruct (size <? 0) eqn:E1; simpl; [lia|].
    destruct (fs_length st - cur_offset st <? size) eqn:E2; [lia|].
    apply Z.ltb_ge in E1, E2. lia. }
  unfold FileStream_read. fold size. fold k.
  assert (Hd : file_read_at file (fs_offset st + cur_offset st) k = data).
  { unfold file_read_at. assert (E : (k <? 0) = false) by (apply Z.ltb_ge; lia). rewrite E.
    subst data. unfold stream_extent.
    rewrite skipn_firstn_comm, take_take, drop_drop. f_equal; [|f_equal]; lia. }
  rewrite Hd. destruct data eqn:Ed; [|reflexivity].
  destruct st; simpl. f_equal. f_equal. unfold len. simpl. lia.
Qed.

Lemma take_len_take {A} k (X : list A) : take (Z.to_nat (len (take k X))) X = take k X.
Proof.
  unfold len. rewrite Nat2Z.id, length_take.
  destruct (Nat.le_ge_cases k (length X)).
  - now rewrite Nat.min_l by lia.
  - rewrite Nat.min_r by lia. now rewrite !take_ge by lia.
Qed.

Lemma stream_reads_extent file : forall sizes st chunks st',
  0 <= fs_offset st -> 0 <= fs_length st ->
  0 <= cur_offset st <= len (stream_extent file st) ->
  stream_reads file sizes st = (chunks, st') ->
  fs_offset st' = fs_offset st /\ fs_length st' = fs_length st /\
  cur_offset st <= cur_offset st' <= len (stream_extent file st) /\
  take (Z.to_nat (cur_offset st)) (stream_extent file st) ++ concat chunks
  = take (Z.to_nat (cur_offset st')) (stream_extent file st).
Proof.
  induction sizes as [|size sizes IH]; intros st chunks st' Ho Hl0 Hc H.
  - simpl in H. injection H as <- <-. simpl. rewrite app_nil_r. repeat split; lia.
  - cbn [stream_reads] in H. rewrite (FileStream_read_extent file size st Ho Hl0 Hc) in H.
    cbv zeta in H.
    match type of H with
    | context [take (Z.to_nat ?k0) (drop (Z.to_nat (cur_offset st)) (stream_extent file st))] =>
        remember k0 as k eqn:Ek
    end. clear Ek.
    remember (take (Z.to_nat k) (drop (Z.to_nat (cur_offset st)) (stream_extent file st)))
      as data eqn:Edata.
    assert (Hdl : len data <= len (stream_extent file st) - cur_offset st).
    { subst data. rewrite len_take, len_drop. lia. }
    pose proof (len_nonneg data) as Hd0.
    match type of H with
    | context [stream_reads file sizes ?s1] => remember s1 as st1 eqn:Est1
    end.
    destruct (stream_reads file sizes st1) as [chunks1 st2] eqn:E.
    injection H as <- <-.
    assert (Hext : stream_extent file st1 = stream_extent file st) by (subst st1; reflexivity).
    assert (Hcur : cur_offset st1 = cur_offset st + len data) by (subst st1; reflexivity).
    assert (Hof : fs_offset st1 = fs_offset st) by (subst st1; reflexivity).
    assert (Hlg : fs_length st1 = fs_length st) by (subst st1; reflexivity).
    apply IH in E; [|lia|lia|rewrite Hext; lia].
    rewrite Hext, Hcur, Hof, Hlg in E. destruct E as (E1 & E2 & E3 & E4).
    split; [exact E1|]. split; [exact E2|]. split; [lia|].
    rewrite <- E4. simpl concat. rewrite app_assoc. f_equal.
    replace (Z.to_nat (cur_offset st + len data))
      with (Z.to_nat (cur_offset st) + Z.to_nat (len data))%nat by lia.
    rewrite <- take_take_drop. f_equal.
    subst data. symmetry. apply take_len_take.
Qed.

(** X8.  A stream never yields a byte from outside its extent, and yields
    all of them: after any sequence of reads, of any sizes, the bytes read
    so far followed by what [read()] returns are the extent of the stream
    (cut short where the image ends), and [cur_offset] counts the bytes
    read. *)
Theorem FileStream_reads_then_rest (file : str) (offset length : Z) (sizes : list (option Z))
    (chunks : list str) (st : FileStream) :
  0 <= offset -> 0 <= length ->
  stream_reads file sizes (FileStream_init offset length) = (chunks, st) ->
  concat chunks ++ fst (FileStream_read file None st)
  = take (Z.to_nat length) (drop (Z.to_nat offset) file)
  /\ len (concat chunks) = cur_offset st /\ cur_offset st <= length.
Proof.
  intros Ho Hl H.
  pose proof (len_nonneg (stream_extent file (FileStream_init offset length))) as Hn.
  apply stream_reads_extent in H; [|exact Ho|exact Hl|simpl; lia].
  destruct H as (E1 & E2 & E3 & E4). simpl in E1, E2, E3, E4.
  assert (Hext : stream_extent file st = stream_extent file (FileStream_init offset length)).
  { unfold stream_extent. now rewrite E1, E2. }
  assert (Hle : len (stream_extent file (FileStream_init offset length)) <= length).
  { unfold stream_extent. rewrite len_take. simpl. lia. }
  rewrite (FileStream_read_extent file None st) by (rewrite ?Hext; lia).
  cbv zeta. cbn [fst]. change (-1 <? 0) with true. cbn [orb]. rewrite Hext, E4, E2.
  split; [|split].
  - rewrite (take_ge (drop _ _)) by (rewrite length_drop; unfold len in *; lia).
    apply take_drop.
  - rewrite len_take. lia.
  - lia.
Qed.

Lemma FileStream_reads_then_rest_witness :
  concat [b "ab"; b "cd"] ++ fst (FileStream_read (b "xxabcdefyy") None
                                    {| fs_offset := 2; fs_length := 6; cur_offset := 4 |})
  = take (Z.to_nat 6) (drop (Z.to_nat 2) (b "xxabcdefyy"))
  /\ len (concat [b "ab"; b "cd"]) = 4 /\ 4 <= 6.
Proof.
  apply (FileStream_reads_then_rest (b "xxabcdefyy") 2 6 [Some 2; Some 2]);
    [lia|lia|reflexivity].
Defined.

(** ** content and get_stream *)

Lemma slice_all {A} (l : list A) n : len l = n -> slice 0 (0 + n) l = l.
Proof.
  intros H. unfold slice. simpl. rewrite drop_0. apply take_ge. unfold len in H. lia.
Qed.

Lemma content_extent (self : nat) (r : RecordObj) (w : World) :
  records w !! self = Some r -> is_directory r = 0 -> _content r = None ->
  0 <= rec_location r -> 0 <= rec_length r ->
  coherent (source w) (_sectors (source w)) ->
  let data := image_window (source w) (rec_location r) (rec_length r) in
  (len data = rec_length r ->
     exists w', content self w = (Ok data, w') /\
                records w' = <[self := set_content r (Some data)]> (records w) /\
                dicts w' = dicts w /\ settings (source w') = settings (source w)) /\
  (len data < rec_length r ->
     exists w', content self w = (Raise (SourceError BufferUnderrun), w') /\
                records w' = records w).
Proof.
  intros Hr Hdir Hc Hloc Hlen Hcoh data.
  destruct (seek_window (rec_location r) (rec_length r) true w Hloc Hlen Hcoh)
    as (w1 & Hs & Hb & Hl & _ & Hrec & Hdic & Hset).
  fold data in Hb.
  assert (Hsl : source_len w1 = (Ok (rec_length r), w1)).
  { unfold source_len. rewrite (bind_Ok _ _ _ _ _ (cursor_spec _ _ _ Hb)).
    unfold bind, get_source, ret. rewrite Hl. do 2 f_equal. lia. }
  assert (Hpre' : content self w
                  = bind (unpack_raw (rec_length r))
                      (fun data => r1 <- get_record self ;;
                                   set_record self (set_content r1 (Some data)) ;; ret data) w1).
  { unfold content.
    rewrite (bind_Ok _ _ _ _ _ (get_record_spec _ _ _ Hr)).
    rewrite Hdir. rewrite (bind_Ok _ _ _ tt w) by reflexivity. rewrite Hc.
    rewrite (bind_Ok _ _ _ _ _ Hs). unfold unpack_all.
    unfold bind at 1. unfold bind at 1. rewrite Hsl. reflexivity. }
  split; intros Hd.
  - pose proof (unpack_raw_ok _ _ _ (rec_length r) Hb ltac:(lia) Hlen ltac:(lia)) as Hu.
    rewrite (slice_all _ _ Hd) in Hu.
    eexists. split.
    + rewrite Hpre'. rewrite (bind_Ok _ _ _ _ _ Hu).
      assert (Hr1 : records (at_cursor w1 (0 + rec_length r)) !! self = Some r).
      { unfold at_cursor. rewrite Hb. cbn [records]. now rewrite Hrec. }
      rewrite (bind_Ok _ _ _ _ _ (get_record_spec _ _ _ Hr1)). reflexivity.
    + unfold at_cursor. rewrite Hb. cbn [records dicts source set_buff settings
        cache_content min_fetch susp_starting_index susp_extensions rockridge _file].
      rewrite Hrec. split; [reflexivity|]. split; [exact Hdic|exact Hset].
  - pose proof (unpack_raw_underrun _ _ _ (rec_length r) Hb ltac:(lia)) as Hu.
    pose proof (len_nonneg data).
    eexists. split.
    + rewrite Hpre'. apply bind_Raise. apply Hu; lia.
    + unfold at_cursor. rewrite Hb. exact Hrec.
Qed.

(** X9.  [content] caches what it has read: a second read returns the
    same bytes and leaves the whole store as it is. *)
Theorem content_cached (self : nat) (w : World) (d : str) (w' : World) :
  content self w = (Ok d, w') ->
  content self w' = (Ok d, w') /\
  exists r', records w' !! self = Some r' /\ _content r' = Some d.
Proof.
  intros H. unfold content in H.
  apply bind_inv in H as (r & w1 & Hg & H). apply get_record_inv in Hg as [-> Hr].
  apply bind_inv in H as (u & w2 & Ha & H). apply py_assert_inv in Ha as [Hdir ->].
  destruct (_content r) as [data|] eqn:Ec.
  - inversion H; subst. split.
    + unfold content. rewrite (bind_Ok _ _ _ _ _ (get_record_spec _ _ _ Hr)).
      unfold py_assert. rewrite Hdir. unfold bind at 1. cbn [ret]. now rewrite Ec.
    + eauto.
  - apply bind_inv in H as (u1 & w3 & Hs & H).
    apply bind_inv in H as (data & w4 & Hu & H).
    apply bind_inv in H as (r1 & w5 & Hg & H). apply get_record_inv in Hg as [-> Hr1].
    apply bind_inv in H as (u2 & w6 & Hset & H).
    inversion H; subst. unfold set_record in Hset. inversion Hset; subst. clear Hset H.
    assert (Hrec : records w4 = records w).
    { rewrite (frame_records _ _ _ _ frame_unpack_all Hu).
      apply (frame_records _ _ _ _ (frame_seek _ _ _) Hs). }
    rewrite Hrec in Hr1. assert (r1 = r) as -> by congruence.
    assert (Hl : records {| source := source w4; records := <[self := set_content r (Some d)]> (records w4);
                            dicts := dicts w4 |} !! self = Some (set_content r (Some d))).
    { cbn [records]. apply list_lookup_insert_eq. rewrite Hrec. now apply lookup_lt_Some in Hr. }
    split; [|eauto].
    unfold content. rewrite (bind_Ok _ _ _ _ _ (get_record_spec _ _ _ Hl)).
    cbn [set_content is_directory _content]. unfold py_assert. rewrite Hdir.
    unfold bind at 1. cbn [ret]. reflexivity.
Qed.

Lemma content_cached_witness :
  content 0 small_file_read_world = (Ok (b "hello"), small_file_read_world) /\
  exists r', records small_file_read_world !! 0%nat = Some r' /\ _content r' = Some (b "hello").
Proof.
  apply (content_cached 0 small_file_world (b "hello") small_file_read_world).
  vm_compute. reflexivity.
Defined.

(** X10.  The content of a file record that has not been read yet is its
    extent in the image: [length] bytes from sector [location].  When the
    image holds them all, [content] returns them and stores them in the
    record, changing no other record; when the image ends before,
    [content] raises SourceError("Source buffer under-run") and stores
    nothing. *)
Theorem content_spec (self : nat) (r : RecordObj) (w : World) :
  records w !! self = Some r -> is_directory r = 0 -> _content r = None ->
  0 <= rec_location r -> 0 <= rec_length r ->
  coherent (source w) (_sectors (source w)) ->
  let data := image_window (source w) (rec_location r) (rec_length r) in
  (len data = rec_length r ->
     exists w', content self w = (Ok data, w') /\
                records w' = <[self := set_content r (Some data)]> (records w) /\
                dicts w' = dicts w /\ settings (source w') = settings (source w)) /\
  (len data < rec_length r ->
     exists w', content self w = (Raise (SourceError BufferUnderrun), w') /\
                records w' = records w).
Proof. apply content_extent. Qed.

Lemma content_spec_witness :
  let data := image_window (source small_file_world) 0 5 in
  (len data = 5 ->
     exists w', content 0 small_file_world = (Ok data, w') /\
                records w' = <[0%nat := set_content (file_object 0 5) (Some data)]>
                               (records small_file_world) /\
                dicts w' = dicts small_file_world /\
                settings (source w') = settings (source small_file_world)) /\
  (len data < 5 ->
     exists w', content 0 small_file_world = (Raise (SourceError BufferUnderrun), w') /\
                records w' = records small_file_world).
Proof.
  apply (content_spec 0 (file_object 0 5) small_file_world);
    [reflexivity|reflexivity|reflexivity|simpl; lia|simpl; lia|apply coherent_empty].
Defined.

(** X11.  The stream of a file record and its [content] agree: whenever
    [content] returns the bytes of a record that had not been read yet,
    [get_stream] returns a stream, leaving the store as it is, and reading
    that stream to its end gives the same bytes. *)
Theorem get_stream_content (self : nat) (r : RecordObj) (w : World) (d : str) (w' : World) :
  records w !! self = Some r -> _content r = None ->
  0 <= rec_location r -> 0 <= rec_length r ->
  coherent (source w) (_sectors (source w)) ->
  content self w = (Ok d, w') ->
  exists st, get_stream self w = (Ok st, w) /\
             fst (FileStream_read (_file (source w)) None st) = d.
Proof.
  intros Hr Hc Hloc Hlen Hcoh H.
  assert (Hdir : is_directory r = 0).
  { unfold content in H. rewrite (bind_Ok _ _ _ _ _ (get_record_spec _ _ _ Hr)) in H.
    apply bind_inv in H as (u & w1 & Ha & _). apply py_assert_inv in Ha as [Ha _].
    now apply Z.eqb_eq in Ha. }
  destruct (content_extent self r w Hr Hdir Hc Hloc Hlen Hcoh) as [Hok Hbad].
  set (data := image_window (source w) (rec_location r) (rec_length r)) in *.
  assert (Hle : len data <= rec_length r).
  { subst data. unfold image_window. rewrite len_take. lia. }
  destruct (Z.eq_dec (len data) (rec_length r)) as [E|E].
  2:{ destruct (Hbad ltac:(lia)) as (w2 & Hx & _). rewrite Hx in H. discriminate. }
  destruct (Hok E) as (w2 & Hx & _). rewrite Hx in H. inversion H; subst d w2. clear H.
  exists (FileStream_init (rec_location r * SECTOR_LENGTH) (rec_length r)). split.
  - unfold get_stream. rewrite (bind_Ok _ _ _ _ _ (get_record_spec _ _ _ Hr)).
    rewrite Hdir. reflexivity.
  - pose proof (FileStream_read_extent (_file (source w)) None
                  (FileStream_init (rec_location r * SECTOR_LENGTH) (rec_length r))
                  ltac:(simpl; unfold SECTOR_LENGTH; lia) ltac:(simpl; lia)
                  ltac:(split; [simpl; lia|apply len_nonneg])) as Hread.
    rewrite Hread. cbn [FileStream_init fs_offset fs_length cur_offset].
    cbv zeta. cbn [fst]. change (-1 <? 0) with true. cbn [orb].
    change (Z.to_nat 0) with 0%nat. rewrite drop_0.
    unfold stream_extent. cbn [FileStream_init fs_offset fs_length]. rewrite take_take.
    subst data. unfold image_window. f_equal. lia.
Qed.

Lemma get_stream_content_witness :
  exists st, get_stream 0 small_file_world = (Ok st, small_file_world) /\
             fst (FileStream_read (_file (source small_file_world)) None st) = b "hello".
Proof.
  apply (get_stream_content 0 (file_object 0 5) small_file_world (b "hello")
           small_file_read_world);
    [reflexivity|reflexivity|simpl; lia|simpl; lia|apply coherent_empty|vm_compute; reflexivity].
Defined.
(** ** Directory records *)

(** X12.  A record that has been built is a new object: its reference is
    the next free one, the objects that were there are unchanged, it comes
    with a dictionary of its own, which is empty, it has no content and no
    scan position yet, its [raw_name] holds no ";" and is not the byte 0,
    and the settings of the source are as they were. *)
Theorem Record_init_allocates (length : Z) (ssi : tri) (w : World) (r : nat) (w' : World) :
  Record_init length ssi w = (Ok r, w') ->
  exists rec,
    r = List.length (records w) /\
    records w' = records w ++ [rec] /\
    dicts w' = dicts w ++ [∅] /\
    _child_cache rec = List.length (dicts w) /\
    _content rec = None /\ _last_cached_child rec = PyNone /\
    ~ In ";"%char (raw_name rec) /\ raw_name rec <> [zero] /\
    settings (source w') = settings (source w).
Proof.
  intros H. unfold Record_init in H.
  apply bind_inv in H as (cc & w1 & Hnd & H).
  unfold new_dict in Hnd. inversion Hnd; subst cc w1; clear Hnd.
  repeat (apply bind_inv in H as (? & ? & ? & H)).
  unfold new_record in H. inversion H; subst; clear H.
  repeat match goal with
         | Hm : ?m ?wa = (Ok ?a, ?wb) |- _ =>
             let F := fresh "F" in
             assert (F : frame m)
               by (first [apply frame_Record_system_use | apply frame_unpack_string
                         | apply frame_unpack_dir_datetime | frame_tac]);
             apply (frame_inv _ _ _ _ F) in Hm; clear F;
             cbn [records dicts source] in Hm; destruct Hm as (? & ? & ?)
         end.
  eexists. cbn [records dicts source _child_cache _content _last_cached_child raw_name].
  split; [f_equal; congruence|]. split; [f_equal; congruence|].
  split; [congruence|]. split; [reflexivity|]. split; [reflexivity|]. split; [reflexivity|].
  split; [|split; [|congruence]].
  - unfold str_eqb. case_bool_decide; [intros []|apply before_semicolon_spec].
  - unfold str_eqb. case_bool_decide; [discriminate|assumption].
Qed.

Lemma Record_init_allocates_witness :
  exists rec,
    0%nat = List.length (records record_world) /\
    records record_parsed_world = records record_world ++ [rec] /\
    dicts record_parsed_world = dicts record_world ++ [∅] /\
    _child_cache rec = List.length (dicts record_world) /\
    _content rec = None /\ _last_cached_child rec = PyNone /\
    ~ In ";"%char (raw_name rec) /\ raw_name rec <> [zero] /\
    settings (source record_parsed_world) = settings (source record_world).
Proof.
  apply (Record_init_allocates (len record_buffer - 1) PyFalse record_world 0 record_parsed_world).
  vm_compute. reflexivity.
Defined.

Lemma Record_init_end (length : Z) (ssi : tri) (w : World) (pos : Z) (r : nat) (w' : World) :
  cursor_of (source w) = Some pos ->
  Record_init length ssi w = (Ok r, w') ->
  cursor_of (source w') = Some (pos + length).
Proof.
  intros Hpos H. unfold Record_init in H.
  apply bind_inv in H as (cc & w1 & Hnd & H).
  unfold new_dict in Hnd. inversion Hnd; subst cc w1; clear Hnd.
  apply bind_inv in H as (c & w2 & Hc & H). apply cursor_inv in Hc as [-> Hc].
  cbn [source] in Hc. assert (c = pos) as -> by congruence. clear Hc.
  do 11 (apply bind_inv in H as (? & ? & _ & H)).
  apply bind_inv in H as (es & w3 & _ & H).
  apply bind_inv in H as (c' & w4 & Hc & H). apply cursor_inv in Hc as [-> Hc].
  apply bind_inv in H as (u & w5 & Ha & H). apply py_assert_inv in Ha as [Ha ->].
  apply Z.leb_le in Ha.
  apply bind_inv in H as (d & w6 & Hu & H).
  apply (unpack_raw_cursor _ _ _ _ c') in Hu as [Hu _]; [|lia|exact Hc].
  unfold new_record in H. inversion H; subst. cbn [source]. rewrite Hu. f_equal. lia.
Qed.

(** X13.  A record that has been built has consumed exactly the [length]
    bytes it was given: the cursor is [length] bytes after the position at
    which [Record.__init__] was entered, neither before nor after. *)
Theorem Record_init_cursor (length : Z) (ssi : tri) (w : World) (pos : Z) (r : nat) (w' : World) :
  cursor_of (source w) = Some pos ->
  Record_init length ssi w = (Ok r, w') ->
  cursor_of (source w') = Some (pos + length).
Proof. apply Record_init_end. Qed.

Lemma Record_init_cursor_witness :
  cursor_of (source record_parsed_world) = Some (1 + (len record_buffer - 1)).
Proof.
  apply (Record_init_cursor (len record_buffer - 1) PyFalse record_world 1 0 record_parsed_world);
    [reflexivity|vm_compute; reflexivity].
Defined.

Lemma unpack_header_inv w data pos hdr w' :
  buffer w data pos -> 0 <= pos ->
  unpack [FStr 2; FInt c_B; FInt c_B] w = (Ok hdr, w') ->
  pos + 4 <= len data /\
  hdr = [VStr (fst (fst (susp_header data pos)));
         VInt (snd (fst (susp_header data pos)));
         VInt (snd (susp_header data pos))] /\
  w' = at_cursor w (pos + 4).
Proof.
  intros Hb Hp H. destruct (Z.le_gt_cases (pos + 4) (len data)) as [L|L].
  - rewrite (unpack_header _ _ _ Hb Hp L) in H. inversion H. auto.
  - unfold unpack in H. change (calcsize [FStr 2; FInt c_B; FInt c_B]) with 4 in H.
    rewrite (bind_Raise _ _ _ _ _ (unpack_raw_underrun _ _ _ 4 Hb Hp ltac:(lia) ltac:(lia))) in H.
    discriminate.
Qed.

(** X14.  Whatever the typed decoder does, an entry returned by
    [unpack_susp] ends exactly where its header says: the cursor is at the
    start of the entry plus its declared length, the four bytes of the
    header were in the window, and the declared length is within
    [maxlen]. *)
Theorem unpack_susp_cursor (dec : decoder) (maxlen possible_extension : Z)
    (w : World) (data : str) (pos : Z) (e : SUSP_Entry) (w' : World) :
  buffer w data pos -> 0 <= pos ->
  unpack_susp_with dec maxlen possible_extension w = (Ok (Some e), w') ->
  4 <= maxlen /\ pos + 4 <= len data /\
  snd (fst (susp_header data pos)) <= maxlen /\
  cursor_of (source w') = Some (pos + snd (fst (susp_header data pos))).
Proof.
  intros Hb Hp H. unfold unpack_susp_with in H.
  destruct (maxlen <? 4) eqn:Em; [discriminate|]. apply Z.ltb_ge in Em.
  apply bind_inv in H as (sc & w1 & Hsc & H).
  rewrite (cursor_opt_spec _ _ _ Hb) in Hsc. inversion Hsc; subst sc w1; clear Hsc.
  apply bind_inv in H as (hdr & w1 & Hh & H).
  apply (unpack_header_inv _ _ _ _ _ Hb Hp) in Hh as (L & -> & ->).
  cbv beta iota in H.
  destruct (maxlen <? snd (fst (susp_header data pos))) eqn:El.
  - apply bind_inv in H as (u & w2 & _ & H). discriminate.
  - apply Z.ltb_ge in El.
    apply bind_inv in H as (s & w2 & _ & H).
    apply bind_inv in H as (scope & w3 & _ & H).
    apply bind_inv in H as (start & w4 & Hst & H).
    apply need_int_inv in Hst as [Hst ->]. injection Hst as <-.
    apply bind_inv in H as (ns & w5 & _ & H).
    apply bind_inv in H as (c & w6 & _ & H).
    apply bind_inv in H as (ns' & w7 & _ & H).
    apply bind_inv in H as (c' & w8 & Hc & H). apply cursor_inv in Hc as [-> Hc].
    apply bind_inv in H as (u & w9 & Ha & H). apply py_assert_inv in Ha as [Ha ->].
    apply Z.eqb_eq in Ha. subst c'.
    destruct ns' as [e'|]; [|discriminate]. inversion H; subst.
    repeat split; assumption.
Qed.

Lemma unpack_susp_cursor_witness :
  4 <= 12 /\ 0 + 4 <= len bad_NM_buffer /\
  snd (fst (susp_header bad_NM_buffer 0)) <= 12 /\
  cursor_of (source (at_cursor (rr_buffer_world bad_NM_buffer 0) 9))
  = Some (0 + snd (fst (susp_header bad_NM_buffer 0))).
Proof.
  apply (unpack_susp_cursor SUSP_Entry_unpack 12 0 (rr_buffer_world bad_NM_buffer 0)
           bad_NM_buffer 0 (UnknownEntry (b "NM") 1 (byte 2 ++ b "abcd")));
    [reflexivity|lia|vm_compute; reflexivity].
Defined.

Lemma unpack_record_zero (w : World) (data : str) (pos : Z) :
  buffer w data pos -> 0 <= pos -> pos + 1 <= len data -> ord_at data pos = 0 ->
  unpack_record w = (Ok None, w).
Proof.
  intros Hb Hp Hd Hz.
  pose proof (buffer_at_cursor _ _ _ (pos + 1) Hb) as Hb1.
  unfold unpack_record.
  rewrite (bind_Ok _ _ _ _ _ (cursor_opt_spec _ _ _ Hb)).
  rewrite (bind_Ok _ _ _ _ _ (unpack1_B_at _ _ _ Hb Hp Hd)). rewrite Hz. cbv beta iota.
  change (0 =? 0) with true. cbv iota.
  unfold rewind. change (calcsize [FInt c_B]) with 1.
  destruct (rewind_raw_at 1 _ _ _ Hb1 ltac:(lia)) as [_ Hr].
  rewrite (bind_Ok _ _ _ _ _ (Hr ltac:(lia))).
  rewrite (at_cursor_at_cursor _ _ _ _ _ Hb).
  replace (pos + 1 - 1) with pos by lia. now rewrite (at_cursor_same _ _ _ Hb).
Qed.

(** X15.  [unpack_record] looks at the length byte under the cursor.  A
    zero byte gives [None] and leaves the store, cursor included, as it
    was, and [None] is returned in no other case.  Otherwise the record is
    built from the following bytes: the closing assertion never fails, so
    that [unpack_record] returns whenever [Record.__init__] does, and the
    cursor is then at the start plus the length byte. *)
Theorem unpack_record_spec (w : World) (data : str) (pos : Z) :
  buffer w data pos -> 0 <= pos -> pos + 1 <= len data ->
  (ord_at data pos = 0 -> unpack_record w = (Ok None, w)) /\
  (forall w', unpack_record w = (Ok None, w') -> ord_at data pos = 0 /\ w' = w) /\
  (forall r w', unpack_record w = (Ok (Some r), w') <->
     ord_at data pos <> 0 /\
     Record_init (ord_at data pos - 1) (susp_starting_index (source w)) (at_cursor w (pos + 1))
     = (Ok r, w')) /\
  (forall r w', unpack_record w = (Ok (Some r), w') ->
     cursor_of (source w') = Some (pos + ord_at data pos)).
Proof.
  intros Hb Hp Hd.
  pose proof (buffer_at_cursor _ _ _ (pos + 1) Hb) as Hb1.
  pose proof (unpack_record_zero w data pos Hb Hp Hd) as Hz.
  split; [exact Hz|].
  assert (Hnz : ord_at data pos <> 0 ->
                unpack_record w
                = (new_record <- Record_init (ord_at data pos - 1) (susp_starting_index (source w)) ;;
                   c <- cursor ;;
                   start <- need_int (Some pos) ;;
                   py_assert (c =? start + ord_at data pos) ;;
                   ret (Some new_record)) (at_cursor w (pos + 1))).
  { intros Hnz. unfold unpack_record.
    rewrite (bind_Ok _ _ _ _ _ (cursor_opt_spec _ _ _ Hb)).
    rewrite (bind_Ok _ _ _ _ _ (unpack1_B_at _ _ _ Hb Hp Hd)).
    destruct (Z.eqb_spec (ord_at data pos) 0) as [|_]; [contradiction|].
    unfold bind at 1. unfold get_source.
    assert (Hs : susp_starting_index (source (at_cursor w (pos + 1)))
                 = susp_starting_index (source w)).
    { unfold at_cursor. now rewrite Hb. }
    now rewrite Hs. }
  assert (Hsome : forall r w', unpack_record w = (Ok (Some r), w') ->
            ord_at data pos <> 0 /\
            Record_init (ord_at data pos - 1) (susp_starting_index (source w))
              (at_cursor w (pos + 1)) = (Ok r, w') /\
            cursor_of (source w') = Some (pos + ord_at data pos)).
  { intros r w' H. destruct (Z.eq_dec (ord_at data pos) 0) as [E|E].
    - rewrite (Hz E) in H. discriminate.
    - rewrite (Hnz E) in H. split; [exact E|].
      apply bind_inv in H as (r' & w1 & Hi & H).
      apply bind_inv in H as (c & w2 & Hc & H). apply cursor_inv in Hc as [-> Hc].
      apply bind_inv in H as (st & w3 & Hst & H). apply need_int_inv in Hst as [Hst ->].
      injection Hst as <-.
      apply bind_inv in H as (u & w4 & Ha & H). apply py_assert_inv in Ha as [Ha ->].
      apply Z.eqb_eq in Ha. inversion H; subst. split; [exact Hi|exact Hc]. }
  split; [|split].
  - intros w' H. destruct (Z.eq_dec (ord_at data pos) 0) as [E|E].
    + rewrite (Hz E) in H. inversion H. auto.
    + rewrite (Hnz E) in H.
      do 4 (apply bind_inv in H as (? & ? & _ & H)). discriminate.
  - intros r w'. split.
    + intros H. destruct (Hsome r w' H) as (H1 & H2 & _). auto.
    + intros [E Hi]. rewrite (Hnz E), (bind_Ok _ _ _ _ _ Hi).
      pose proof (Record_init_end _ _ _ (pos + 1) _ _ (buffer_cursor_of _ _ _ Hb1) Hi) as Hc.
      destruct (cursor_of_buffer _ _ Hc) as [d' Hb'].
      rewrite (bind_Ok _ _ _ _ _ (cursor_spec _ _ _ Hb')).
      rewrite (bind_Ok _ _ _ pos w') by reflexivity.
      assert (Ea : (pos + 1 + (ord_at data pos - 1) =? pos + ord_at data pos) = true)
        by (apply Z.eqb_eq; lia).
      rewrite Ea. reflexivity.
  - intros r w' H. now destruct (Hsome r w' H) as (_ & _ & H3).
Qed.

Lemma unpack_record_spec_witness :
  unpack_record (buffer_world (zeros 4) 1) = (Ok None, buffer_world (zeros 4) 1).
Proof.
  destruct (unpack_record_spec (buffer_world (zeros 4) 1) (zeros 4) 1) as [H _];
    [reflexivity|lia|vm_compute; discriminate|].
  apply H. reflexivity.
Defined.

(** X16.  In the children generator a zero length byte skips to the next
    sector boundary, after the position of the byte has been noted in the
    record; when the window ends before that boundary, as it does in the
    padding of a directory whose length is not a multiple of the sector
    length, the generator fails with SourceError("Source buffer
    under-run"). *)
Theorem children_run_zero_record (fuel : nat) (self : nat) (g : children_gen)
    (r : RecordObj) (w : World) (data : str) (pos : Z) :
  buffer w data pos -> 0 <= pos -> pos + 1 <= len data -> pos < _len (source w) ->
  ord_at data pos = 0 -> records w !! self = Some r ->
  let w1 := with_record w self (set_latest_child_start r (Some pos)) in
  let next := (pos / SECTOR_LENGTH + 1) * SECTOR_LENGTH in
  (next <= len data ->
     children_run (S fuel) self g w = children_run fuel self g (at_cursor w1 next)) /\
  (len data < next ->
     children_run (S fuel) self g w
     = (Raise (SourceError BufferUnderrun), at_cursor w1 (Z.max pos (len data)))).
Proof.
  intros Hb Hp Hd Hl Hz Hr w1 next.
  assert (Hb1 : buffer w1 data pos) by exact Hb.
  assert (Hpre : children_run (S fuel) self g w
                 = (unpack_boundary ;; children_run fuel self g) w1).
  { cbn [children_run]. unfold source_len.
    rewrite (bind_Ok _ _ _ (_len (source w) - pos) w).
    2:{ rewrite (bind_Ok _ _ _ _ _ (cursor_spec _ _ _ Hb)). reflexivity. }
    assert (E : (0 <? _len (source w) - pos) = true) by (apply Z.ltb_lt; lia). rewrite E.
    rewrite (bind_Ok _ _ _ _ _ (cursor_spec _ _ _ Hb)).
    rewrite (bind_Ok _ _ _ _ _ (get_record_spec _ _ _ Hr)).
    rewrite (bind_Ok _ _ _ tt w1) by reflexivity.
    rewrite (bind_Ok _ _ _ _ _ (unpack_record_zero _ _ _ Hb1 Hp Hd Hz)). reflexivity. }
  destruct (unpack_boundary_at _ _ _ Hb1 Hp) as (_ & Hok & Hbad). fold next in Hok, Hbad.
  split; intros H; rewrite Hpre.
  - now rewrite (bind_Ok _ _ _ _ _ (Hok H)).
  - now rewrite (bind_Raise _ _ _ _ _ (Hbad H)).
Qed.

Lemma children_run_zero_record_witness :
  children_run 2 0 (_children_unsafe true 0) short_directory_world
  = (Raise (SourceError BufferUnderrun),
     at_cursor
       (with_record short_directory_world 0
          (set_latest_child_start (directory_object 1) (Some 68)))
       (Z.max 68 (len (zeros 100)))).
Proof.
  destruct (children_run_zero_record 1 0 (_children_unsafe true 0) (directory_object 1)
              short_directory_world (zeros 100) 68) as [_ H];
    [reflexivity|lia|vm_compute; discriminate|simpl; lia|reflexivity|reflexivity|].
  apply H. vm_compute. reflexivity.
Defined.
Lemma seek_buffer0 start_sector length is_content w :
  exists w1 d, seek start_sector length is_content w = (Ok tt, w1) /\ buffer w1 d 0.
Proof.
  unfold seek, bind, get_source, set_source. cbv beta iota.
  eexists. eexists. split; reflexivity.
Qed.

(** X17.  The children generator of a directory starts where
    [parent_directory] stops: a first [next] on [children] builds the two
    records "." and ".." as [parent_directory] does, and goes on from
    there. *)
Theorem children_start_after_parent (self : nat) (w : World) :
  children_next self (_children_unsafe true 0) w
  = (parent_directory self ;;
     n <- source_len ;;
     children_run (S (Z.to_nat n)) self (_children_unsafe true 0)) w.
Proof.
  unfold children_next, parent_directory. cbn [_children_unsafe cg_started
    cg_skip_current_parent cg_start_offset].
  unfold bind.
  destruct (get_record self w) as [[r|e|] w0]; [|reflexivity|reflexivity].
  destruct (py_assert (negb (is_directory r =? 0)) w0) as [[u|e|] w1];
    [|reflexivity|reflexivity].
  destruct (seek_buffer0 (rec_location r) (rec_length r) false w1) as (w2 & d & Hs & Hb).
  rewrite Hs. rewrite (set_cursor_spec _ _ _ 0 Hb) by lia.
  rewrite (at_cursor_same _ _ _ Hb).
  destruct (unpack_record w2) as [[a|e|] w3]; [|reflexivity|reflexivity].
  destruct (unpack_record w3) as [[a'|e|] w4]; reflexivity.
Qed.

(** ** Rock Ridge entries laid out in a buffer *)

Lemma drop_prefix_slice {A} (data : list A) pos x r :
  0 <= pos -> drop (Z.to_nat pos) data = x ++ r -> slice pos (pos + len x) data = x.
Proof.
  intros Hp Hd. unfold slice. rewrite Hd.
  replace (Z.to_nat (pos + len x - pos)) with (List.length x) by (unfold len; lia).
  now rewrite take_app_length.
Qed.

Lemma drop_prefix_drop {A} (data : list A) pos x r :
  0 <= pos -> drop (Z.to_nat pos) data = x ++ r -> drop (Z.to_nat (pos + len x)) data = r.
Proof.
  intros Hp Hd.
  replace (Z.to_nat (pos + len x)) with (Z.to_nat pos + List.length x)%nat by (unfold len; lia).
  rewrite <- drop_drop, Hd. now rewrite drop_app_length.
Qed.

Lemma drop_prefix_len {A} (data : list A) pos x r :
  0 <= pos -> drop (Z.to_nat pos) data = x ++ r -> pos <= len data -> pos + len x <= len data.
Proof.
  intros Hp Hd Hl. assert (H : len (drop (Z.to_nat pos) data) = len x + len r)
    by (now rewrite Hd, len_app).
  rewrite len_drop in H. pose proof (len_nonneg r). lia.
Qed.

Lemma ord_at_head data pos c r :
  0 <= pos -> drop (Z.to_nat pos) data = c :: r -> ord_at data pos = ord c.
Proof.
  intros Hp Hd. unfold ord_at.
  pose proof (drop_prefix_slice data pos [c] r Hp Hd) as H. change (len [c]) with 1 in H.
  rewrite H. unfold int_of. simpl. lia.
Qed.

Lemma len_byte z : len (byte z) = 1.
Proof. reflexivity. Qed.

Lemma len_b2 (c1 c2 : ascii) : len [c1; c2] = 2.
Proof. reflexivity. Qed.

(** The header of an entry laid out by [susp_bytes]. *)
Lemma susp_header_bytes data pos (c1 c2 : ascii) length version payload :
  0 <= pos -> 0 <= length < 256 -> 0 <= version < 256 ->
  drop (Z.to_nat pos) data = [c1; c2] ++ byte length ++ byte version ++ payload ->
  susp_header data pos = ([c1; c2], length, version).
Proof.
  intros Hp Hl Hv Hd. unfold susp_header.
  pose proof (drop_prefix_slice data pos [c1; c2] _ Hp Hd) as H1. rewrite len_b2 in H1.
  pose proof (drop_prefix_drop data pos [c1; c2] _ Hp Hd) as H2. rewrite len_b2 in H2.
  pose proof (drop_prefix_drop data (pos + 2) (byte length) _ ltac:(lia) H2) as H3.
  change (len (byte length)) with 1 in H3. replace (pos + 2 + 1) with (pos + 3) in H3 by lia.
  rewrite H1, (ord_at_head data (pos + 2) _ _ ltac:(lia) H2),
    (ord_at_head data (pos + 3) _ _ ltac:(lia) H3).
  now rewrite !ord_chr by lia.
Qed.

(** An entry whose typed decoder accepts the payload and stops at its end
    is returned as decoded. *)
Lemma unpack_susp_bytes (dec : decoder) maxlen pe w data pos c1 c2 version payload r scope e :
  buffer w data pos -> 0 <= pos <= len data ->
  len payload < 252 -> 0 <= version < 256 -> 4 + len payload <= maxlen ->
  drop (Z.to_nat pos) data = ([c1; c2] ++ byte (4 + len payload) ++ byte version ++ payload) ++ r ->
  ext_id_ver_of (source w) pe = Some scope ->
  dec scope ([c1; c2], version) (len payload) (at_cursor w (pos + 4))
  = (Ok e, at_cursor w (pos + 4 + len payload)) ->
  unpack_susp_with dec maxlen pe w = (Ok (Some e), at_cursor w (pos + 4 + len payload)).
Proof.
  intros Hb Hp Hl Hv Hm Hd Hs Hdec.
  pose proof (len_nonneg payload) as Hn.
  pose proof (drop_prefix_len data pos _ _ ltac:(lia) Hd ltac:(lia)) as Hlen0.
  rewrite <- !app_assoc in Hd.
  assert (Hh : susp_header data pos = ([c1; c2], 4 + len payload, version)).
  { apply (susp_header_bytes data pos c1 c2 (4 + len payload) version (payload ++ r));
      try lia. exact Hd. }
  assert (Hlen : pos + (4 + len payload) <= len data).
  { rewrite !len_app in Hlen0. change (len [c1; c2]) with 2 in Hlen0.
    change (len (byte (4 + len payload))) with 1 in Hlen0.
    change (len (byte version)) with 1 in Hlen0. lia. }
  apply (unpack_susp_clean dec maxlen pe w data pos scope e); try assumption; try lia;
    rewrite ?Hh; cbn [fst snd]; try lia.
  - replace (4 + len payload - 4) with (len payload) by lia. exact Hdec.
  - replace (pos + (4 + len payload)) with (pos + 4 + len payload) by lia.
    apply (buffer_at_cursor _ _ _ _ Hb).
Qed.

Lemma NM_dispatch scope length :
  rock_ridge_scope scope = true ->
  SUSP_Entry_unpack scope (b "NM", 1) length = NM_init length.
Proof.
  intros Hs. unfold SUSP_Entry_unpack. destruct scope as [iv|]; [|discriminate].
  simpl in Hs. cbn [fst snd]. change (negb (1 =? 1)) with false. cbv iota.
  change (str_eqb (b "NM") (b "SP")) with false.
  change (str_eqb (b "NM") (b "CE")) with false.
  change (str_eqb (b "NM") (b "ST")) with false.
  change (str_eqb (b "NM") (b "ER")) with false.
  change (str_eqb (b "NM") (b "RR")) with false.
  change (str_eqb (b "NM") (b "PX")) with false.
  change (str_eqb (b "NM") (b "PN")) with false.
  change (str_eqb (b "NM") (b "SL")) with false.
  change (str_eqb (b "NM") (b "NM")) with true.
  cbn [andb]. cbv iota. now rewrite Hs.
Qed.

Lemma NM_init_bytes flags name w data pos r :
  buffer w data pos -> 0 <= pos <= len data -> NM_wf flags name = true ->
  drop (Z.to_nat pos) data = (byte flags ++ name) ++ r ->
  NM_init (len (byte flags ++ name)) w
  = (Ok (NM flags (Some (NM_name flags name))), at_cursor w (pos + len (byte flags ++ name))).
Proof.
  intros Hb Hp Hwf Hd.
  assert (Hf : 0 <= flags < 256).
  { unfold NM_wf, NM_CURRENT, NM_PARENT, NM_CONTINUE in Hwf.
    destruct (Z.eqb_spec flags 2); [lia|]. destruct (Z.eqb_spec flags 4); [lia|].
    destruct (Z.eqb_spec flags 0); [lia|]. destruct (Z.eqb_spec flags 1); [lia|]. discriminate. }
  pose proof (len_nonneg name) as Hn.
  rewrite len_app. change (len (byte flags)) with 1.
  unfold NM_init.
  assert (E1 : (1 <=? 1 + len name) = true) by (apply Z.leb_le; lia).
  rewrite E1. unfold susp_assert at 1. rewrite (bind_Ok _ _ _ tt w) by reflexivity.
  rewrite <- app_assoc in Hd. unfold byte in Hd. cbn [app] in Hd.
  destruct (unpack1_B_prefix _ _ _ _ _ Hb Hp Hd) as (H1 & Hd1 & Hl1).
  rewrite (bind_Ok _ _ _ _ _ H1). rewrite ord_chr by lia.
  pose proof (buffer_at_cursor _ _ _ (pos + 1) Hb) as Hb1.
  destruct (unpack_raw_prefix _ _ _ _ _ Hb1 ltac:(lia) Hd1) as (H2 & _ & Hl2).
  replace (1 + len name - 1) with (len name) by lia.
  rewrite (bind_Ok _ _ _ _ _ H2). rewrite (at_cursor_at_cursor _ _ _ _ _ Hb).
  replace (pos + 1 + len name) with (pos + (1 + len name)) by lia.
  unfold NM_wf in Hwf. unfold NM_name.
  destruct (flags =? NM_CURRENT) eqn:Ec.
  - cbn [orb] in Hwf. destruct name; [|discriminate]. reflexivity.
  - destruct (flags =? NM_PARENT) eqn:Epar.
    + cbn [orb] in Hwf. destruct name; [|discriminate]. reflexivity.
    + cbn [orb] in Hwf. apply andb_true_iff in Hwf as [Hw1 Hw2]. rewrite Hw1.
      apply Z.ltb_lt in Hw2.
      assert (E2 : (1 <? 1 + len name) = true) by (apply Z.ltb_lt; lia). rewrite E2.
      reflexivity.
Qed.

(** X18.  Under Rock Ridge an [NM] entry laid out as the format
    prescribes (signature, length, version 1, flags, name) is decoded by
    [unpack_susp] to an [NM] with those flags and that name, "." and ".."
    standing for the flags CURRENT and PARENT, and the cursor ends after
    the entry. *)
Theorem NM_round_trip (flags : Z) (name : str) (maxlen : Z) (w : World)
    (data : str) (pos : Z) (r : str) (scope : option (str * Z)) :
  buffer w data pos -> 0 <= pos <= len data ->
  NM_wf flags name = true -> len name <= 250 -> 5 + len name <= maxlen ->
  ext_id_ver_of (source w) 0 = Some scope -> rock_ridge_scope scope = true ->
  drop (Z.to_nat pos) data = NM_bytes flags name ++ r ->
  unpack_susp maxlen 0 w
  = (Ok (Some (NM flags (Some (NM_name flags name)))), at_cursor w (pos + 5 + len name)).
Proof.
  intros Hb Hp Hwf Hl Hm Hs Hrr Hd.
  unfold NM_bytes, susp_bytes in Hd. change (b "NM") with ["N"%char; "M"%char] in Hd.
  assert (Hpl : len (byte flags ++ name) = 1 + len name) by now rewrite len_app.
  unfold unpack_susp.
  replace (pos + 5 + len name) with (pos + 4 + len (byte flags ++ name)) by lia.
  eapply (unpack_susp_bytes _ maxlen 0 w data pos "N" "M" 1 (byte flags ++ name) r scope);
    try eassumption; try lia.
  change ["N"%char; "M"%char] with (b "NM"). rewrite (NM_dispatch _ _ Hrr).
  pose proof (buffer_at_cursor _ _ _ (pos + 4) Hb) as Hb4.
  assert (Hd4 : drop (Z.to_nat (pos + 4)) data = (byte flags ++ name) ++ r).
  { rewrite <- !app_assoc in Hd.
    pose proof (drop_prefix_drop data pos (b "NM" ++ byte (4 + len (byte flags ++ name)) ++ byte 1)
                  ((byte flags ++ name) ++ r) ltac:(lia)) as H.
    rewrite <- !app_assoc in H. specialize (H Hd).
    exact H. }
  assert (Hl4 : pos + 4 <= len data).
  { pose proof (f_equal len Hd) as H. rewrite len_drop, !len_app in H.
    change (len ["N"%char; "M"%char]) with 2 in H.
    pose proof (len_nonneg r). pose proof (len_nonneg name).
    rewrite !len_byte in H. lia. }
  rewrite (NM_init_bytes flags name _ data (pos + 4) r Hb4 ltac:(lia) Hwf Hd4).
  now rewrite (at_cursor_at_cursor _ _ _ _ _ Hb).
Qed.

Lemma NM_round_trip_witness :
  unpack_susp 20 0 (rr_buffer_world (b "xx" ++ NM_bytes 1 (b "readme") ++ b "yy") 2)
  = (Ok (Some (NM 1 (Some (NM_name 1 (b "readme"))))),
     at_cursor (rr_buffer_world (b "xx" ++ NM_bytes 1 (b "readme") ++ b "yy") 2)
               (2 + 5 + len (b "readme"))).
Proof.
  apply (NM_round_trip 1 (b "readme") 20 _ (b "xx" ++ NM_bytes 1 (b "readme") ++ b "yy") 2
           (b "yy") (Some (b "RRIP_1991A", 1)));
    try reflexivity; vm_compute; try split; discriminate.
Defined.

Lemma unpack_ok fmt w data pos :
  buffer w data pos -> 0 <= pos -> pos + calcsize fmt <= len data ->
  unpack fmt w = (Ok (struct_fields LE fmt (slice pos (pos + calcsize fmt) data)),
                  at_cursor w (pos + calcsize fmt)).
Proof.
  intros Hb Hp Hl. unfold unpack.
  assert (Hc : 0 <= calcsize fmt) by (unfold calcsize; lia).
  rewrite (bind_Ok _ _ _ _ _ (unpack_raw_ok _ _ _ _ Hb Hp Hc Hl)).
  unfold struct_unpack. rewrite len_slice by lia.
  replace (pos + calcsize fmt - pos) with (calcsize fmt) by lia.
  now rewrite Z.eqb_refl.
Qed.

Lemma dir_date_fields_unpack t :
  List.length t = 7%nat -> ints_of (struct_fields LE fmt_6Bb t) = dir_date_fields t.
Proof.
  intros Ht. destruct t as [|cy [|cmo [|cd [|ch [|cmi [|cs [|ctz [|]]]]]]]]; try discriminate.
  cbn [struct_fields fmt_6Bb fitem_size code_size take drop ints_of omap list_omap
       int_of code_signed le_uint dir_date_fields]. simpl ints_of.
  repeat f_equal; lia.
Qed.

Lemma TF_stamps_layout flags : forall sel w data pos,
  buffer w data pos -> 0 <= pos ->
  pos + TF_size flags * TF_count flags sel <= len data ->
  TF_stamps flags sel w
  = (Ok (TF_layout flags sel (drop (Z.to_nat pos) data)),
     at_cursor w (pos + TF_size flags * TF_count flags sel)).
Proof.
  assert (Hsz : 0 < TF_size flags) by (unfold TF_size; destruct (negb _); lia).
  induction sel as [|bit sel IH]; intros w data pos Hb Hp Hl.
  - unfold TF_count. simpl. rewrite Z.mul_0_r, Z.add_0_r. now rewrite (at_cursor_same _ _ _ Hb).
  - assert (Hcn : 0 <= TF_count flags sel) by apply len_nonneg.
    cbn [TF_stamps TF_layout]. unfold TF_count, TF_selected in *. cbn [map List.filter] in *.
    destruct (negb (Z.land flags bit =? 0)) eqn:Eb.
    + assert (Hlen : forall l : list bool, len (true :: l) = 1 + len l)
        by (intros; unfold len; simpl; lia).
      rewrite Hlen in *.
      set (n := len (List.filter (fun x : bool => x)
                       (map (fun bit => negb (Z.land flags bit =? 0)) sel))) in *.
      assert (Hstep :
                 (if negb (Z.land flags TF_LONG_FORM =? 0)
                  then raw <- unpack_vd_datetime ;; ret (Some (TFLong raw))
                  else d <- unpack_lazy_dir_datetime ;; ret (Some (TFLazy d))) w
                 = (Ok (Some (TF_stamp_of flags
                                (take (Z.to_nat (TF_size flags)) (drop (Z.to_nat pos) data)))),
                    at_cursor w (pos + TF_size flags))).
      { unfold TF_size, TF_stamp_of in *.
        destruct (negb (Z.land flags TF_LONG_FORM =? 0)) eqn:Elong.
        - unfold unpack_vd_datetime.
          rewrite (bind_Ok _ _ _ _ _ (unpack_raw_ok _ _ _ 17 Hb Hp ltac:(lia) ltac:(nia))).
          unfold ret, slice. now replace (pos + 17 - pos) with 17 by lia.
        - unfold unpack_lazy_dir_datetime.
          pose proof (unpack_ok fmt_6Bb _ _ _ Hb Hp) as Hu.
          change (calcsize fmt_6Bb) with 7 in Hu.
          rewrite (bind_Ok _ _ _ _ _ (bind_Ok _ _ _ _ _ (Hu ltac:(nia)))).
          unfold ret. rewrite dir_date_fields_unpack.
          + unfold slice. now replace (pos + 7 - pos) with 7 by lia.
          + assert (H7 : len (slice pos (pos + 7) data) = 7) by (rewrite len_slice; lia || nia).
            unfold len in H7. lia. }
      rewrite (bind_Ok _ _ _ _ _ Hstep).
      pose proof (buffer_at_cursor _ _ _ (pos + TF_size flags) Hb) as Hb1.
      rewrite (bind_Ok _ _ _ _ _ (IH _ _ _ Hb1 ltac:(lia) ltac:(fold n; nia))).
      fold n. unfold ret. rewrite (at_cursor_at_cursor _ _ _ _ _ Hb).
      rewrite drop_drop.
      replace (Z.to_nat pos + Z.to_nat (TF_size flags))%nat
        with (Z.to_nat (pos + TF_size flags)) by lia.
      replace (pos + TF_size flags + TF_size flags * n)
        with (pos + TF_size flags * (1 + n)) by lia.
      reflexivity.
    + rewrite (bind_Ok _ _ _ None w) by reflexivity.
      rewrite (bind_Ok _ _ _ _ _ (IH _ _ _ Hb Hp Hl)). reflexivity.
Qed.

(** X19.  A [TF] reads its flags byte and then one timestamp for each of
    the seven selector bits that is set, in the order of the bits: the
    first selected timestamp is held by the bytes that follow the flags
    byte, the next one by the bytes after those, and so on, 17 bytes each
    when LONG_FORM is set (kept as they are) and 7 bytes each otherwise
    (kept as the seven numbers of a directory-form timestamp); a timestamp
    whose bit is clear is absent.  The length its header declares plays no
    part in what is read. *)
Theorem TF_init_consumes (length : Z) (w : World) (data : str) (pos : Z) :
  buffer w data pos -> 0 <= pos -> 1 <= length ->
  let flags := ord_at data pos in
  let used := 1 + TF_size flags * TF_count flags TF_selectors in
  pos + used <= len data ->
  TF_init length w
  = (Ok (TF flags (TF_layout flags TF_selectors (drop (Z.to_nat (pos + 1)) data))),
     at_cursor w (pos + used)).
Proof.
  intros Hb Hp Hl flags used Hd. subst used.
  assert (Hcn : 0 <= TF_count flags TF_selectors) by apply len_nonneg.
  assert (Hsz : 0 < TF_size flags) by (unfold TF_size; destruct (negb _); lia).
  unfold TF_init.
  assert (E : (1 <=? length) = true) by (apply Z.leb_le; lia). rewrite E.
  rewrite (bind_Ok _ _ _ tt w) by reflexivity.
  rewrite (bind_Ok _ _ _ _ _ (unpack1_B_at _ _ _ Hb Hp ltac:(nia))).
  pose proof (buffer_at_cursor _ _ _ (pos + 1) Hb) as Hb1.
  fold flags.
  rewrite (bind_Ok _ _ _ _ _ (TF_stamps_layout flags TF_selectors _ _ _ Hb1 ltac:(lia) ltac:(lia))).
  unfold ret. rewrite (at_cursor_at_cursor _ _ _ _ _ Hb). do 2 f_equal. lia.
Qed.

(** A [TF] with CREATION and ACCESS in short form: the first seven bytes
    after the flags are the creation timestamp, the next seven the access
    timestamp. *)
Lemma TF_init_consumes_witness :
  TF_init 15 (buffer_world (byte 5 ++ b "ABCDEFG" ++ b "HIJKLMN" ++ b "rest") 0)
  = (Ok (TF 5 [Some (TFLazy [65; 66; 67; 68; 69; 70; 71]); None;
               Some (TFLazy [72; 73; 74; 75; 76; 77; 78]); None; None; None; None]),
     at_cursor (buffer_world (byte 5 ++ b "ABCDEFG" ++ b "HIJKLMN" ++ b "rest") 0) 15).
Proof.
  apply (TF_init_consumes 15 (buffer_world (byte 5 ++ b "ABCDEFG" ++ b "HIJKLMN" ++ b "rest") 0)
           (byte 5 ++ b "ABCDEFG" ++ b "HIJKLMN" ++ b "rest") 0);
    [reflexivity|lia|lia|vm_compute; discriminate].
Defined.

Lemma len_both_bytes n v : len (both_bytes n v) = 2 * Z.of_nat n.
Proof.
  unfold both_bytes, be_bytes. rewrite len_app. unfold len at 2. rewrite length_rev.
  fold (len (le_bytes n v)). rewrite len_le_bytes. lia.
Qed.

Lemma pack_of_both c : both_code c = true -> pack_of (SmInt c) = ([FInt c; FInt c], HBoth).
Proof. destruct c; (discriminate || reflexivity). Qed.

Lemma smart_pack_st fs :
  forallb (fun f => both_code (fst f) && fits (fst f) (snd f)) fs = true ->
  map pack_of (map (fun f => SmInt (fst f)) fs)
  = map (fun f => ([FInt (fst f); FInt (fst f)], HBoth)) fs.
Proof.
  induction fs as [|f fs IH]; intros H; [reflexivity|].
  simpl in H. apply andb_true_iff in H as [H1 H2]. apply andb_true_iff in H1 as [H1 _].
  cbn [map]. now rewrite pack_of_both, IH.
Qed.

Lemma calcsize_app f1 f2 : calcsize (f1 ++ f2) = calcsize f1 + calcsize f2.
Proof.
  unfold calcsize. induction f1 as [|f f1 IH]; simpl; [lia|]. lia.
Qed.

Lemma calcsize_smart_fmt fs : calcsize (smart_fmt fs) = len (both_fields fs).
Proof.
  unfold smart_fmt, both_fields. induction fs as [|f fs IH]; [reflexivity|].
  cbn [map concat]. rewrite calcsize_app, len_app, len_both_bytes, IH.
  unfold calcsize. simpl. lia.
Qed.

Lemma both_bytes_split n v (X : str) :
  take n (both_bytes n v ++ X) = le_bytes n v /\
  take n (drop n (both_bytes n v ++ X)) = be_bytes n v /\
  drop n (drop n (both_bytes n v ++ X)) = X.
Proof.
  assert (L1 : n = List.length (le_bytes n v)).
  { pose proof (len_le_bytes n v). unfold len in *. lia. }
  assert (L2 : n = List.length (be_bytes n v)).
  { unfold be_bytes. now rewrite length_rev. }
  unfold both_bytes. rewrite <- !app_assoc.
  rewrite (take_app_length' (le_bytes _ _)) by exact L1.
  rewrite (drop_app_length' (le_bytes _ _)) by exact L1.
  rewrite (take_app_length' (be_bytes _ _)) by exact L2.
  rewrite (drop_app_length' (be_bytes _ _)) by exact L2.
  auto.
Qed.

Lemma struct_fields_both e : forall fs tail,
  struct_fields e (smart_fmt fs) (both_fields fs ++ tail)
  = concat (map (fun f => [VInt (int_of e (fst f) (le_bytes (code_size (fst f)) (snd f)));
                           VInt (int_of e (fst f) (be_bytes (code_size (fst f)) (snd f)))]) fs).
Proof.
  induction fs as [|[c v] fs IH]; intros tail; [reflexivity|].
  unfold smart_fmt, both_fields in *. cbn [map concat fst snd app struct_fields fitem_size].
  rewrite <- app_assoc.
  destruct (both_bytes_split (code_size c) v
              (concat (map (fun f => both_bytes (code_size (fst f)) (snd f)) fs) ++ tail))
    as (T1 & T2 & T3).
  rewrite T1, T2, T3. now rewrite IH.
Qed.

Lemma smart_values_both : forall fs,
  forallb (fun f => both_code (fst f) && fits (fst f) (snd f)) fs = true ->
  forall w,
  smart_values (map snd (map (fun f => ([FInt (fst f); FInt (fst f)], HBoth)) fs))
    (zip (concat (map (fun f => [VInt (int_of LE (fst f) (le_bytes (code_size (fst f)) (snd f)));
                                 VInt (int_of LE (fst f) (be_bytes (code_size (fst f)) (snd f)))]) fs))
         (concat (map (fun f => [VInt (int_of BE (fst f) (le_bytes (code_size (fst f)) (snd f)));
                                 VInt (int_of BE (fst f) (be_bytes (code_size (fst f)) (snd f)))]) fs)))
    w
  = (Ok (map (fun f => VInt (snd f)) fs), w).
Proof.
  induction fs as [|[c v] fs IH]; intros H w; [reflexivity|].
  simpl in H. apply andb_true_iff in H as [H1 H2]. apply andb_true_iff in H1 as [_ H1].
  cbn [map concat fst snd app zip zip_with smart_values].
  rewrite int_of_le_bytes, int_of_be_bytes by exact H1. rewrite Z.eqb_refl. cbn [negb].
  rewrite (bind_Ok _ _ _ _ _ (IH H2 w)). reflexivity.
Qed.

Lemma unpack_smart_both (fs : list (code * Z)) (w : World) (data : str)
    (pos : Z) (r : str) :
  buffer w data pos -> 0 <= pos <= len data ->
  forallb (fun f => both_code (fst f) && fits (fst f) (snd f)) fs = true ->
  drop (Z.to_nat pos) data = both_fields fs ++ r ->
  unpack_smart (map (fun f => SmInt (fst f)) fs) w
  = (Ok (map (fun f => VInt (snd f)) fs), at_cursor w (pos + len (both_fields fs))).
Proof.
  intros Hb Hp Hf Hd. unfold unpack_smart. rewrite (smart_pack_st fs Hf).
  rewrite map_map. cbn [fst]. fold (smart_fmt fs). rewrite calcsize_smart_fmt.
  destruct (unpack_raw_prefix _ _ _ _ _ Hb Hp Hd) as (Hr & _ & _).
  rewrite (bind_Ok _ _ _ _ _ Hr).
  unfold struct_unpack. rewrite calcsize_smart_fmt, Z.eqb_refl.
  rewrite (bind_Ok _ _ _ (struct_fields LE (smart_fmt fs) (both_fields fs))
             (at_cursor w (pos + len (both_fields fs)))) by reflexivity.
  pose proof (struct_fields_both LE fs []) as HLE. rewrite app_nil_r in HLE.
  pose proof (struct_fields_both BE fs []) as HBE. rewrite app_nil_r in HBE.
  destruct fs as [|f fs'] eqn:Efs.
  - reflexivity.
  - rewrite <- Efs in *.
    assert (Hn : existsb (fun p : list fitem * handler => is_HBoth (snd p))
                   (map (fun f => ([FInt (fst f); FInt (fst f)], HBoth)) fs) = true)
      by (rewrite Efs; reflexivity).
    rewrite Hn.
    rewrite (bind_Ok _ _ _ (struct_fields BE (smart_fmt fs) (both_fields fs))
               (at_cursor w (pos + len (both_fields fs)))) by reflexivity.
    rewrite HLE, HBE. apply smart_values_both. exact Hf.
Qed.

(** X20.  [unpack_smart], called with format characters of more than one
    byte, reads one both-endian field for each of them in a single read
    and returns the values of the fields, in order. *)
Theorem unpack_smart_round_trip (fs : list (code * Z)) (w : World) (data : str)
    (pos : Z) (r : str) :
  buffer w data pos -> 0 <= pos <= len data ->
  forallb (fun f => both_code (fst f) && fits (fst f) (snd f)) fs = true ->
  drop (Z.to_nat pos) data = both_fields fs ++ r ->
  unpack_smart (map (fun f => SmInt (fst f)) fs) w
  = (Ok (map (fun f => VInt (snd f)) fs), at_cursor w (pos + len (both_fields fs))).
Proof. apply unpack_smart_both. Qed.

Lemma unpack_smart_round_trip_witness :
  unpack_smart (map (fun f => SmInt (fst f)) [(c_I, 33188); (c_h, -1)])
    (buffer_world (both_fields [(c_I, 33188); (c_h, -1)] ++ b "z") 0)
  = (Ok (map (fun f => VInt (snd f)) [(c_I, 33188); (c_h, -1)]),
     at_cursor (buffer_world (both_fields [(c_I, 33188); (c_h, -1)] ++ b "z") 0)
               (0 + len (both_fields [(c_I, 33188); (c_h, -1)]))).
Proof.
  apply (unpack_smart_round_trip [(c_I, 33188); (c_h, -1)] _
           (both_fields [(c_I, 33188); (c_h, -1)] ++ b "z") 0 (b "z"));
    [reflexivity|vm_compute; split; discriminate|reflexivity|reflexivity].
Defined.

(** X21.  With a payload of 32 bytes a [PX] carries mode, links, uid and
    gid as four both-endian 32-bit fields, in that order; with any length
    other than 32 and 40 it is accepted without a byte being read and
    carries no attribute at all. *)
Theorem PX_init_spec (w : World) (data : str) (pos : Z) :
  buffer w data pos -> 0 <= pos <= len data ->
  (forall mode nlinks uid gid r,
     forallb (fits c_I) [mode; nlinks; uid; gid] = true ->
     drop (Z.to_nat pos) data
     = both_fields [(c_I, mode); (c_I, nlinks); (c_I, uid); (c_I, gid)] ++ r ->
     PX_init 32 w = (Ok (PX [mode; nlinks; uid; gid]), at_cursor w (pos + 32))) /\
  (forall length, length <> 32 -> length <> 40 -> PX_init length w = (Ok (PX []), w)).
Proof.
  intros Hb Hp. split.
  - intros mode nlinks uid gid r Hf Hd. unfold PX_init. change (32 =? 32) with true. cbv iota.
    pose proof (unpack_smart_both
                  [(c_I, mode); (c_I, nlinks); (c_I, uid); (c_I, gid)] w data pos r Hb Hp) as H.
    cbn [map fst snd] in H.
    assert (Hl : len (both_fields [(c_I, mode); (c_I, nlinks); (c_I, uid); (c_I, gid)]) = 32).
    { unfold both_fields. cbn [map concat fst snd]. rewrite !len_app, !len_both_bytes.
      reflexivity. }
    rewrite Hl in H.
    assert (Hf' : forallb (fun f => both_code (fst f) && fits (fst f) (snd f))
                    [(c_I, mode); (c_I, nlinks); (c_I, uid); (c_I, gid)] = true).
    { cbn [forallb fst snd both_code andb] in *. exact Hf. }
    rewrite (bind_Ok _ _ _ _ _ (H Hf' Hd)). reflexivity.
  - intros length H1 H2. unfold PX_init.
    destruct (Z.eqb_spec length 32); [contradiction|].
    destruct (Z.eqb_spec length 40); [contradiction|]. reflexivity.
Qed.

Lemma PX_init_spec_witness :
  (forall mode nlinks uid gid r,
     forallb (fits c_I) [mode; nlinks; uid; gid] = true ->
     drop (Z.to_nat 0) (both_fields [(c_I, 33188); (c_I, 1); (c_I, 0); (c_I, 0)])
     = both_fields [(c_I, mode); (c_I, nlinks); (c_I, uid); (c_I, gid)] ++ r ->
     PX_init 32 (buffer_world (both_fields [(c_I, 33188); (c_I, 1); (c_I, 0); (c_I, 0)]) 0)
     = (Ok (PX [mode; nlinks; uid; gid]),
        at_cursor (buffer_world (both_fields [(c_I, 33188); (c_I, 1); (c_I, 0); (c_I, 0)]) 0)
                  (0 + 32))) /\
  (forall length, length <> 32 -> length <> 40 ->
     PX_init length (buffer_world (both_fields [(c_I, 33188); (c_I, 1); (c_I, 0); (c_I, 0)]) 0)
     = (Ok (PX []), buffer_world (both_fields [(c_I, 33188); (c_I, 1); (c_I, 0); (c_I, 0)]) 0)).
Proof.
  apply (PX_init_spec (buffer_world (both_fields [(c_I, 33188); (c_I, 1); (c_I, 0); (c_I, 0)]) 0)
           (both_fields [(c_I, 33188); (c_I, 1); (c_I, 0); (c_I, 0)]) 0);
    [reflexivity|vm_compute; split; discriminate].
Defined.

(** X22.  A [PN] of payload length 16 carries the two halves of a device
    number as two both-endian 32-bit fields; with any other length it is
    rejected as a SUSP decode failure before a byte is read. *)
Theorem PN_round_trip (dev_high dev_low : Z) (w : World) (data : str) (pos : Z) (r : str) :
  buffer w data pos -> 0 <= pos <= len data ->
  fits c_I dev_high = true -> fits c_I dev_low = true ->
  drop (Z.to_nat pos) data = (both_bytes 4 dev_high ++ both_bytes 4 dev_low) ++ r ->
  PN_init 16 w = (Ok (PN dev_high dev_low), at_cursor w (pos + 16)) /\
  forall length, length <> 16 -> PN_init length w = (Raise SUSPError, w).
Proof.
  intros Hb Hp Hh Hl Hd. split.
  - unfold PN_init. change (16 =? 16) with true.
    rewrite (bind_Ok _ _ _ tt w) by reflexivity.
    rewrite <- app_assoc in Hd.
    rewrite (bind_Ok _ _ _ _ _ (unpack_both_both_bytes c_I dev_high w data pos _ Hb Hp Hh Hd)).
    pose proof (buffer_at_cursor _ _ _ (pos + 2 * Z.of_nat (code_size c_I)) Hb) as Hb1.
    pose proof (drop_prefix_drop data pos (both_bytes 4 dev_high) _ ltac:(lia) Hd) as Hd1.
    pose proof (drop_prefix_len data pos (both_bytes 4 dev_high) _ ltac:(lia) Hd ltac:(lia)) as Hl1.
    rewrite len_both_bytes in Hd1, Hl1.
    change (2 * Z.of_nat (code_size c_I)) with 8 in *. change (2 * Z.of_nat 4) with 8 in *.
    rewrite (bind_Ok _ _ _ _ _
               (unpack_both_both_bytes c_I dev_low _ data (pos + 8) r Hb1 ltac:(lia) Hl Hd1)).
    unfold ret. rewrite (at_cursor_at_cursor _ _ _ _ _ Hb). do 2 f_equal.
    change (2 * Z.of_nat (code_size c_I)) with 8. lia.
  - intros length Hne. unfold PN_init.
    destruct (Z.eqb_spec length 16); [contradiction|]. reflexivity.
Qed.

Lemma PN_round_trip_witness :
  PN_init 16 (buffer_world (both_bytes 4 8 ++ both_bytes 4 1) 0)
  = (Ok (PN 8 1), at_cursor (buffer_world (both_bytes 4 8 ++ both_bytes 4 1) 0) (0 + 16)) /\
  forall length, length <> 16 ->
    PN_init length (buffer_world (both_bytes 4 8 ++ both_bytes 4 1) 0)
    = (Raise SUSPError, buffer_world (both_bytes 4 8 ++ both_bytes 4 1) 0).
Proof.
  apply (PN_round_trip 8 1 _ (both_bytes 4 8 ++ both_bytes 4 1) 0 []);
    [reflexivity|vm_compute; split; discriminate|reflexivity|reflexivity|reflexivity].
Defined.

(** X23.  A directory-form timestamp is seven bytes: years since 1900,
    month, day, hour, minute, second, and a signed offset from UTC in
    quarters of an hour.  [unpack_dir_datetime] consumes them and returns
    the timestamp when they form a valid date; it raises ValueError
    otherwise, in particular when the month or the day is 0, as in a
    timestamp of seven zero bytes. *)
Theorem unpack_dir_datetime_spec (w : World) (data : str) (pos : Z) (t r : str) :
  buffer w data pos -> 0 <= pos <= len data -> List.length t = 7%nat ->
  drop (Z.to_nat pos) data = t ++ r ->
  unpack_dir_datetime w
  = ((if valid_datetime (dir_datetime_of t) then Ok (dir_datetime_of t) else Raise ValueError),
     at_cursor w (pos + 7)) /\
  (ord (nth 1 t zero) = 0 \/ ord (nth 2 t zero) = 0 -> valid_datetime (dir_datetime_of t) = false).
Proof.
  intros Hb Hp Ht Hd.
  destruct t as [|cy [|cmo [|cd [|ch [|cmi [|cs [|ctz [|]]]]]]]]; try discriminate.
  split.
  - destruct (unpack_raw_prefix _ _ _ _ _ Hb Hp Hd) as (Hr & _ & _).
    change (len [cy; cmo; cd; ch; cmi; cs; ctz]) with 7 in Hr.
    unfold unpack_dir_datetime, unpack_lazy_dir_datetime, unpack.
    change (calcsize fmt_6Bb) with 7.
    rewrite (bind_Ok _ _ _ (ints_of (struct_fields LE fmt_6Bb [cy; cmo; cd; ch; cmi; cs; ctz]))
               (at_cursor w (pos + 7))).
    2:{ rewrite (bind_Ok _ _ _ (struct_fields LE fmt_6Bb [cy; cmo; cd; ch; cmi; cs; ctz])
                   (at_cursor w (pos + 7))); [reflexivity|].
        rewrite (bind_Ok _ _ _ _ _ Hr). reflexivity. }
    cbn [struct_fields fmt_6Bb fitem_size code_size take drop ints_of omap list_omap
         int_of code_signed le_uint]. simpl ints_of.
    unfold _unpack_dir_datetime, dir_datetime_of.
    replace (ord cy + 256 * 0) with (ord cy) by lia.
    replace (ord cmo + 256 * 0) with (ord cmo) by lia.
    replace (ord cd + 256 * 0) with (ord cd) by lia.
    replace (ord ch + 256 * 0) with (ord ch) by lia.
    replace (ord cmi + 256 * 0) with (ord cmi) by lia.
    replace (ord cs + 256 * 0) with (ord cs) by lia.
    replace (ord ctz + 256 * 0) with (ord ctz) by lia.
    match goal with |- context [valid_datetime ?d] => destruct (valid_datetime d) end;
      reflexivity.
  - cbn [nth dir_datetime_of]. unfold valid_datetime. cbn [dt_month dt_day].
    intros [H|H]; rewrite H; cbn; rewrite ?andb_false_r; reflexivity.
Qed.

Lemma unpack_dir_datetime_spec_witness :
  unpack_dir_datetime (buffer_world (zeros 7 ++ b "x") 0)
  = ((if valid_datetime (dir_datetime_of (zeros 7)) then Ok (dir_datetime_of (zeros 7))
      else Raise ValueError),
     at_cursor (buffer_world (zeros 7 ++ b "x") 0) (0 + 7)) /\
  (ord (nth 1 (zeros 7) zero) = 0 \/ ord (nth 2 (zeros 7) zero) = 0 ->
   valid_datetime (dir_datetime_of (zeros 7)) = false).
Proof.
  apply (unpack_dir_datetime_spec (buffer_world (zeros 7 ++ b "x") 0) (zeros 7 ++ b "x") 0
           (zeros 7) (b "x")); [reflexivity|vm_compute; split; discriminate|reflexivity|reflexivity].
Defined.
(** ** The SUSP entries of a record *)

Lemma find_susp_loop_collect cls cond fuel : forall g w es w',
  susp_collect fuel g w = (Ok es, w') ->
  fst (find_susp_loop fuel g cls cond w) = Ok (List.find (susp_match cls cond) es).
Proof.
  induction fuel as [|fuel IH]; intros g w es w' H; [discriminate|].
  cbn [susp_collect find_susp_loop] in *. unfold bind in *.
  destruct (susp_next g w) as [[[[e g1]|]|x|] w1]; try discriminate.
  - destruct (susp_collect fuel g1 w1) as [[es1|x|] w2] eqn:E; try discriminate.
    inversion H; subst. cbn [List.find]. fold (susp_match cls cond e).
    destruct (susp_match cls cond e); [reflexivity|]. now apply (IH _ _ _ _ E).
  - inversion H; subst. reflexivity.
Qed.

(** X24.  [find_susp_entry] returns the first entry, in the order of
    [susp_entries], that is of the class asked for and meets the condition
    when one is given, and [None] when no entry does. *)
Theorem find_susp_entry_first (fuel : nat) (self : nat) (entryclass : SUSP_Entry -> bool)
    (condition : option (SUSP_Entry -> bool)) (w : World) (es : list SUSP_Entry) (w' : World) :
  susp_entries fuel self w = (Ok es, w') ->
  fst (find_susp_entry fuel self entryclass condition w)
  = Ok (List.find (susp_match entryclass condition) es).
Proof.
  intros H. unfold susp_entries, find_susp_entry in *. unfold bind in *.
  destruct (get_record self w) as [[r|x|] w1]; try discriminate.
  now apply (find_susp_loop_collect _ _ _ _ _ _ _ H).
Qed.

Lemma find_susp_entry_first_witness :
  fst (find_susp_entry 5 4 is_NM (Some (fun e => match e with NM 0 _ => true | _ => false end))
         two_NM_world)
  = Ok (List.find (susp_match is_NM (Some (fun e => match e with NM 0 _ => true | _ => false end)))
          [NM 1 (Some (b "longfile")); NM 0 (Some (b "name.txt"))]).
Proof.
  apply (find_susp_entry_first 5 4 is_NM _ two_NM_world _ two_NM_world).
  vm_compute. reflexivity.
Defined.


(** X26.  Reading [name] changes no record object, no dictionary and no
    setting of the source, whatever its outcome; all it can change is the
    window of the source and the sector cache. *)
Theorem Record_name_frame (fuel : nat) (self : nat) (w : World) :
  records (snd (Record_name fuel self w)) = records w /\
  dicts (snd (Record_name fuel self w)) = dicts w /\
  settings (source (snd (Record_name fuel self w))) = settings (source w).
Proof. apply frame_Record_name. Qed.

(** ** ISO.record *)

Lemma keeps_raise {A} e : keeps_settings (@raise A e).
Proof. intros w. reflexivity. Qed.

Lemma keeps_diverge {A} : keeps_settings (@diverge A).
Proof. intros w. reflexivity. Qed.

Lemma keeps_get_dict d : keeps_settings (get_dict d).
Proof. intros w. unfold get_dict. destruct (dicts w !! d); reflexivity. Qed.

Lemma keeps_set_dict d m : keeps_settings (set_dict d m).
Proof. intros w. reflexivity. Qed.

Lemma keeps_save_cursor : keeps_settings save_cursor.
Proof. intros w. reflexivity. Qed.

Lemma keeps_restore_cursor c : keeps_settings (restore_cursor c).
Proof. intros w. reflexivity. Qed.

Lemma keeps_children_run fuel self g : keeps_settings (children_run fuel self g).
Proof.
  induction fuel as [|fuel IH]; cbn [children_run]; [apply keeps_diverge|].
  apply keeps_bind; [apply keeps_frame, frame_source_len|intros n].
  destruct (0 <? n); [|apply keeps_ret].
  apply keeps_bind; [apply keeps_frame, frame_cursor|intros c].
  apply keeps_bind; [apply keeps_get_record|intros r].
  apply keeps_bind; [apply keeps_set_record|intros _].
  apply keeps_bind; [apply keeps_unpack_record|intros [child|]]; [apply keeps_ret|].
  apply keeps_bind; [apply keeps_frame; unfold unpack_boundary; frame_tac|intros _]. exact IH.
Qed.

Lemma keeps_children_next self g : keeps_settings (children_next self g).
Proof.
  unfold children_next.
  apply keeps_bind.
  - destruct (cg_started g); [apply keeps_ret|].
    apply keeps_bind; [apply keeps_get_record|intros r].
    apply keeps_bind; [apply keeps_frame, frame_py_assert|intros _].
    apply keeps_bind; [apply keeps_frame, frame_seek|intros _].
    apply keeps_bind; [apply keeps_frame, frame_set_cursor|intros _].
    destruct (cg_skip_current_parent g); [|apply keeps_ret].
    apply keeps_bind; [apply keeps_unpack_record|intros _].
    apply keeps_bind; [apply keeps_unpack_record|intros _]. apply keeps_ret.
  - intros _. apply keeps_bind; [apply keeps_frame, frame_source_len|intros n].
    apply keeps_children_run.
Qed.

Lemma keeps_find_child_loop nfuel self name fuel : forall g cn,
  keeps_settings (find_child_loop fuel nfuel self name g cn).
Proof.
  induction fuel as [|fuel IH]; intros g cn; cbn [find_child_loop]; [apply keeps_diverge|].
  apply keeps_bind; [apply keeps_children_next|intros [[child g']|]]; [|apply keeps_ret].
  apply keeps_bind; [apply keeps_save_cursor|intros sc].
  apply keeps_bind; [apply keeps_frame, frame_Record_name|intros cname].
  apply keeps_bind; [apply keeps_restore_cursor|intros _].
  apply keeps_bind; [apply keeps_get_record|intros r].
  apply keeps_bind; [apply keeps_get_dict|intros cache].
  apply keeps_bind; [apply keeps_set_dict|intros _].
  apply keeps_bind; [apply keeps_frame, frame_cursor_opt|intros c].
  apply keeps_bind; [apply keeps_get_record|intros r1].
  apply keeps_bind; [apply keeps_set_record|intros _].
  destruct (str_eqb cname name); [|apply IH].
  apply keeps_bind; [apply keeps_get_record|intros ch].
  destruct (is_directory ch =? 0); [|apply keeps_ret].
  apply keeps_bind; [|intros; apply keeps_ret].
  unfold copy_copy. apply keeps_bind; [apply keeps_get_record|intros; apply keeps_new_record].
Qed.

Lemma keeps_find_child fuel self name : keeps_settings (find_child fuel self name).
Proof.
  unfold find_child.
  apply keeps_bind; [apply keeps_get_record|intros r].
  apply keeps_bind; [apply keeps_get_dict|intros cache].
  destruct (cache !! name); [apply keeps_ret|].
  apply keeps_bind.
  - destruct (is_not_False (_last_cached_child r)); [|apply keeps_ret].
    apply keeps_bind; [apply keeps_find_child_loop|intros [child|cn]]; [apply keeps_ret|].
    apply keeps_bind; [apply keeps_get_record|intros r1].
    apply keeps_bind; [apply keeps_set_record|intros _]. apply keeps_ret.
  - intros [child|[cn|]]; [apply keeps_ret| |apply keeps_raise].
    apply keeps_bind; [|intros; apply keeps_raise].
    unfold Record_repr. apply keeps_bind; [apply keeps_frame, frame_Record_name|].
    intros; apply keeps_ret.
Qed.

Section ISO_record_properties.

Variable path_table_record : list str -> M nat.

(** A walk that returns a directory leaves it in the cache under the
    whole path. *)
Lemma ISO_walk_inv fuel : forall subpath record rpath cache w r cache' w',
  ISO_walk fuel record rpath subpath cache w = (Ok r, cache', w') ->
  rockridge (source w') = rockridge (source w) /\
  (subpath = [] -> r = record /\ cache' = cache /\ w' = w) /\
  (subpath <> [] ->
   forall rec, records w' !! r = Some rec -> is_directory rec <> 0 ->
               cache' !! rev (rev subpath ++ rpath) = Some r).
Proof.
  induction subpath as [|part subpath IH]; intros record rpath cache w r cache' w' H.
  - cbn [ISO_walk] in H. inversion H; subst. repeat split; auto. congruence.
  - cbn [ISO_walk] in H.
    pose proof (keeps_find_child fuel record part w) as Hk.
    destruct (find_child fuel record part w) as [[child|e|] w1]; try discriminate.
    destruct (get_record child w1) as [[rc|e|] w2] eqn:Hg; try discriminate.
    apply get_record_inv in Hg as [-> Hrc].
    apply IH in H as (Hrr & Hnil & Hcons). simpl in Hk.
    split; [rewrite Hrr; now apply settings_rockridge|].
    split; [discriminate|]. intros _ rec Hrec Hdir.
    destruct subpath as [|part' subpath'].
    + destruct (Hnil eq_refl) as (-> & -> & ->).
      assert (rec = rc) as -> by congruence.
      destruct (Z.eqb_spec (is_directory rc) 0) as [|_]; [contradiction|].
      cbn [negb rev app]. apply lookup_insert_eq.
    + specialize (Hcons ltac:(discriminate) rec Hrec Hdir).
      rewrite <- Hcons. f_equal. cbn [rev]. rewrite <- !app_assoc. reflexivity.
Qed.

Lemma ISO_resolve_rockridge cache : forall rpath subpath w,
  rockridge (source w) = true ->
  exists record rpath' subpath',
    ISO_resolve path_table_record cache rpath subpath w
    = (Ok (record, rpath', subpath'), w) /\
    rev rpath' ++ subpath' = rev rpath ++ subpath /\
    match record with
    | Some rcd => cache !! rev rpath' = Some rcd
    | None => rpath' = []
    end.
Proof.
  induction rpath as [|part rpath IH]; intros subpath w Hrr.
  - exists None, [], subpath. auto.
  - cbn [ISO_resolve]. destruct (cache !! rev (part :: rpath)) as [rcd|] eqn:Ec.
    + exists (Some rcd), (part :: rpath), subpath. auto.
    + unfold bind at 1. cbn [get_source]. rewrite Hrr.
      rewrite (bind_Ok _ _ _ None w) by reflexivity.
      destruct (IH (part :: subpath) w Hrr) as (rcd & rp & sp & -> & Happ & Hm).
      exists rcd, rp, sp. split; [reflexivity|]. split; [|exact Hm].
      rewrite Happ. cbn [rev]. now rewrite <- app_assoc.
Qed.

(** X27.  With Rock Ridge, a directory that [ISO.record] has resolved is
    in the path cache under its path: resolving the same path again returns
    the same record and touches neither the store nor the cache. *)
Theorem ISO_record_twice (fuel : nat) (root : nat) (cache : path_cache) (path : list str)
    (w : World) (r : nat) (cache' : path_cache) (w' : World) (rec : RecordObj) :
  rockridge (source w) = true -> path <> [] ->
  ISO_record path_table_record fuel root cache path w = (Ok r, cache', w') ->
  records w' !! r = Some rec -> is_directory rec <> 0 ->
  cache' !! path = Some r /\
  ISO_record path_table_record fuel root cache' path w' = (Ok r, cache', w').
Proof.
  intros Hrr Hne H Hrec Hdir. unfold ISO_record in H. rewrite Hrr in H.
  destruct (ISO_resolve_rockridge cache (rev path) [] w Hrr)
    as (record & rp & sp & Hres & Happ & Hm).
  rewrite Hres in H. rewrite rev_involutive, app_nil_r in Happ.
  destruct (ISO_walk_inv _ _ _ _ _ _ _ _ _ H) as (Hrr' & Hnil & Hcons).
  assert (Hc : cache' !! path = Some r).
  { destruct sp as [|part sp].
    - destruct (Hnil eq_refl) as (-> & -> & ->). rewrite app_nil_r in Happ.
      destruct record as [rcd|]; [simpl; now rewrite <- Happ|].
      subst rp. simpl in Happ. now subst path.
    - specialize (Hcons ltac:(discriminate) rec Hrec Hdir).
      rewrite rev_app_distr, rev_involutive in Hcons. now rewrite <- Happ. }
  split; [exact Hc|].
  unfold ISO_record. rewrite Hrr', Hrr.
  destruct (rev path) as [|part rp'] eqn:Erev.
  { apply (f_equal (@rev _)) in Erev. rewrite rev_involutive in Erev. simpl in Erev.
    contradiction. }
  cbn [ISO_resolve]. rewrite <- Erev, rev_involutive, Hc. reflexivity.
Qed.

Lemma upper_char_idem c : upper_char (upper_char c) = upper_char c.
Proof.
  destruct ((97 <=? ord c) && (ord c <=? 122)) eqn:E.
  - assert (Hu : upper_char c = chr (ord c - 32)) by (unfold upper_char; now rewrite E).
    rewrite Hu. apply andb_true_iff in E as [E1 E2]. apply Z.leb_le in E1, E2.
    unfold upper_char. rewrite ord_chr by lia.
    assert (E3 : (97 <=? ord c - 32) = false) by (apply Z.leb_gt; lia).
    now rewrite E3.
  - assert (Hu : upper_char c = c) by (unfold upper_char; now rewrite E).
    now rewrite !Hu.
Qed.

(** X28.  Without Rock Ridge the components of a path are put in upper
    case before anything is looked up: a path and its upper-case form
    resolve alike, with the same outcome, the same path cache and the same
    store. *)
Theorem ISO_record_upper (fuel : nat) (root : nat) (cache : path_cache) (path : list str)
    (w : World) :
  rockridge (source w) = false ->
  ISO_record path_table_record fuel root cache path w
  = ISO_record path_table_record fuel root cache (map upper path) w.
Proof.
  intros Hrr. unfold ISO_record. rewrite Hrr.
  replace (map upper (map upper path)) with (map upper path); [reflexivity|].
  rewrite map_map. apply map_ext. intros s. unfold upper. rewrite map_map.
  apply map_ext. intros c. now rewrite upper_char_idem.
Qed.

End ISO_record_properties.

Lemma ISO_record_twice_witness :
  snd (fst subdir_resolved) !! [b "SUB"] = Some 4%nat /\
  ISO_record empty_path_table 10 0 (snd (fst subdir_resolved)) [b "SUB"] (snd subdir_resolved)
  = (Ok 4%nat, snd (fst subdir_resolved), snd subdir_resolved).
Proof.
  apply (ISO_record_twice empty_path_table 10 0 ∅ [b "SUB"] subdir_world 4
           (snd (fst subdir_resolved)) (snd subdir_resolved)
           (record_at (snd subdir_resolved) 4));
    [reflexivity|discriminate|vm_compute; reflexivity|reflexivity|vm_compute; discriminate].
Defined.

Lemma ISO_record_upper_witness :
  ISO_record empty_path_table 10 0 ∅ [b "readme.txt"] empty_directory_world
  = ISO_record empty_path_table 10 0 ∅ (map upper [b "readme.txt"]) empty_directory_world.
Proof.
  apply (ISO_record_upper empty_path_table 10 0 ∅ [b "readme.txt"] empty_directory_world).
  reflexivity.
Defined.


(** ** Termination *)

Lemma forward_at_bind {A B} (m : M A) (k : A -> M B) w :
  forward_at m w -> (forall a w1, m w = (Ok a, w1) -> forward_at (k a) w1) ->
  forward_at (bind m k) w.
Proof.
  intros [Hm1 Hm2] Hk. unfold forward_at, bind in *.
  destruct (m w) as [[a|e|] w1] eqn:E.
  - destruct (Hk a w1 eq_refl) as [Hk1 Hk2]. split; [exact Hk1|].
    intros c Hc. destruct (Hm2 c Hc) as (c1 & Hle & Hc1). simpl in Hc1.
    destruct (Hk2 c1 Hc1) as (c2 & Hle2 & Hc2). exists c2. split; [lia|exact Hc2].
  - split; [discriminate|exact Hm2].
  - contradiction.
Qed.

Lemma forward_bind {A B} (m : M A) (k : A -> M B) :
  forward m -> (forall a, forward (k a)) -> forward (bind m k).
Proof. intros Hm Hk w. apply forward_at_bind; [apply Hm|]. intros a w1 _. apply Hk. Qed.

Lemma forward_pure {A} (m : M A) :
  (forall w, snd (m w) = w /\ fst (m w) <> Diverge) -> forward m.
Proof.
  intros H w. destruct (H w) as [H1 H2]. split; [exact H2|].
  intros c Hc. exists c. rewrite H1. split; [lia|exact Hc].
Qed.

Lemma forward_ret {A} (a : A) : forward (ret a).
Proof. apply forward_pure. intros w. split; [reflexivity|discriminate]. Qed.

Lemma forward_raise {A} e : forward (@raise A e).
Proof. apply forward_pure. intros w. split; [reflexivity|discriminate]. Qed.

Lemma forward_get_source : forward get_source.
Proof. apply forward_pure. intros w. split; [reflexivity|discriminate]. Qed.

Lemma forward_cursor : forward cursor.
Proof.
  apply forward_pure. intros w. unfold cursor, bind, get_source.
  destruct (cursor_of (source w)); split; try reflexivity; discriminate.
Qed.

Lemma forward_susp_assert c : forward (susp_assert c).
Proof. destruct c; [apply forward_ret|apply forward_raise]. Qed.

Lemma forward_of_struct {A} (o : option A) : forward (of_struct o).
Proof. destruct o; [apply forward_ret|apply forward_raise]. Qed.

Lemma forward_unpack_raw l : forward (unpack_raw l).
Proof.
  intros w. unfold forward_at, unpack_raw, bind, get_source, set_source.
  destruct (_buff (source w)) as [[d p]|] eqn:Eb.
  - unfold sio_read. cbn [sio_pos sio_data].
    set (data := if l <? 0 then _ else _).
    assert (Hn : 0 <= len data) by apply len_nonneg.
    destruct (len data <? l); (split; [discriminate|]); intros c Hc;
      unfold cursor_of in Hc; rewrite Eb in Hc; injection Hc as <-;
      exists (p + len data); (split; [lia|reflexivity]).
  - split; [discriminate|]. intros c Hc. unfold cursor_of in Hc. now rewrite Eb in Hc.
Qed.

Create HintDb forward.
#[local] Hint Resolve forward_ret forward_raise forward_get_source forward_cursor
  forward_susp_assert forward_of_struct forward_unpack_raw : forward.

Ltac forward_step :=
  first
    [ solve [auto with forward]
    | apply forward_bind; [|intros]
    | match goal with
      | |- forward (if ?c then _ else _) => destruct c
      | |- forward (match ?x with _ => _ end) => destruct x
      end ].

Ltac forward_tac := repeat forward_step.

Lemma forward_unpack st : forward (unpack st).
Proof. unfold unpack. forward_tac. Qed.
#[local] Hint Resolve forward_unpack : forward.

Lemma forward_unpack1 c : forward (unpack1 c).
Proof. unfold unpack1. forward_tac. Qed.
#[local] Hint Resolve forward_unpack1 : forward.

Lemma forward_unpack_both c : forward (unpack_both c).
Proof. unfold unpack_both, _unpack_both. forward_tac. Qed.
#[local] Hint Resolve forward_unpack_both : forward.

Lemma forward__unpack_dir_datetime t : forward (_unpack_dir_datetime t).
Proof. unfold _unpack_dir_datetime. forward_tac. Qed.
#[local] Hint Resolve forward__unpack_dir_datetime : forward.

Lemma forward_smart_values plan : forall vals, forward (smart_values plan vals).
Proof.
  induction plan as [|h plan IH]; intros vals; cbn [smart_values]; [apply forward_ret|].
  destruct vals as [|[v x] vals]; [apply forward_ret|].
  destruct h; forward_tac; apply IH.
Qed.
#[local] Hint Resolve forward_smart_values : forward.

Lemma forward_unpack_smart st : forward (unpack_smart st).
Proof. unfold unpack_smart. forward_tac. Qed.
#[local] Hint Resolve forward_unpack_smart : forward.

Lemma forward_TF_stamps flags sel : forward (TF_stamps flags sel).
Proof.
  induction sel as [|bit sel IH]; cbn [TF_stamps]; [apply forward_ret|].
  unfold unpack_vd_datetime, unpack_lazy_dir_datetime. forward_tac.
Qed.
#[local] Hint Resolve forward_TF_stamps : forward.

Lemma unpack1_cursor cd w z w' c :
  cursor_of (source w) = Some c -> unpack1 cd w = (Ok z, w') ->
  cursor_of (source w') = Some (c + Z.of_nat (code_size cd)).
Proof.
  intros Hc H. unfold unpack1, unpack in H.
  apply bind_inv in H as (d & w1 & H & Hm).
  apply bind_inv in H as (raw & w2 & Hr & Hs).
  apply (unpack_raw_cursor _ _ _ _ c) in Hr as [Hr _];
    [|unfold calcsize; lia|exact Hc].
  assert (Hw : w1 = w2) by (destruct (struct_unpack LE [FInt cd] raw); inversion Hs; auto).
  assert (Hw' : w' = w1) by (destruct d as [|[] []]; inversion Hm; auto).
  subst. rewrite Hr. f_equal. unfold calcsize. simpl. lia.
Qed.

(** The loop of [SL.__init__] ends within its budget: every turn reads at
    least two bytes. *)
Lemma SL_loop_forward fuel : forall target flags path w,
  (forall c, cursor_of (source w) = Some c -> target - c <= 2 * Z.of_nat fuel) ->
  forward_at (SL_loop fuel target flags path) w.
Proof.
  induction fuel as [|fuel IH]; intros target flags path w Hfuel.
  - assert (E : SL_loop 0 target flags path
                = (c <- cursor ;; if c <? target then diverge else ret path)) by reflexivity.
    rewrite E. apply forward_at_bind; [apply forward_cursor|].
    intros c w1 Hc. apply cursor_inv in Hc as [-> Hc]. specialize (Hfuel c Hc).
    assert (E1 : (c <? target) = false) by (apply Z.ltb_ge; lia). rewrite E1.
    apply forward_ret.
  - cbn [SL_loop]. apply forward_at_bind; [apply forward_cursor|].
    intros c w1 Hc. apply cursor_inv in Hc as [-> Hc]. specialize (Hfuel c Hc).
    destruct (c <? target); [|apply forward_ret].
    apply forward_at_bind; [apply forward_unpack1|]. intros cf w1 H1.
    pose proof (unpack1_cursor _ _ _ _ _ Hc H1) as Hc1. change (Z.of_nat (code_size c_B)) with 1 in Hc1.
    apply forward_at_bind; [apply forward_unpack1|]. intros cl w2 H2.
    pose proof (unpack1_cursor _ _ _ _ _ Hc1 H2) as Hc2. change (Z.of_nat (code_size c_B)) with 1 in Hc2.
    apply forward_at_bind; [apply forward_unpack_raw|]. intros cc w3 H3.
    destruct (forward_unpack_raw cl w2) as [_ Hf3]. rewrite H3 in Hf3.
    destruct (Hf3 _ Hc2) as (c3 & Hle3 & Hc3). simpl in Hc3.
    apply forward_at_bind; [apply forward_cursor|]. intros c1 w4 H4.
    apply cursor_inv in H4 as [-> _].
    apply forward_at_bind; [apply forward_susp_assert|]. intros u w5 H5.
    assert (w5 = w3) as -> by (destruct (c1 <=? target); inversion H5; auto).
    apply forward_at_bind.
    { assert (F : forward
                (if cf =? SL_CURRENT then susp_assert (cl =? 0);; ret (path ++ b ".")
                 else if cf =? SL_PARENT then susp_assert (cl =? 0);; ret (path ++ b "..")
                 else if cf =? SL_ROOT then susp_assert (cl =? 0);; ret path
                 else if (cf =? 0) || (cf =? SL_CONTINUE)
                      then susp_assert (0 <? cl);; ret (path ++ cc)
                 else susp_assert false;; ret path)) by forward_tac.
      apply F. }
    intros p1 w6 H6.
    assert (w6 = w3) as ->.
    { destruct (cf =? SL_CURRENT); [|destruct (cf =? SL_PARENT); [|destruct (cf =? SL_ROOT);
        [|destruct ((cf =? 0) || (cf =? SL_CONTINUE))]]];
      apply bind_inv in H6 as (u6 & w7 & Ha & H6);
      match type of Ha with susp_assert ?cond _ = _ => destruct cond end;
      inversion Ha; inversion H6; subst; auto. }
    apply forward_at_bind; [apply forward_cursor|]. intros c2 w7 H7.
    apply cursor_inv in H7 as [-> _].
    apply IH. intros c' Hc'. rewrite Hc3 in Hc'. injection Hc' as <-. lia.
Qed.

Lemma forward_SL_init length : forward (SL_init length).
Proof.
  intros w. unfold SL_init.
  apply forward_at_bind; [apply forward_susp_assert|]. intros u w1 Ha.
  assert (Hl : 2 <= length /\ w1 = w).
  { destruct (Z.leb_spec 2 length); inversion Ha; auto. }
  destruct Hl as [Hl ->].
  apply forward_at_bind; [apply forward_cursor|]. intros c w1 Hc.
  apply cursor_inv in Hc as [-> Hc].
  apply forward_at_bind; [apply forward_unpack1|]. intros flags w1 H1.
  pose proof (unpack1_cursor _ _ _ _ _ Hc H1) as Hc1. change (Z.of_nat (code_size c_B)) with 1 in Hc1.
  apply forward_at_bind; [|intros; apply forward_ret].
  apply SL_loop_forward. intros c' Hc'. rewrite Hc1 in Hc'. injection Hc' as <-. lia.
Qed.
#[local] Hint Resolve forward_SL_init : forward.

Lemma forward_UnknownEntry_init sv l : forward (UnknownEntry_init sv l).
Proof. unfold UnknownEntry_init. forward_tac. Qed.
#[local] Hint Resolve forward_UnknownEntry_init : forward.

Lemma forward_SUSP_Entry_unpack scope sv l : forward (SUSP_Entry_unpack scope sv l).
Proof.
  unfold SUSP_Entry_unpack, SP_init, CE_init, ST_init, ER_init, RR_init, PX_init, PN_init,
    NM_init, TF_init.
  cbv zeta. forward_tac.
Qed.

Lemma total_bind {A B} (m : M A) (k : A -> M B) :
  total m -> (forall a, total (k a)) -> total (bind m k).
Proof.
  intros Hm Hk w. unfold bind. specialize (Hm w).
  destruct (m w) as [[a|e|] w1]; [apply Hk|discriminate|contradiction].
Qed.

Lemma forward_total {A} (m : M A) : forward m -> total m.
Proof. intros H w. apply H. Qed.

Lemma total_ret {A} (a : A) : total (ret a).
Proof. intros w. discriminate. Qed.

Lemma total_raise {A} e : total (@raise A e).
Proof. intros w. discriminate. Qed.

Lemma try_except_inv {A} (m h : M A) w a w' :
  try_except_SUSPError m h w = (Ok a, w') ->
  m w = (Ok a, w') \/ exists w1, m w = (Raise SUSPError, w1) /\ h w1 = (Ok a, w').
Proof.
  unfold try_except_SUSPError. destruct (m w) as [[x|e|] w1]; intros H; try discriminate.
  - now left.
  - destruct e; try discriminate. right. eauto.
Qed.

Lemma total_try {A} (m h : M A) : total m -> total h -> total (try_except_SUSPError m h).
Proof.
  intros Hm Hh w. unfold try_except_SUSPError. specialize (Hm w).
  destruct (m w) as [[x|e|] w1]; [discriminate| |contradiction].
  destruct e; try discriminate. apply Hh.
Qed.

Lemma set_cursor_inv q w u w' c :
  cursor_of (source w) = Some c -> set_cursor q w = (Ok u, w') ->
  cursor_of (source w') = Some (Z.max 0 q).
Proof.
  intros Hc H. apply cursor_of_buffer in Hc as [d Hb].
  unfold set_cursor, bind, get_source, set_source in H. rewrite Hb in H.
  inversion H; subst. reflexivity.
Qed.

Lemma total_set_cursor q : total (set_cursor q).
Proof.
  intros w. unfold set_cursor, bind, get_source, set_source.
  destruct (_buff (source w)); discriminate.
Qed.

Lemma total_rewind_raw l : total (rewind_raw l).
Proof.
  unfold rewind_raw. apply total_bind; [apply forward_total, forward_get_source|].
  intros s. destruct (cursor_of s) as [c|]; [|apply total_raise].
  destruct (c <? l); [apply total_raise|apply total_set_cursor].
Qed.

Lemma total_unpack_susp_with dec maxlen pe :
  (forall scope sv l, total (dec scope sv l)) -> total (unpack_susp_with dec maxlen pe).
Proof.
  intros Hd. unfold unpack_susp_with. destruct (maxlen <? 4); [apply total_ret|].
  apply total_bind; [intros w; discriminate|intros sc].
  apply total_bind; [apply forward_total, forward_unpack|intros hdr].
  destruct hdr as [|[] [|[] [|[] []]]]; try apply total_raise.
  destruct (maxlen <? z).
  { apply total_bind; [apply total_rewind_raw|intros; apply total_ret]. }
  apply total_bind; [intros w; discriminate|intros s'].
  apply total_bind; [destruct (ext_id_ver_of s' pe); [apply total_ret|apply total_raise]|].
  intros scope.
  apply total_bind; [destruct sc; [apply total_ret|apply total_raise]|intros start].
  apply total_bind.
  { apply total_try.
    - apply total_bind; [apply Hd|intros; apply total_ret].
    - apply total_bind; [apply total_set_cursor|intros; apply total_ret]. }
  intros ns. apply total_bind; [apply forward_total, forward_cursor|intros c].
  apply total_bind.
  { destruct (negb (c =? start + z)); [|apply total_ret].
    apply total_bind; [apply total_set_cursor|intros].
    apply total_bind; [apply forward_total, forward_UnknownEntry_init|intros; apply total_ret]. }
  intros ns'. apply total_bind; [apply forward_total, forward_cursor|intros c'].
  apply total_bind; [destruct (c' =? start + z); [apply total_ret|apply total_raise]|intros].
  destruct ns'; [apply total_ret|apply total_raise].
Qed.

Lemma total_unpack_susp maxlen pe : total (unpack_susp maxlen pe).
Proof.
  apply total_unpack_susp_with. intros. apply forward_total, forward_SUSP_Entry_unpack.
Qed.

Lemma unpack_cursor fmt w d w' c :
  cursor_of (source w) = Some c -> unpack fmt w = (Ok d, w') ->
  cursor_of (source w') = Some (c + calcsize fmt).
Proof.
  intros Hc H. unfold unpack in H.
  apply bind_inv in H as (raw & w2 & Hr & Hs).
  apply (unpack_raw_cursor _ _ _ _ c) in Hr as [Hr _];
    [|unfold calcsize; lia|exact Hc].
  destruct (struct_unpack LE fmt raw); inversion Hs; subst. exact Hr.
Qed.

(** An entry returned by [unpack_susp_with] over a decoder that reads
    forwards moves the cursor by its length, which is at least 4 and at
    most [maxlen]. *)
Lemma unpack_susp_step dec maxlen pe w c e w' :
  (forall scope sv l, forward (dec scope sv l)) ->
  cursor_of (source w) = Some c ->
  unpack_susp_with dec maxlen pe w = (Ok (Some e), w') ->
  exists sig length version w1,
    unpack [FStr 2; FInt c_B; FInt c_B] w = (Ok [VStr sig; VInt length; VInt version], w1) /\
    4 <= length <= maxlen /\ cursor_of (source w') = Some (c + length).
Proof.
  intros Hdec Hc H. unfold unpack_susp_with in H.
  destruct (maxlen <? 4) eqn:Em; [discriminate|].
  apply bind_inv in H as (sc & w1 & Hsc & H).
  apply cursor_opt_inv in Hsc as [-> Hsc]. rewrite Hc in Hsc. subst sc.
  apply bind_inv in H as (hdr & w1 & Hh & H).
  pose proof (unpack_cursor _ _ _ _ _ Hc Hh) as Hc1.
  change (calcsize [FStr 2; FInt c_B; FInt c_B]) with 4 in Hc1.
  destruct hdr as [|[] [|[] [|[] []]]]; try discriminate.
  rename s into sig, z into length, z0 into version.
  exists sig, length, version, w1. split; [exact Hh|].
  destruct (maxlen <? length) eqn:El.
  { apply bind_inv in H as (u & w2 & _ & H). discriminate. }
  apply Z.ltb_ge in El.
  apply bind_inv in H as (s' & w2 & Hs & H). inversion Hs; subst s' w2; clear Hs.
  apply bind_inv in H as (scope & w2 & Hs & H).
  assert (w2 = w1) as -> by (destruct (ext_id_ver_of (source w1) pe); inversion Hs; auto).
  clear Hs.
  apply bind_inv in H as (start & w2 & Hst & H). apply need_int_inv in Hst as [Hst ->].
  injection Hst as <-.
  apply bind_inv in H as (ns & w5 & Htry & H).
  apply bind_inv in H as (c5 & w6 & Hc5 & H). apply cursor_inv in Hc5 as [-> Hc5].
  apply bind_inv in H as (ns' & w7 & Hfb & H).
  apply bind_inv in H as (c7 & w8 & Hc7 & H). apply cursor_inv in Hc7 as [-> Hc7].
  apply bind_inv in H as (u & w9 & Ha & H). apply py_assert_inv in Ha as [Ha ->].
  apply Z.eqb_eq in Ha. subst c7.
  destruct ns' as [e'|]; [|discriminate]. inversion H; subst e' w'. clear H.
  split; [|exact Hc7]. split; [|lia].
  (* the cursor is at least four bytes after the start *)
  destruct (negb (c5 =? c + length)) eqn:Ene.
  - apply bind_inv in Hfb as (u1 & w10 & Hset & Hfb).
    apply bind_inv in Hfb as (e1 & w11 & Hun & Hfb). inversion Hfb; subst; clear Hfb.
    pose proof (set_cursor_inv _ _ _ _ _ Hc5 Hset) as Hc10.
    destruct (forward_UnknownEntry_init (sig, version) (length - 4) w10) as [_ Hf].
    rewrite Hun in Hf. destruct (Hf _ Hc10) as (c11 & Hle & Hc11). simpl in Hc11.
    rewrite Hc7 in Hc11. injection Hc11 as <-. lia.
  - inversion Hfb; subst ns w7; clear Hfb.
    apply negb_false_iff, Z.eqb_eq in Ene. subst c5.
    apply try_except_inv in Htry as [Hd|(w10 & _ & Hh')].
    + apply bind_inv in Hd as (e0 & w10 & Hd & Hr). inversion Hr; subst; clear Hr.
      destruct (Hdec scope (sig, version) (length - 4) w1) as [_ Hf].
      rewrite Hd in Hf. destruct (Hf _ Hc1) as (c10 & Hle & Hc10). simpl in Hc10.
      rewrite Hc5 in Hc10. injection Hc10 as <-. lia.
    + apply bind_inv in Hh' as (u1 & w11 & _ & Hr). discriminate.
Qed.

(** The loop over the system-use area ends within its budget. *)
Lemma susp_area_loop_total fuel : forall target acc w,
  (1 <= fuel)%nat ->
  (forall c, cursor_of (source w) = Some c -> target - c < 4 * Z.of_nat fuel) ->
  fst (susp_area_loop fuel target acc w) <> Diverge.
Proof.
  induction fuel as [|fuel IH]; intros target acc w Hf Hc; [lia|].
  cbn [susp_area_loop]. unfold bind at 1.
  destruct (cursor w) as [[c|x|] w1] eqn:Ec; [|discriminate|].
  2:{ pose proof (forward_cursor w) as [F _]. now rewrite Ec in F. }
  apply cursor_inv in Ec as [-> Ec]. specialize (Hc c Ec).
  unfold bind at 1.
  destruct (unpack_susp (target - c) 0 w) as [[[e|]|x|] w2] eqn:Eu; try discriminate.
  2:{ pose proof (total_unpack_susp (target - c) 0 w) as F. now rewrite Eu in F. }
  destruct (is_ST e); [discriminate|].
  destruct (unpack_susp_step _ _ _ _ _ _ _ forward_SUSP_Entry_unpack Ec Eu)
    as (sig & length & version & w1 & _ & Hl & Hc2).
  apply IH; [lia|]. intros c' Hc'. rewrite Hc2 in Hc'. injection Hc' as <-. lia.
Qed.

Lemma total_Record_system_use target t : total (Record_system_use target t).
Proof.
  unfold Record_system_use. apply total_bind.
  - destruct t; try apply total_ret.
    apply total_bind; [apply forward_total, forward_cursor|intros c].
    apply total_bind; [apply total_unpack_susp|intros [e|]]; [|apply total_ret].
    destruct e; apply total_ret.
  - intros probe. destruct (is_not_False (snd probe)); [|apply total_ret].
    apply total_bind.
    { unfold susp_skip_prefix. destruct (snd probe); try apply total_ret.
      destruct (negb (z =? 0)); [|apply total_ret].
      apply total_bind; [apply forward_total, forward_unpack_raw|intros; apply total_ret]. }
    intros _ w. unfold bind at 1.
    destruct (cursor w) as [[c|x|] w1] eqn:Ec; [|discriminate|].
    2:{ pose proof (forward_cursor w) as [F _]. now rewrite Ec in F. }
    apply cursor_inv in Ec as [-> Ec].
    apply susp_area_loop_total; [lia|].
    intros c' Hc'. rewrite Ec in Hc'. injection Hc' as <-. lia.
Qed.

Lemma total_Record_init length t : total (Record_init length t).
Proof.
  unfold Record_init.
  apply total_bind; [intros w; discriminate|intros cc].
  apply total_bind; [apply forward_total, forward_cursor|intros c].
  apply total_bind; [apply forward_total, forward_unpack1|intros _].
  apply total_bind; [apply forward_total, forward_unpack_both|intros loc].
  apply total_bind; [apply forward_total, forward_unpack_both|intros rl].
  apply total_bind.
  { apply forward_total. unfold unpack_dir_datetime, unpack_lazy_dir_datetime. forward_tac. }
  intros dt.
  apply total_bind; [apply forward_total, forward_unpack1|intros fl].
  apply total_bind; [apply forward_total, forward_unpack1|intros _].
  apply total_bind; [apply forward_total, forward_unpack1|intros _].
  apply total_bind; [apply forward_total, forward_unpack_both|intros _].
  apply total_bind; [apply forward_total, forward_unpack1|intros nl].
  apply total_bind; [apply forward_total; unfold unpack_string; forward_tac|intros raw].
  apply total_bind; [apply forward_total; forward_tac|intros _].
  apply total_bind; [apply total_Record_system_use|intros es].
  apply total_bind; [apply forward_total, forward_cursor|intros c'].
  apply total_bind; [destruct (c' <=? c + length); [apply total_ret|apply total_raise]|].
  intros _. apply total_bind; [apply forward_total, forward_unpack_raw|intros _].
  intros w. discriminate.
Qed.

(** X29.  Parsing a directory record always comes to an end, with a
    record or with an exception, whatever the bytes under the cursor: the
    loop over the entries of the system-use area and the loop over the
    components of an [SL] stay within the budgets given to them. *)
Theorem unpack_record_terminates (w : World) :
  fst (unpack_record w) <> Diverge /\
  forall length ssi, fst (Record_init length ssi w) <> Diverge.
Proof.
  split; [|intros; apply total_Record_init].
  revert w. change (total unpack_record). unfold unpack_record.
  apply total_bind; [intros w; discriminate|intros sc].
  apply total_bind; [apply forward_total, forward_unpack1|intros l].
  destruct (l =? 0).
  - apply total_bind; [apply total_rewind_raw|intros; apply total_ret].
  - apply total_bind; [intros w; discriminate|intros s].
    apply total_bind; [apply total_Record_init|intros r].
    apply total_bind; [apply forward_total, forward_cursor|intros c].
    apply total_bind; [destruct sc; [apply total_ret|apply total_raise]|intros st].
    apply total_bind; [destruct (c =? st + l); [apply total_ret|apply total_raise]|intros].
    apply total_ret.
Qed.

(** X30.  An entry returned by [unpack_susp] declares a length of at
    least 4, the size of its own header, and of at most [maxlen]: a loop
    that reads entries one after the other moves on by four bytes or more
    at every turn. *)
Theorem unpack_susp_length (maxlen possible_extension : Z) (w : World) (data : str) (pos : Z)
    (e : SUSP_Entry) (w' : World) :
  buffer w data pos -> 0 <= pos ->
  unpack_susp maxlen possible_extension w = (Ok (Some e), w') ->
  4 <= snd (fst (susp_header data pos)) <= maxlen.
Proof.
  intros Hb Hp H.
  destruct (unpack_susp_step _ _ _ _ _ _ _ forward_SUSP_Entry_unpack
              (buffer_cursor_of _ _ _ Hb) H) as (sig & length & version & w1 & Hh & Hl & _).
  apply (unpack_header_inv _ _ _ _ _ Hb Hp) in Hh as (_ & Hh & _).
  assert (E : length = snd (fst (susp_header data pos))) by congruence.
  now rewrite <- E.
Qed.

Lemma unpack_susp_length_witness : 4 <= snd (fst (susp_header bad_NM_buffer 0)) <= 12.
Proof.
  apply (unpack_susp_length 12 0 (rr_buffer_world bad_NM_buffer 0) bad_NM_buffer 0
           (UnknownEntry (b "NM") 1 (byte 2 ++ b "abcd"))
           (at_cursor (rr_buffer_world bad_NM_buffer 0) 9));
    [reflexivity|lia|vm_compute; reflexivity].
Defined.

(** * The name of a record and its entries in on-disc order *)



























